(** * TBCModLoader: item shop merge, positional shift and animation tables

    A shallow embedding of

    - [bcml/core/game_data/cat_base/item_shop.py] ([Item], [ItemShop]),
    - [bcml/core/game_data/gamototo/ototo_anim.py] ([MainChara]),
    - [tbcml/anim/anim.py] (the [read_csv]/[apply_csv] pairs of the
      animation records),

    Python objects are mutable and shared by reference: an [Item] stored
    in a shop is the very object the caller passed in.  Items therefore
    live in a heap and the shop's dictionary maps shop ids to
    references.  The methods of the animation records that change the
    objects of a list in place ([flip], [flip_x], [flip_y], [set_id])
    are modelled the same way, over stores of [ModelPart] and [KeyFrame]
    objects; the table methods, which read into objects they create and,
    when they write, assign nothing but the counts, take the records as
    values. *)

From Stdlib Require Import ZArith Lia List Bool.
From Stdlib Require Import DecimalString DecimalPos DecimalZ.
From Stdlib Require Import Ascii.
From stdpp Require Import base decidable option list strings.

Local Open Scope Z_scope.

(* ===================================================================== *)
(** * Python dictionaries                                                 *)
(* ===================================================================== *)

(** A [dict[int, V]]: keys are unique and kept in insertion order;
    assigning to an existing key keeps its position. *)
Module PyDict.

Definition dict (V : Type) : Type := list (Z * V).

Section Ops.
Context {V : Type}.

Fixpoint get (d : dict V) (k : Z) : option V :=
  match d with
  | [] => None
  | (k', v) :: d' => if Z.eqb k' k then Some v else get d' k
  end.

(** [d[k] = v] *)
Fixpoint set (d : dict V) (k : Z) (v : V) : dict V :=
  match d with
  | [] => [(k, v)]
  | (k', v') :: d' =>
      if Z.eqb k' k then (k', v) :: d' else (k', v') :: set d' k v
  end.

(** the dictionary left by [d.pop(k)] when [k] is a key *)
Fixpoint remove (d : dict V) (k : Z) : dict V :=
  match d with
  | [] => []
  | (k', v) :: d' => if Z.eqb k' k then d' else (k', v) :: remove d' k
  end.

Definition keys (d : dict V) : list Z := map fst d.
Definition values (d : dict V) : list V := map snd d.

(** Unique keys: what every Python dictionary satisfies. *)
Definition wf (d : dict V) : Prop := NoDup (keys d).

End Ops.

End PyDict.

Import PyDict.

(* ===================================================================== *)
(** * Items                                                              *)
(* ===================================================================== *)

(** The values an attribute of an [Item] holds. *)
Inductive Value : Type :=
| VInt (z : Z)
| VBool (b : bool)
| VStr (s : string).

#[global] Instance Value_eq_dec : EqDecision Value.
Proof. solve_decision. Defined.

(** [class Item]: the seven attributes [__init__] assigns. *)
Record Item : Type := mkItem {
  shop_id : Z;
  gatya_item_id : Z;
  count : Z;
  price : Z;
  draw_item_value : bool;
  category_name : string;
  rect_id : Z;
}.

#[global] Instance Item_eq_dec : EqDecision Item.
Proof. solve_decision. Defined.

Definition set_shop_id (v : Z) (it : Item) : Item :=
  mkItem v (gatya_item_id it) (count it) (price it)
         (draw_item_value it) (category_name it) (rect_id it).

(** [getattr(item, name)]: [None] stands for [AttributeError], raised for
    every name [__init__] did not assign. *)
Definition getattr (name : string) (it : Item) : option Value :=
  if String.eqb name "shop_id" then Some (VInt (shop_id it))
  else if String.eqb name "gatya_item_id" then Some (VInt (gatya_item_id it))
  else if String.eqb name "count" then Some (VInt (count it))
  else if String.eqb name "price" then Some (VInt (price it))
  else if String.eqb name "draw_item_value" then Some (VBool (draw_item_value it))
  else if String.eqb name "category_name" then Some (VStr (category_name it))
  else if String.eqb name "rect_id" then Some (VInt (rect_id it))
  else None.

(** [setattr(item, name, v)] for a value [v] read with [getattr] under the
    same [name] (the only use the merge loop makes of it): the attribute is
    replaced.  Other combinations do not arise and leave the item as it
    is. *)
Definition setattr (name : string) (v : Value) (it : Item) : Item :=
  match v with
  | VInt z =>
      if String.eqb name "shop_id" then set_shop_id z it
      else if String.eqb name "gatya_item_id" then
        mkItem (shop_id it) z (count it) (price it)
               (draw_item_value it) (category_name it) (rect_id it)
      else if String.eqb name "count" then
        mkItem (shop_id it) (gatya_item_id it) z (price it)
               (draw_item_value it) (category_name it) (rect_id it)
      else if String.eqb name "price" then
        mkItem (shop_id it) (gatya_item_id it) (count it) z
               (draw_item_value it) (category_name it) (rect_id it)
      else if String.eqb name "rect_id" then
        mkItem (shop_id it) (gatya_item_id it) (count it) (price it)
               (draw_item_value it) (category_name it) z
      else it
  | VBool b =>
      if String.eqb name "draw_item_value" then
        mkItem (shop_id it) (gatya_item_id it) (count it) (price it)
               b (category_name it) (rect_id it)
      else it
  | VStr s =>
      if String.eqb name "category_name" then
        mkItem (shop_id it) (gatya_item_id it) (count it) (price it)
               (draw_item_value it) s (rect_id it)
      else it
  end.

(* ===================================================================== *)
(** * The object heap                                                     *)
(* ===================================================================== *)

(** References to [Item] objects; every reference denotes an object. *)
Definition ref : Type := nat.
Definition Heap : Type := ref -> Item.

Definition upd (h : Heap) (r : ref) (it : Item) : Heap :=
  fun r' => if Nat.eqb r' r then it else h r'.

(** Exceptions the modelled code raises. *)
Inductive exn : Type :=
| AttributeError | KeyError | IndexError | ValueError
| MalformedAsset | OutOfBounds.

Inductive outcome : Type :=
| Returned
| Raised (e : exn).

(* ===================================================================== *)
(** * ItemShop                                                            *)
(* ===================================================================== *)

(** The state an [ItemShop] method runs in: the heap of items and the
    shop's [items] dictionary.  ([tex] is not touched by any of the methods
    below.) *)
Record Shop : Type := mkShop {
  heap : Heap;
  items : dict ref;
}.

(** [ItemShop.get_item] *)
Definition get_item (d : dict ref) (shop_index : Z) : option ref :=
  get d shop_index.

(** [ItemShop.set_item]: [item.shop_id = shop_index], then
    [self.items[shop_index] = item]. *)
Definition set_item (shop_index : Z) (item : ref) (s : Shop) : Shop :=
  mkShop (upd (heap s) item (set_shop_id shop_index (heap s item)))
         (set (items s) shop_index item).

(** [ItemShop.add_item] *)
Definition add_item (item : ref) (s : Shop) : Shop :=
  set_item (shop_id (heap s item)) item s.

(** The first loop of [shift_items], over [self.items.values()]. *)
Fixpoint shift_ids (refs : list ref) (start_index shift : Z) (h : Heap) : Heap :=
  match refs with
  | [] => h
  | r :: refs' =>
      shift_ids refs' start_index shift
        (if Z.leb start_index (shop_id (h r))
         then upd h r (set_shop_id (shop_id (h r) + shift) (h r))
         else h)
  end.

(** The dictionary comprehension [{item.shop_id: item for item in ...}],
    accumulated onto [acc]. *)
Fixpoint rekey (refs : list ref) (h : Heap) (acc : dict ref) : dict ref :=
  match refs with
  | [] => acc
  | r :: refs' => rekey refs' h (set acc (shop_id (h r)) r)
  end.

(** [ItemShop.shift_items] *)
Definition shift_items (start_index shift : Z) (s : Shop) : Shop :=
  let h' := shift_ids (values (items s)) start_index shift (heap s) in
  mkShop h' (rekey (values (items s)) h' []).

(** [ItemShop.remove_item]: [self.items.pop(shop_index)] raises [KeyError]
    when the key is absent. *)
Definition remove_item (shop_index : Z) (s : Shop) : Shop * outcome :=
  match get (items s) shop_index with
  | None => (s, Raised KeyError)
  | Some _ =>
      (shift_items (shop_index + 1) (-1)
         (mkShop (heap s) (remove (items s) shop_index)),
       Returned)
  end.

(** [ItemShop.insert_item] *)
Definition insert_item (shop_index : Z) (item : ref) (s : Shop) : Shop :=
  set_item shop_index item (shift_items shop_index 1 s).

(** The attribute names [import_item_shop] walks over. *)
Definition attrs : list string :=
  [ "gatya_item_id"; "count"; "price"; "draw_item_value";
    "category_name"; "imgcut_id"; "cut" ]%string.

(** The inner loop [for attr in attrs] for one id present in both [other]
    and the game data.  [other_item] is read through the heap at every turn,
    [gd_item] is an object [from_game_data] has just built (nothing else
    refers to it), and [current_item] is [None] when the shop has no such
    id, in which case [setattr] raises [AttributeError]. *)
Fixpoint merge_attrs (names : list string) (other_item : ref) (gd_item : Item)
         (current_item : option ref) (h : Heap) : Heap * outcome :=
  match names with
  | [] => (h, Returned)
  | attr :: names' =>
      match getattr attr (h other_item) with
      | None => (h, Raised AttributeError)
      | Some other_value =>
          match getattr attr gd_item with
          | None => (h, Raised AttributeError)
          | Some gd_value =>
              if decide (other_value <> gd_value) then
                match current_item with
                | None => (h, Raised AttributeError)
                | Some c =>
                    merge_attrs names' other_item gd_item current_item
                      (upd h c (setattr attr other_value (h c)))
                end
              else merge_attrs names' other_item gd_item current_item h
          end
      end
  end.

(** The loop [for id in all_keys] of [import_item_shop], over the ids in
    the order the set yields them.  [other] is the imported shop's
    dictionary (a shop object other than [self]) and [gd_item_shop] the
    dictionary [from_game_data] returned. *)
Fixpoint import_loop (order : list Z) (other : dict ref)
         (gd_item_shop : dict Item) (s : Shop) : Shop * outcome :=
  match order with
  | [] => (s, Returned)
  | id :: order' =>
      match get_item other id with
      | None => import_loop order' other gd_item_shop s
      | Some other_item =>
          match get gd_item_shop id with
          | Some gd_item =>
              match merge_attrs attrs other_item gd_item
                      (get_item (items s) id) (heap s) with
              | (h', Returned) =>
                  import_loop order' other gd_item_shop (mkShop h' (items s))
              | (h', Raised e) => (mkShop h' (items s), Raised e)
              end
          | None =>
              import_loop order' other gd_item_shop (set_item id other_item s)
          end
      end
  end.

(** [all_keys]: the set of the keys of the three dictionaries.  Python
    does not fix the order in which a set is iterated; [order] is any
    listing of the set without repetition. *)
Definition all_keys (order : list Z) (self other : dict ref)
           (gd_item_shop : dict Item) : Prop :=
  NoDup order /\
  forall k, In k order <->
            In k (keys self) \/ In k (keys other) \/ In k (keys gd_item_shop).

(** [ItemShop.import_item_shop], from line 335 on: [gd_item_shop] is the
    value [self.from_game_data(game_data)] returned and [order] the
    iteration order of [all_keys]. *)
Definition import_item_shop (order : list Z) (other : dict ref)
           (gd_item_shop : dict Item) (s : Shop) : Shop * outcome :=
  import_loop order other gd_item_shop s.

(** The key-consistency invariant: every key of the [items] dictionary
    maps to an item whose [shop_id] is that key. *)
Definition key_consistent (s : Shop) : Prop :=
  forall k r, get (items s) k = Some r -> shop_id (heap s r) = k.

(** The ids of the shop are [0 .. n-1]. *)
Definition contiguous (n : Z) (s : Shop) : Prop :=
  forall k, is_Some (get (items s) k) <-> 0 <= k < n.

(** An order-sensitive snapshot of [n] records: a dictionary whose keys
    are [0 .. n-1], each the [shop_id] of the item stored under it. *)
Definition snapshot (n : Z) (s : Shop) : Prop :=
  wf (items s) /\ key_consistent s /\ contiguous n s.

(** The object [r] is stored in the shop (under some key). *)
Definition stored (r : ref) (s : Shop) : Prop := In r (values (items s)).

(** The id [shift_items start shift] gives to the item that had id [k]. *)
Definition shifted_key (start shift k : Z) : Z :=
  if start <=? k then k + shift else k.

(* ===================================================================== *)
(** * Cells and conversions                                              *)
(* ===================================================================== *)

(** The cells of the tabular codec ([io.bc_csv], [tbcml.CSV] and
    [tbcml.io.csv_fields]), which are not among the sources.  A cell is an
    untyped textual value with typed accessors. *)
Module Cell.

(** Modelled from the spec: the accessor [to_int] of a cell.  Numeric
    cells are plain ASCII integers; the conversion fails ([None]) on
    malformed text. *)
Definition to_int (c : string) : option Z :=
  option_map Z.of_int (NilZero.int_of_string c).

(** Modelled from the spec: the accessor [to_bool] of a cell.  Boolean
    cells are [0]/[1]; the conversion fails on anything else. *)
Definition to_bool (c : string) : option bool :=
  if String.eqb c "1" then Some true
  else if String.eqb c "0" then Some false
  else None.

(** Modelled from the spec: the accessor [to_str] of a cell, its text. *)
Definition to_str (c : string) : string := c.

(** Modelled from the spec: the setter of a cell, which stringifies the
    value back; for an integer, its decimal numeral. *)
Definition of_int (z : Z) : string := NilZero.string_of_int (Z.to_int z).

End Cell.

(** Results of the fallible calls: a value or the exception raised. *)
Inductive result (A : Type) : Type :=
| Ok (a : A)
| Err (e : exn).
Arguments Ok {A} a.
Arguments Err {A} e.

#[global] Instance result_ret : MRet result := fun A a => Ok a.

#[global] Instance result_bind : MBind result := fun A B k m =>
  match m with
  | Ok a => k a
  | Err e => Err e
  end.

Definition or_raise {A : Type} (e : exn) (o : option A) : result A :=
  match o with
  | Some a => Ok a
  | None => Err e
  end.

(** [line[i]]: [IndexError] past the end of the line. *)
Definition nth_cell (line : list string) (i : nat) : result string :=
  or_raise IndexError (line !! i).

(** The [Item(...)] expression of [from_game_data] for one line. *)
Definition item_of_line (line : list string) : result Item :=
  c0 ← nth_cell line 0; v0 ← or_raise ValueError (Cell.to_int c0);
  c1 ← nth_cell line 1; v1 ← or_raise ValueError (Cell.to_int c1);
  c2 ← nth_cell line 2; v2 ← or_raise ValueError (Cell.to_int c2);
  c3 ← nth_cell line 3; v3 ← or_raise ValueError (Cell.to_int c3);
  c4 ← nth_cell line 4; v4 ← or_raise ValueError (Cell.to_bool c4);
  c5 ← nth_cell line 5;
  c6 ← nth_cell line 6; v6 ← or_raise ValueError (Cell.to_int c6);
  Ok (mkItem v0 v1 v2 v3 v4 (Cell.to_str c5) v6).

(** The loop of [from_game_data] over [tsv.lines[1:]]:
    [items[line[0].to_int()] = Item(...)]. *)
Fixpoint read_items (lines : list (list string)) (acc : dict Item)
  : result (dict Item) :=
  match lines with
  | [] => Ok acc
  | line :: lines' =>
      it ← item_of_line line;
      read_items lines' (set acc (shop_id it) it)
  end.

(** What [from_game_data] leaves behind: the shop it returns and the
    warnings it has recorded.  The function contains no statement that
    records anything, so the second component is the empty log. *)
Record Decoded : Type := mkDecoded {
  decoded_items : dict Item;
  warnings : list string;
}.

(** [ItemShop.from_game_data]: [tsv_lines] is [None] when the pack has no
    [itemShopData.tsv] (the empty shop is returned), and otherwise the lines
    of the decoded file, header line first. *)
Definition from_game_data (tsv_lines : option (list (list string)))
  : result Decoded :=
  match tsv_lines with
  | None => Ok (mkDecoded [] [])
  | Some lines =>
      its ← read_items (tail lines) [];
      Ok (mkDecoded its [])
  end.

(* ===================================================================== *)
(** * MainChara                                                           *)
(* ===================================================================== *)

Section MainChara.

(** [anim.model.Model] and [pack.GamePacks] are not among the sources;
    [load] stands for [Model.load] at the fixed file names of
    [MainChara.FilePath]. *)
Variable Model : Type.
Variable GamePacks : Type.
Variable load : GamePacks -> Model.

(** [MainChara] objects: [chara_model o] is the [model] attribute of the
    object [o], and [next_obj] the identity the next object created will
    get (every existing object has a smaller one). *)
Record Charas : Type := mkCharas {
  next_obj : nat;
  chara_model : nat -> Model;
}.

(** [MainChara.from_game_data]: a new object holding the loaded model. *)
Definition chara_from_game_data (game_data : GamePacks) (st : Charas)
  : nat * Charas :=
  (next_obj st,
   mkCharas (S (next_obj st))
     (fun o => if Nat.eqb o (next_obj st) then load game_data
               else chara_model st o)).

(** [a != b] on a class that defines neither [__eq__] nor [__ne__]:
    Python falls back on object identity. *)
Definition chara_ne (a b : nat) : bool := negb (Nat.eqb a b).

(** [MainChara.import_main_chara] *)
Definition import_main_chara (self other : nat) (game_data : GamePacks)
           (st : Charas) : Charas :=
  let '(gd_chara, st') := chara_from_game_data game_data st in
  if chara_ne gd_chara other then
    mkCharas (next_obj st')
      (fun o => if Nat.eqb o self then chara_model st' other
                else chara_model st' o)
  else st'.

End MainChara.

(* ===================================================================== *)
(** * Tables                                                              *)
(* ===================================================================== *)

Local Open Scope nat_scope.

(** [tbcml.CSV], the table the animation records are read from and
    written to.  The class is not among the sources. *)
Module CSV.

(** Modelled from the spec: the table of [tbcml.CSV], an ordered sequence
    of rows, each an ordered sequence of cells, together with [index], the
    cursor the records set ([csv.index = index]) before binding their
    fields.  Rows and columns are counted from 0. *)
Record t : Type := mk {
  lines : list (list string);
  index : nat;
}.

(** Modelled from the spec: [tbcml.CSV()], the empty table. *)
Definition new : t := mk [] 0.

(** [csv.index = i] *)
Definition set_index (i : nat) (csv : t) : t := mk (lines csv) i.

(** Modelled from the spec: [get(row, col)] of the codec.  Reading a cell
    that is not there fails: [MalformedAsset] for a missing row,
    [OutOfBounds] for a missing column. *)
Definition get_cell (L : list (list string)) (row col : nat) : result string :=
  match L !! row with
  | None => Err MalformedAsset
  | Some r => or_raise OutOfBounds (r !! col)
  end.

Definition cell (csv : t) (row col : nat) : result string :=
  get_cell (lines csv) row col.

Definition pad {A : Type} (n : nat) (x : A) (l : list A) : list A :=
  l ++ replicate (n - length l) x.

(** Modelled from the spec: [set(row, col, value)] of the codec.  Writing
    creates the rows (empty) and the cells (of empty text) it needs, which
    is what lets [Model.apply] write a record into the empty
    [tbcml.CSV()]. *)
Definition put_cell (row col : nat) (s : string) (L : list (list string))
  : list (list string) :=
  alter (fun r => <[col := s]> (pad (S col) EmptyString r)) row
        (pad (S row) [] L).

Definition set_cell (row col : nat) (s : string) (csv : t) : t :=
  mk (put_cell row col s (lines csv)) (index csv).

End CSV.

(** Modelled from the spec: the field descriptors of [tbcml.io.csv_fields]
    (not among the sources), with the keyword arguments the source passes:
    [IntCSVField(col_index=.., row_index=.., row_offset=..)].  The cell
    lies in column [col_index] of the row [row_index], or of the cursor's
    row when no [row_index] is given, moved down by [row_offset]. *)
Record CSVField : Type := mkField {
  col_index : nat;
  row_index : option nat;
  row_offset : nat;
}.

(** Modelled from the spec: a descriptor bound to the attribute it reads
    and writes, by type of cell.  The source pairs the descriptor
    [csv__name] with the attribute [name] by reflection; here the pair is
    given with the attribute's getter and setter. *)
Inductive Binding (R : Type) : Type :=
| IntCSVField (f : CSVField) (get : R -> option Z) (put : option Z -> R -> R)
| StringCSVField (f : CSVField) (get : R -> option string)
                 (put : option string -> R -> R).
Arguments IntCSVField {R} f get put.
Arguments StringCSVField {R} f get put.

(** [tbcml.Modification], of which the records use [read_csv_fields] and
    [apply_csv_fields].  The class is not among the sources. *)
Module Modification.

(** Modelled from the spec: the row of a field, cursor plus row offset,
    the cursor being [row_index] when the field has one. *)
Definition field_row (f : CSVField) (csv : CSV.t) : nat :=
  default (CSV.index csv) (row_index f) + row_offset f.

(** Modelled from the spec: reading one scalar field, from the cell at
    (cursor + row offset, column index), into its attribute. *)
Definition read_field {R : Type} (b : Binding R) (obj : R) (csv : CSV.t)
  : result R :=
  match b with
  | IntCSVField f _ put =>
      c ← CSV.cell csv (field_row f csv) (col_index f);
      z ← or_raise ValueError (Cell.to_int c);
      Ok (put (Some z) obj)
  | StringCSVField f _ put =>
      c ← CSV.cell csv (field_row f csv) (col_index f);
      Ok (put (Some (Cell.to_str c)) obj)
  end.

(** Modelled from the spec: writing one scalar field, the attribute
    stringified, to the cell at (cursor + row offset, column index).  An
    attribute that is not set ([None]) writes no cell. *)
Definition write_field {R : Type} (b : Binding R) (obj : R) (csv : CSV.t)
  : CSV.t :=
  match b with
  | IntCSVField f get _ =>
      match get obj with
      | Some z =>
          CSV.set_cell (field_row f csv) (col_index f) (Cell.of_int z) csv
      | None => csv
      end
  | StringCSVField f get _ =>
      match get obj with
      | Some s => CSV.set_cell (field_row f csv) (col_index f) s csv
      | None => csv
      end
  end.

(** Modelled from the spec: [Modification.read_csv_fields(obj, csv)],
    every bound field of [obj] read in turn. *)
Fixpoint read_csv_fields {R : Type} (bs : list (Binding R)) (obj : R)
         (csv : CSV.t) : result R :=
  match bs with
  | [] => Ok obj
  | b :: bs' => obj ← read_field b obj csv; read_csv_fields bs' obj csv
  end.

(** Modelled from the spec: [Modification.apply_csv_fields(obj, csv)],
    every bound field of [obj] written in turn. *)
Fixpoint apply_csv_fields {R : Type} (bs : list (Binding R)) (obj : R)
         (csv : CSV.t) : CSV.t :=
  match bs with
  | [] => csv
  | b :: bs' => apply_csv_fields bs' obj (write_field b obj csv)
  end.

End Modification.

(** [range(n or 0)]: the number of turns of a loop over a count that may
    be unset or negative. *)
Definition range_len (n : option Z) : nat := Z.to_nat (default 0%Z n).

(** [len(xs)] *)
Definition len {A : Type} (xs : list A) : Z := Z.of_nat (length xs).

(** [for i in range(n): x = X(); x.read_csv(start + i, csv); xs.append(x)],
    with [ind] the row of the current turn. *)
Fixpoint read_rows {A : Type} (rd : nat -> CSV.t -> result (A * CSV.t))
         (n ind : nat) (csv : CSV.t) (acc : list A) : result (list A * CSV.t) :=
  match n with
  | O => Ok (acc, csv)
  | S n' => '(x, csv) ← rd ind csv; read_rows rd n' (S ind) csv (acc ++ [x])
  end.

(** [for i, x in enumerate(xs): x.apply_csv(start + i, csv)] *)
Fixpoint apply_rows {A : Type} (ap : nat -> CSV.t -> A -> CSV.t)
         (ind : nat) (xs : list A) (csv : CSV.t) : CSV.t :=
  match xs with
  | [] => csv
  | x :: xs' => apply_rows ap (S ind) xs' (ap ind csv x)
  end.

(* ===================================================================== *)
(** * Python strings and list indices                                     *)
(* ===================================================================== *)

(** The methods of [str] the records use on their file names.  A string
    is a sequence of characters; the file names of the game are ASCII. *)
Module PyStr.

(** [s.split(sep)], for a separator of one character: the pieces between
    the separators, of which there is always at least one. *)
Fixpoint split (sep : ascii) (s : string) : list string :=
  match s with
  | EmptyString => [EmptyString]
  | String c s' =>
      if Ascii.eqb c sep then EmptyString :: split sep s'
      else match split sep s' with
           | piece :: pieces => String c piece :: pieces
           | [] => [String c EmptyString]
           end
  end.

(** [sep.join(parts)] *)
Fixpoint join (sep : string) (parts : list string) : string :=
  match parts with
  | [] => EmptyString
  | [piece] => piece
  | piece :: parts' => piece +:+ sep +:+ join sep parts'
  end.

(** [s.replace(old, new)] for a non-empty [old]: the occurrences of [old]
    are replaced from left to right, without overlap.  [skip] counts the
    characters of an occurrence that are still to be passed over. *)
Fixpoint replace_from (old new : string) (skip : nat) (s : string) : string :=
  match s with
  | EmptyString => EmptyString
  | String c s' =>
      match skip with
      | S skip' => replace_from old new skip' s'
      | O =>
          if String.prefix old s
          then new +:+ replace_from old new (String.length old - 1) s'
          else String c (replace_from old new 0 s')
      end
  end.

Definition replace (old new : string) (s : string) : string :=
  replace_from old new 0 s.

(** [c in s], for a character [c] *)
Fixpoint contains (c : ascii) (s : string) : bool :=
  match s with
  | EmptyString => false
  | String c' s' => Ascii.eqb c' c || contains c s'
  end.

(** [s[start:stop]] for [0 <= start <= stop]; a slice never raises. *)
Definition slice (start stop : nat) (s : string) : string :=
  String.substring start (stop - start) s.

End PyStr.

(** A [dict[str, V]]: keys are unique and kept in insertion order;
    assigning to an existing key keeps its position. *)
Module StrDict.

Definition dict (V : Type) : Type := list (string * V).

Fixpoint get {V : Type} (d : dict V) (k : string) : option V :=
  match d with
  | [] => None
  | (k', v) :: d' => if String.eqb k' k then Some v else get d' k
  end.

(** [d[k] = v] *)
Fixpoint set {V : Type} (d : dict V) (k : string) (v : V) : dict V :=
  match d with
  | [] => [(k, v)]
  | (k', v') :: d' =>
      if String.eqb k' k then (k', v) :: d' else (k', v') :: set d' k v
  end.

End StrDict.

(** [xs[i]] for a Python list: indices from [-len(xs)] to [-1] count from
    the end, and [None] stands for [IndexError]. *)
Definition py_index {A : Type} (xs : list A) (i : Z) : option A :=
  if (0 <=? i)%Z then xs !! Z.to_nat i
  else if (- Z.of_nat (length xs) <=? i)%Z
       then xs !! Z.to_nat (Z.of_nat (length xs) + i)
       else None.

(** [xs[i] = v] for an index [xs[i]] accepts. *)
Definition py_set_index {A : Type} (xs : list A) (i : Z) (v : A) : list A :=
  if (0 <=? i)%Z then <[Z.to_nat i := v]> xs
  else <[Z.to_nat (Z.of_nat (length xs) + i) := v]> xs.

(* ===================================================================== *)
(** * Objects changed in place                                            *)
(* ===================================================================== *)

(** The methods that change the objects a list holds ([ModelPart] and
    [KeyFrame] objects) reach them by reference: the objects of a class
    live in a store, a list holds references into it, and one object can
    be listed more than once. *)
Module Store.

Definition t (A : Type) : Type := ref -> A.

(** The store after the object [r] has been changed into [a]. *)
Definition set {A : Type} (h : t A) (r : ref) (a : A) : t A :=
  fun r' => if Nat.eqb r' r then a else h r'.

(** [for x in refs: <change x by f>]: a loop that changes each object
    listed, once for every time it is listed. *)
Fixpoint for_each {A : Type} (f : A -> A) (refs : list ref) (h : t A) : t A :=
  match refs with
  | [] => h
  | r :: refs' => for_each f refs' (set h r (f (h r)))
  end.

End Store.

(* ===================================================================== *)
(** * The animation records of [anim.py]                                  *)
(* ===================================================================== *)

(** [class AnimModificationType(enum.Enum)] *)
Module AnimModificationType.

Inductive t : Type :=
| PARENT | ID | SPRITE | Z_ORDER | POS_X | POS_Y | PIVOT_X | PIVOT_Y
| SCALE_UNIT | SCALE_X | SCALE_Y | ANGLE | OPACITY | H_FLIP | V_FLIP.

Definition value (m : t) : Z :=
  match m with
  | PARENT => 0 | ID => 1 | SPRITE => 2 | Z_ORDER => 3 | POS_X => 4
  | POS_Y => 5 | PIVOT_X => 6 | PIVOT_Y => 7 | SCALE_UNIT => 8
  | SCALE_X => 9 | SCALE_Y => 10 | ANGLE => 11 | OPACITY => 12
  | H_FLIP => 13 | V_FLIP => 14
  end%Z.

End AnimModificationType.

(** [class AnimType(enum.Enum)] *)
Module AnimType.

Inductive t : Type := WALK | IDLE | ATTACK | KNOCK_BACK.

(** [AnimType.from_bcu_str]: the piece between the first and the second
    underscore, up to its first dot, names the animation.  [IndexError]
    comes from [string.split("_")[1]]. *)
Definition from_bcu_str (string : string) : result (option t) :=
  string ← or_raise IndexError (PyStr.split "_"%char string !! 1);
  string ← or_raise IndexError (PyStr.split "."%char string !! 0);
  if String.eqb string "walk" then Ok (Some WALK)
  else if String.eqb string "idle" then Ok (Some IDLE)
  else if String.eqb string "attack" then Ok (Some ATTACK)
  else if String.eqb string "kb" then Ok (Some KNOCK_BACK)
  else Ok None.

End AnimType.

Module Rect.

Record t : Type := mk {
  x : option Z;
  y : option Z;
  w : option Z;
  h : option Z;
  name : option string;
}.

(** [Rect()] *)
Definition new : t := mk None None None None None.

Definition set_x (v : option Z) (r : t) : t :=
  mk v (y r) (w r) (h r) (name r).
Definition set_y (v : option Z) (r : t) : t :=
  mk (x r) v (w r) (h r) (name r).
Definition set_w (v : option Z) (r : t) : t :=
  mk (x r) (y r) v (h r) (name r).
Definition set_h (v : option Z) (r : t) : t :=
  mk (x r) (y r) (w r) v (name r).
Definition set_name (v : option string) (r : t) : t :=
  mk (x r) (y r) (w r) (h r) v.

(** the [csv__] descriptors of [__post_init__] *)
Definition fields : list (Binding t) :=
  [
    IntCSVField (mkField 0 None 0) x set_x;
    IntCSVField (mkField 1 None 0) y set_y;
    IntCSVField (mkField 2 None 0) w set_w;
    IntCSVField (mkField 3 None 0) h set_h;
    StringCSVField (mkField 4 None 0) name set_name ]%nat.

Definition read_csv (index : nat) (csv : CSV.t) (self : t)
  : result (t * CSV.t) :=
  let csv := CSV.set_index index csv in
  self ← Modification.read_csv_fields fields self csv;
  Ok (self, csv).

Definition apply_csv (index : nat) (csv : CSV.t) (self : t) : CSV.t :=
  let csv := CSV.set_index index csv in
  Modification.apply_csv_fields fields self csv.

End Rect.

Module TextureMetadata.

Record t : Type := mk {
  head_name : option string;
  version_code : option string;
  img_name : option string;
  total_rects : option Z;
}.

(** [TextureMetadata()] *)
Definition new : t := mk None None None None.

Definition set_head_name (v : option string) (r : t) : t :=
  mk v (version_code r) (img_name r) (total_rects r).
Definition set_version_code (v : option string) (r : t) : t :=
  mk (head_name r) v (img_name r) (total_rects r).
Definition set_img_name (v : option string) (r : t) : t :=
  mk (head_name r) (version_code r) v (total_rects r).
Definition set_total_rects (v : option Z) (r : t) : t :=
  mk (head_name r) (version_code r) (img_name r) v.

(** the [csv__] descriptors of [__post_init__] *)
Definition fields : list (Binding t) :=
  [
    StringCSVField (mkField 0 (Some 0) 0) head_name set_head_name;
    StringCSVField (mkField 0 (Some 1) 0) version_code set_version_code;
    StringCSVField (mkField 0 (Some 2) 0) img_name set_img_name;
    IntCSVField (mkField 0 (Some 3) 0) total_rects set_total_rects ]%nat.

Definition read_csv (csv : CSV.t) (self : t) : result t :=
  Modification.read_csv_fields fields self csv.

Definition apply_csv (csv : CSV.t) (self : t) : CSV.t :=
  Modification.apply_csv_fields fields self csv.

(** [set_unit_form]: the image name keeps the piece before its first
    underscore and gets the new form. *)
Definition set_unit_form (form : string) (self : t) : result t :=
  match img_name self with
  | None => Err ValueError
  | Some name =>
      let parts := PyStr.split "_"%char name in
      id ← or_raise IndexError (parts !! 0);
      Ok (set_img_name (Some (id +:+ "_" +:+ form +:+ ".png")) self)
  end.

Definition set_id (id form : string) (self : t) : t :=
  set_img_name (Some (id +:+ "_" +:+ form +:+ ".png")) self.

End TextureMetadata.

Module Texture.

Record t : Type := mk {
  metadata : TextureMetadata.t;
  rects : list Rect.t;
  imgcut_name : string;
}.

(** [Texture()] *)
Definition new : t := mk TextureMetadata.new [] "".

Definition set_metadata (v : TextureMetadata.t) (r : t) : t :=
  mk v (rects r) (imgcut_name r).
Definition set_rects (v : list Rect.t) (r : t) : t :=
  mk (metadata r) v (imgcut_name r).
Definition set_imgcut_name (v : string) (r : t) : t :=
  mk (metadata r) (rects r) v.


(** [image] and the closing call [apply_img] concern the picture and the
    game packs only; they are left out. *)
Definition read_csv (csv : CSV.t) (imgcut_name' : option string) (self : t)
  : result (t * CSV.t) :=
  let self := match imgcut_name' with
              | Some n => set_imgcut_name n self
              | None => self
              end in
  let self := set_rects [] self in
  md ← TextureMetadata.read_csv csv (metadata self);
  let self := set_metadata md self in
  '(rs, csv) ← read_rows (fun index csv => Rect.read_csv index csv Rect.new)
                 (range_len (TextureMetadata.total_rects md)) 4 csv [];
  Ok (set_rects rs self, csv).

Definition apply_csv (csv : CSV.t) (self : t) : t * CSV.t :=
  let md := TextureMetadata.set_total_rects (Some (len (rects self)))
              (metadata self) in
  let self := set_metadata md self in
  let csv := TextureMetadata.apply_csv csv md in
  let csv := apply_rows Rect.apply_csv 4 (rects self) csv in
  (self, csv).

(** [Texture.set_id]; [self.metadata.img_name] is the name
    [metadata.set_id] has just set. *)
Definition set_id (id form : string) (self : t) : result t :=
  match TextureMetadata.img_name (metadata self) with
  | None => Err ValueError
  | Some _ =>
      let self := set_metadata (TextureMetadata.set_id id form (metadata self))
                    self in
      img_name ← or_raise AttributeError
                   (TextureMetadata.img_name (metadata self));
      Ok (set_imgcut_name (PyStr.replace ".png" ".imgcut" img_name) self)
  end.

(** [Texture.get_rect]: [IndexError] is caught and [None] returned. *)
Definition get_rect (id : Z) (self : t) : option Rect.t :=
  py_index (rects self) id.

Section Image.

(** [tbcml.BCImage] is not among the sources: the type of images and the
    methods of it that [set_cut] calls are parameters.  The picture of a
    texture, [self.image], is passed beside the texture. *)
Variable Image : Type.
Variable img_get_rect : Image -> Z -> Z -> Rect.t.
Variable wipe_rect : Rect.t -> Image -> Image.
Variable paste_rect : Image -> Rect.t -> Image -> Image.
Variable from_size : Z -> Z -> Image.
Variable get_subimage : Rect.t -> Image -> Image.

Definition get_cut_from_rect (rect : Rect.t) (image : option Image)
  : option Image :=
  match image with
  | None => None
  | Some im => Some (get_subimage rect im)
  end.

(** The first loop of [set_cut], which lays the rects out anew: [x] and
    [y] are the running width and height. *)
Fixpoint layout (rects : list Rect.t) (x y : Z) : list Rect.t * Z * Z :=
  match rects with
  | [] => ([], x, y)
  | rect :: rects' =>
      let new_rect := Rect.mk (Some x) (Some 0%Z) (Rect.w rect) (Rect.h rect)
                        None in
      let '(new_rects, x', y') :=
        layout rects' (x + default 0 (Rect.w new_rect))%Z
               (Z.max (default 0%Z (Rect.h new_rect)) y) in
      (new_rect :: new_rects, x', y')
  end.

(** The second loop of [set_cut], over
    [enumerate(zip(self.rects, new_rects))] from [i] on. *)
Fixpoint paste_cuts (rect_id : Z) (img : Image) (image : option Image)
         (i : Z) (pairs : list (Rect.t * Rect.t)) (new_img : Image) : Image :=
  match pairs with
  | [] => new_img
  | (old_rect, new_rect) :: pairs' =>
      let cut := if (i =? rect_id)%Z then Some img
                 else get_cut_from_rect old_rect image in
      paste_cuts rect_id img image (i + 1)%Z pairs'
        match cut with
        | Some cut => paste_rect cut new_rect new_img
        | None => new_img
        end
  end.

(** [Texture.set_cut]: the texture and its picture afterwards, and the
    value returned. *)
Definition set_cut (rect_id : Z) (img : Image) (self : t)
           (image : option Image) : t * option Image * bool :=
  match get_rect rect_id self, image with
  | Some original_rect, Some im =>
      match Rect.x original_rect, Rect.y original_rect,
            Rect.h original_rect, Rect.w original_rect with
      | Some ox, Some oy, Some oh, Some ow =>
          let new_rect_new := img_get_rect img ox oy in
          match Rect.w new_rect_new, Rect.h new_rect_new with
          | Some nw, Some nh =>
              let self :=
                set_rects (py_set_index (rects self) rect_id new_rect_new)
                          self in
              if (nw <=? ow)%Z && (nh <=? oh)%Z then
                (self,
                 Some (paste_rect img new_rect_new (wipe_rect original_rect im)),
                 true)
              else
                let '(new_rects, x, y) := layout (rects self) 0 0 in
                let new_img :=
                  paste_cuts rect_id img image 0
                    (zip (rects self) new_rects) (from_size x y) in
                (set_rects new_rects self, Some new_img, true)
          | _, _ => (self, image, false)
          end
      | _, _, _, _ => (self, image, false)
      end
  | _, _ => (self, image, false)
  end.

End Image.

End Texture.

Module MamodelMetaData.

Record t : Type := mk {
  head_name : option string;
  version_code : option string;
  total_parts : option Z;
}.

(** [MamodelMetaData()] *)
Definition new : t := mk None None None.

Definition set_head_name (v : option string) (r : t) : t :=
  mk v (version_code r) (total_parts r).
Definition set_version_code (v : option string) (r : t) : t :=
  mk (head_name r) v (total_parts r).
Definition set_total_parts (v : option Z) (r : t) : t :=
  mk (head_name r) (version_code r) v.

(** the [csv__] descriptors of [__post_init__] *)
Definition fields : list (Binding t) :=
  [
    StringCSVField (mkField 0 (Some 0) 0) head_name set_head_name;
    StringCSVField (mkField 0 (Some 1) 0) version_code set_version_code;
    IntCSVField (mkField 0 (Some 2) 0) total_parts set_total_parts ]%nat.

Definition read_csv (csv : CSV.t) (self : t) : result t :=
  Modification.read_csv_fields fields self csv.

Definition apply_csv (csv : CSV.t) (self : t) : CSV.t :=
  Modification.apply_csv_fields fields self csv.

End MamodelMetaData.

Module ModelPart.

Record t : Type := mk {
  parent_id : option Z;
  unit_id : option Z;
  cut_id : option Z;
  z_depth : option Z;
  x : option Z;
  y : option Z;
  pivot_x : option Z;
  pivot_y : option Z;
  scale_x : option Z;
  scale_y : option Z;
  rotation : option Z;
  alpha : option Z;
  glow : option Z;
  name : option string;
}.

(** [ModelPart()] *)
Definition new : t := mk None None None None None None None None None None
  None None None None.

Definition set_parent_id (v : option Z) (r : t) : t :=
  mk v (unit_id r) (cut_id r) (z_depth r) (x r) (y r) (pivot_x r) (pivot_y r)
     (scale_x r) (scale_y r) (rotation r) (alpha r) (glow r) (name r).
Definition set_unit_id (v : option Z) (r : t) : t :=
  mk (parent_id r) v (cut_id r) (z_depth r) (x r) (y r) (pivot_x r)
     (pivot_y r) (scale_x r) (scale_y r) (rotation r) (alpha r) (glow r)
     (name r).
Definition set_cut_id (v : option Z) (r : t) : t :=
  mk (parent_id r) (unit_id r) v (z_depth r) (x r) (y r) (pivot_x r)
     (pivot_y r) (scale_x r) (scale_y r) (rotation r) (alpha r) (glow r)
     (name r).
Definition set_z_depth (v : option Z) (r : t) : t :=
  mk (parent_id r) (unit_id r) (cut_id r) v (x r) (y r) (pivot_x r)
     (pivot_y r) (scale_x r) (scale_y r) (rotation r) (alpha r) (glow r)
     (name r).
Definition set_x (v : option Z) (r : t) : t :=
  mk (parent_id r) (unit_id r) (cut_id r) (z_depth r) v (y r) (pivot_x r)
     (pivot_y r) (scale_x r) (scale_y r) (rotation r) (alpha r) (glow r)
     (name r).
Definition set_y (v : option Z) (r : t) : t :=
  mk (parent_id r) (unit_id r) (cut_id r) (z_depth r) (x r) v (pivot_x r)
     (pivot_y r) (scale_x r) (scale_y r) (rotation r) (alpha r) (glow r)
     (name r).
Definition set_pivot_x (v : option Z) (r : t) : t :=
  mk (parent_id r) (unit_id r) (cut_id r) (z_depth r) (x r) (y r) v
     (pivot_y r) (scale_x r) (scale_y r) (rotation r) (alpha r) (glow r)
     (name r).
Definition set_pivot_y (v : option Z) (r : t) : t :=
  mk (parent_id r) (unit_id r) (cut_id r) (z_depth r) (x r) (y r) (pivot_x r)
     v (scale_x r) (scale_y r) (rotation r) (alpha r) (glow r) (name r).
Definition set_scale_x (v : option Z) (r : t) : t :=
  mk (parent_id r) (unit_id r) (cut_id r) (z_depth r) (x r) (y r) (pivot_x r)
     (pivot_y r) v (scale_y r) (rotation r) (alpha r) (glow r) (name r).
Definition set_scale_y (v : option Z) (r : t) : t :=
  mk (parent_id r) (unit_id r) (cut_id r) (z_depth r) (x r) (y r) (pivot_x r)
     (pivot_y r) (scale_x r) v (rotation r) (alpha r) (glow r) (name r).
Definition set_rotation (v : option Z) (r : t) : t :=
  mk (parent_id r) (unit_id r) (cut_id r) (z_depth r) (x r) (y r) (pivot_x r)
     (pivot_y r) (scale_x r) (scale_y r) v (alpha r) (glow r) (name r).
Definition set_alpha (v : option Z) (r : t) : t :=
  mk (parent_id r) (unit_id r) (cut_id r) (z_depth r) (x r) (y r) (pivot_x r)
     (pivot_y r) (scale_x r) (scale_y r) (rotation r) v (glow r) (name r).
Definition set_glow (v : option Z) (r : t) : t :=
  mk (parent_id r) (unit_id r) (cut_id r) (z_depth r) (x r) (y r) (pivot_x r)
     (pivot_y r) (scale_x r) (scale_y r) (rotation r) (alpha r) v (name r).
Definition set_name (v : option string) (r : t) : t :=
  mk (parent_id r) (unit_id r) (cut_id r) (z_depth r) (x r) (y r) (pivot_x r)
     (pivot_y r) (scale_x r) (scale_y r) (rotation r) (alpha r) (glow r) v.

(** the [csv__] descriptors of [__post_init__] *)
Definition fields : list (Binding t) :=
  [
    IntCSVField (mkField 0 None 0) parent_id set_parent_id;
    IntCSVField (mkField 1 None 0) unit_id set_unit_id;
    IntCSVField (mkField 2 None 0) cut_id set_cut_id;
    IntCSVField (mkField 3 None 0) z_depth set_z_depth;
    IntCSVField (mkField 4 None 0) x set_x;
    IntCSVField (mkField 5 None 0) y set_y;
    IntCSVField (mkField 6 None 0) pivot_x set_pivot_x;
    IntCSVField (mkField 7 None 0) pivot_y set_pivot_y;
    IntCSVField (mkField 8 None 0) scale_x set_scale_x;
    IntCSVField (mkField 9 None 0) scale_y set_scale_y;
    IntCSVField (mkField 10 None 0) rotation set_rotation;
    IntCSVField (mkField 11 None 0) alpha set_alpha;
    IntCSVField (mkField 12 None 0) glow set_glow;
    StringCSVField (mkField 13 None 0) name set_name ]%nat.

Definition read_csv (index : nat) (csv : CSV.t) (self : t)
  : result (t * CSV.t) :=
  let csv := CSV.set_index index csv in
  self ← Modification.read_csv_fields fields self csv;
  Ok (self, csv).

Definition apply_csv (index : nat) (csv : CSV.t) (self : t) : CSV.t :=
  let csv := CSV.set_index index csv in
  Modification.apply_csv_fields fields self csv.

Definition flip_rotation (self : t) : t :=
  match rotation self with
  | Some v => set_rotation (Some (v * -1)%Z) self
  | None => self
  end.

Definition flip_x (index : Z) (self : t) : t :=
  let self :=
    if (index =? 0)%Z then
      match scale_x self with
      | Some v => set_scale_x (Some (v * -1)%Z) self
      | None => self
      end
    else self in
  flip_rotation self.

Definition flip_y (index : Z) (self : t) : t :=
  let self :=
    if (index =? 0)%Z then
      match scale_y self with
      | Some v => set_scale_y (Some (v * -1)%Z) self
      | None => self
      end
    else self in
  flip_rotation self.

End ModelPart.

Module MamodelUnits.

Record t : Type := mk {
  scale_unit : option Z;
  angle_unit : option Z;
  alpha_unit : option Z;
}.

(** [MamodelUnits()] *)
Definition new : t := mk None None None.

Definition set_scale_unit (v : option Z) (r : t) : t :=
  mk v (angle_unit r) (alpha_unit r).
Definition set_angle_unit (v : option Z) (r : t) : t :=
  mk (scale_unit r) v (alpha_unit r).
Definition set_alpha_unit (v : option Z) (r : t) : t :=
  mk (scale_unit r) (angle_unit r) v.

(** the [csv__] descriptors of [__post_init__] *)
Definition fields : list (Binding t) :=
  [
    IntCSVField (mkField 0 None 0) scale_unit set_scale_unit;
    IntCSVField (mkField 1 None 0) angle_unit set_angle_unit;
    IntCSVField (mkField 2 None 0) alpha_unit set_alpha_unit ]%nat.

Definition read_csv (index : nat) (csv : CSV.t) (self : t)
  : result (t * CSV.t) :=
  let csv := CSV.set_index index csv in
  self ← Modification.read_csv_fields fields self csv;
  Ok (self, csv).

Definition apply_csv (index : nat) (csv : CSV.t) (self : t) : CSV.t :=
  let csv := CSV.set_index index csv in
  Modification.apply_csv_fields fields self csv.

End MamodelUnits.

Module MamodelInts.

Record t : Type := mk {
  int_0 : option Z;
  int_1 : option Z;
  int_2 : option Z;
  int_3 : option Z;
  int_4 : option Z;
  int_5 : option Z;
  comment : option string;
}.

(** [MamodelInts()] *)
Definition new : t := mk None None None None None None None.

Definition set_int_0 (v : option Z) (r : t) : t :=
  mk v (int_1 r) (int_2 r) (int_3 r) (int_4 r) (int_5 r) (comment r).
Definition set_int_1 (v : option Z) (r : t) : t :=
  mk (int_0 r) v (int_2 r) (int_3 r) (int_4 r) (int_5 r) (comment r).
Definition set_int_2 (v : option Z) (r : t) : t :=
  mk (int_0 r) (int_1 r) v (int_3 r) (int_4 r) (int_5 r) (comment r).
Definition set_int_3 (v : option Z) (r : t) : t :=
  mk (int_0 r) (int_1 r) (int_2 r) v (int_4 r) (int_5 r) (comment r).
Definition set_int_4 (v : option Z) (r : t) : t :=
  mk (int_0 r) (int_1 r) (int_2 r) (int_3 r) v (int_5 r) (comment r).
Definition set_int_5 (v : option Z) (r : t) : t :=
  mk (int_0 r) (int_1 r) (int_2 r) (int_3 r) (int_4 r) v (comment r).
Definition set_comment (v : option string) (r : t) : t :=
  mk (int_0 r) (int_1 r) (int_2 r) (int_3 r) (int_4 r) (int_5 r) v.

(** the [csv__] descriptors of [__post_init__] *)
Definition fields : list (Binding t) :=
  [
    IntCSVField (mkField 0 None 0) int_0 set_int_0;
    IntCSVField (mkField 1 None 0) int_1 set_int_1;
    IntCSVField (mkField 2 None 0) int_2 set_int_2;
    IntCSVField (mkField 3 None 0) int_3 set_int_3;
    IntCSVField (mkField 4 None 0) int_4 set_int_4;
    IntCSVField (mkField 5 None 0) int_5 set_int_5;
    StringCSVField (mkField 6 None 0) comment set_comment ]%nat.

Definition read_csv (index : nat) (csv : CSV.t) (self : t)
  : result (t * CSV.t) :=
  let csv := CSV.set_index index csv in
  self ← Modification.read_csv_fields fields self csv;
  Ok (self, csv).

Definition apply_csv (index : nat) (csv : CSV.t) (self : t) : CSV.t :=
  let csv := CSV.set_index index csv in
  Modification.apply_csv_fields fields self csv.

End MamodelInts.

Module MamodelIntsInts.

Record t : Type := mk {
  ints : list MamodelInts.t;
  total_ints : option Z;
}.

(** [MamodelIntsInts()] *)
Definition new : t := mk [] None.

Definition set_ints (v : list MamodelInts.t) (r : t) : t :=
  mk v (total_ints r).
Definition set_total_ints (v : option Z) (r : t) : t :=
  mk (ints r) v.

(** the [csv__] descriptors of [__post_init__] *)
Definition fields : list (Binding t) :=
  [
    IntCSVField (mkField 0 None 0) total_ints set_total_ints ]%nat.

Definition read_csv (index : nat) (csv : CSV.t) (self : t)
  : result (t * CSV.t) :=
  let csv := CSV.set_index index csv in
  let self := set_ints [] self in
  self ← Modification.read_csv_fields fields self csv;
  '(xs, csv) ← read_rows
                 (fun ind csv => MamodelInts.read_csv ind csv MamodelInts.new)
                 (range_len (total_ints self)) (index + 1) csv [];
  Ok (set_ints xs self, csv).

Definition apply_csv (index : nat) (csv : CSV.t) (self : t) : t * CSV.t :=
  let csv := CSV.set_index index csv in
  let self := set_total_ints (Some (len (ints self))) self in
  let csv := Modification.apply_csv_fields fields self csv in
  let csv := apply_rows MamodelInts.apply_csv (index + 1) (ints self) csv in
  (self, csv).

End MamodelIntsInts.

Module Mamodel.

Record t : Type := mk {
  metadata : MamodelMetaData.t;
  parts : list ModelPart.t;
  units : MamodelUnits.t;
  ints : MamodelIntsInts.t;
  mamodel_name : option string;
}.

(** [Mamodel()] *)
Definition new : t := mk MamodelMetaData.new [] MamodelUnits.new
  MamodelIntsInts.new None.

Definition set_metadata (v : MamodelMetaData.t) (r : t) : t :=
  mk v (parts r) (units r) (ints r) (mamodel_name r).
Definition set_parts (v : list ModelPart.t) (r : t) : t :=
  mk (metadata r) v (units r) (ints r) (mamodel_name r).
Definition set_units (v : MamodelUnits.t) (r : t) : t :=
  mk (metadata r) (parts r) v (ints r) (mamodel_name r).
Definition set_ints (v : MamodelIntsInts.t) (r : t) : t :=
  mk (metadata r) (parts r) (units r) v (mamodel_name r).
Definition set_mamodel_name (v : option string) (r : t) : t :=
  mk (metadata r) (parts r) (units r) (ints r) v.


Definition read_csv (csv : CSV.t) (self : t) : result (t * CSV.t) :=
  md ← MamodelMetaData.read_csv csv (metadata self);
  let self := set_metadata md self in
  let self := set_parts [] self in
  '(ps, csv) ← read_rows
                 (fun index csv => ModelPart.read_csv index csv ModelPart.new)
                 (range_len (MamodelMetaData.total_parts md)) 3 csv [];
  let self := set_parts ps self in
  '(u, csv) ← MamodelUnits.read_csv (length (parts self) + 3) csv (units self);
  let self := set_units u self in
  '(i, csv) ← MamodelIntsInts.read_csv (length (parts self) + 4) csv (ints self);
  Ok (set_ints i self, csv).

Definition apply_csv (csv : CSV.t) (self : t) : t * CSV.t :=
  let md := MamodelMetaData.set_total_parts (Some (len (parts self)))
              (metadata self) in
  let self := set_metadata md self in
  let csv := MamodelMetaData.apply_csv csv md in
  let csv := apply_rows ModelPart.apply_csv 3 (parts self) csv in
  let csv := MamodelUnits.apply_csv (length (parts self) + 3) csv (units self) in
  let '(i, csv) := MamodelIntsInts.apply_csv (length (parts self) + 4) csv
                     (ints self) in
  (set_ints i self, csv).

Definition set_unit_form (form : string) (self : t) : result t :=
  match mamodel_name self with
  | None => Err ValueError
  | Some name =>
      let parts := PyStr.split "_"%char name in
      id ← or_raise IndexError (parts !! 0);
      Ok (set_mamodel_name (Some (id +:+ "_" +:+ form +:+ ".mamodel")) self)
  end.

(** The loop [for part in self.parts[1:]: part.unit_id = int(id)] over
    the part objects it is given, which it changes in place.  [int] is
    Python's [int] on strings ([None] for [ValueError]); it is called anew
    at every turn. *)
Fixpoint set_unit_ids (int : string -> option Z) (id : string)
         (parts : list ref) (h : Store.t ModelPart.t)
  : Store.t ModelPart.t * outcome :=
  match parts with
  | [] => (h, Returned)
  | part :: parts' =>
      match int id with
      | None => (h, Raised ValueError)
      | Some v =>
          set_unit_ids int id parts'
            (Store.set h part (ModelPart.set_unit_id (Some v) (h part)))
      end
  end.

(** [Mamodel.set_id], on the attributes of [self] it uses:
    [mamodel_name], which it assigns, and [parts], the list of the
    references to the part objects, which live in the store [h].  The
    name is assigned before the loop over [self.parts[1:]] runs, so name
    and store are returned as the exception finds them. *)
Definition set_id (int : string -> option Z) (id : string)
           (mamodel_name : option string) (parts : list ref)
           (h : Store.t ModelPart.t)
  : option string * Store.t ModelPart.t * outcome :=
  match mamodel_name with
  | None => (mamodel_name, h, Raised ValueError)
  | Some name =>
      let pieces := PyStr.split "_"%char name in
      match pieces !! 1 with
      | None => (mamodel_name, h, Raised IndexError)
      | Some form =>
          let mamodel_name := Some (id +:+ "_" +:+ form) in
          let '(h, o) := set_unit_ids int id (drop 1 parts) h in
          (mamodel_name, h, o)
      end
  end.

(** [Mamodel.dup_ints].  The entry appended is the first entry itself. *)
Definition dup_ints (self : t) : t :=
  let i := ints self in
  if length (MamodelIntsInts.ints i) =? 1 then
    match MamodelIntsInts.ints i !! 0 with
    | Some x =>
        set_ints (MamodelIntsInts.set_total_ints (Some 2%Z)
                    (MamodelIntsInts.set_ints (MamodelIntsInts.ints i ++ [x]) i))
                 self
    | None => self
    end
  else self.

End Mamodel.

Module KeyFrame.

Record t : Type := mk {
  frame : option Z;
  change_in_value : option Z;
  ease_mode : option Z;
  ease_power : option Z;
}.

(** [KeyFrame()] *)
Definition new : t := mk None None None None.

Definition set_frame (v : option Z) (r : t) : t :=
  mk v (change_in_value r) (ease_mode r) (ease_power r).
Definition set_change_in_value (v : option Z) (r : t) : t :=
  mk (frame r) v (ease_mode r) (ease_power r).
Definition set_ease_mode (v : option Z) (r : t) : t :=
  mk (frame r) (change_in_value r) v (ease_power r).
Definition set_ease_power (v : option Z) (r : t) : t :=
  mk (frame r) (change_in_value r) (ease_mode r) v.

(** the [csv__] descriptors of [__post_init__] *)
Definition fields : list (Binding t) :=
  [
    IntCSVField (mkField 0 None 0) frame set_frame;
    IntCSVField (mkField 1 None 0) change_in_value set_change_in_value;
    IntCSVField (mkField 2 None 0) ease_mode set_ease_mode;
    IntCSVField (mkField 3 None 0) ease_power set_ease_power ]%nat.

Definition read_csv (index : nat) (csv : CSV.t) (self : t)
  : result (t * CSV.t) :=
  let csv := CSV.set_index index csv in
  self ← Modification.read_csv_fields fields self csv;
  Ok (self, csv).

Definition apply_csv (index : nat) (csv : CSV.t) (self : t) : CSV.t :=
  let csv := CSV.set_index index csv in
  Modification.apply_csv_fields fields self csv.

End KeyFrame.

Module MaanimMetadata.

Record t : Type := mk {
  head_name : option string;
  version_code : option string;
  total_parts : option Z;
}.

(** [MaanimMetadata()] *)
Definition new : t := mk None None None.

Definition set_head_name (v : option string) (r : t) : t :=
  mk v (version_code r) (total_parts r).
Definition set_version_code (v : option string) (r : t) : t :=
  mk (head_name r) v (total_parts r).
Definition set_total_parts (v : option Z) (r : t) : t :=
  mk (head_name r) (version_code r) v.

(** the [csv__] descriptors of [__post_init__] *)
Definition fields : list (Binding t) :=
  [
    StringCSVField (mkField 0 (Some 0) 0) head_name set_head_name;
    StringCSVField (mkField 0 (Some 1) 0) version_code set_version_code;
    IntCSVField (mkField 0 (Some 2) 0) total_parts set_total_parts ]%nat.

Definition read_csv (csv : CSV.t) (self : t) : result t :=
  Modification.read_csv_fields fields self csv.

Definition apply_csv (csv : CSV.t) (self : t) : CSV.t :=
  Modification.apply_csv_fields fields self csv.

End MaanimMetadata.

Module KeyFrames.

Record t : Type := mk {
  keyframes : list KeyFrame.t;
  model_id : option Z;
  modification_type : option Z;
  loop : option Z;
  min_value : option Z;
  max_value : option Z;
  name : option string;
  total_keyframes : option Z;
}.

(** [KeyFrames()] *)
Definition new : t := mk [] None None None None None None None.

Definition set_keyframes (v : list KeyFrame.t) (r : t) : t :=
  mk v (model_id r) (modification_type r) (loop r) (min_value r) (max_value r)
     (name r) (total_keyframes r).
Definition set_model_id (v : option Z) (r : t) : t :=
  mk (keyframes r) v (modification_type r) (loop r) (min_value r)
     (max_value r) (name r) (total_keyframes r).
Definition set_modification_type (v : option Z) (r : t) : t :=
  mk (keyframes r) (model_id r) v (loop r) (min_value r) (max_value r)
     (name r) (total_keyframes r).
Definition set_loop (v : option Z) (r : t) : t :=
  mk (keyframes r) (model_id r) (modification_type r) v (min_value r)
     (max_value r) (name r) (total_keyframes r).
Definition set_min_value (v : option Z) (r : t) : t :=
  mk (keyframes r) (model_id r) (modification_type r) (loop r) v (max_value r)
     (name r) (total_keyframes r).
Definition set_max_value (v : option Z) (r : t) : t :=
  mk (keyframes r) (model_id r) (modification_type r) (loop r) (min_value r) v
     (name r) (total_keyframes r).
Definition set_name (v : option string) (r : t) : t :=
  mk (keyframes r) (model_id r) (modification_type r) (loop r) (min_value r)
     (max_value r) v (total_keyframes r).
Definition set_total_keyframes (v : option Z) (r : t) : t :=
  mk (keyframes r) (model_id r) (modification_type r) (loop r) (min_value r)
     (max_value r) (name r) v.

(** the [csv__] descriptors of [__post_init__] *)
Definition fields : list (Binding t) :=
  [
    IntCSVField (mkField 0 None 0) model_id set_model_id;
    IntCSVField (mkField 1 None 0) modification_type set_modification_type;
    IntCSVField (mkField 2 None 0) loop set_loop;
    IntCSVField (mkField 3 None 0) min_value set_min_value;
    IntCSVField (mkField 4 None 0) max_value set_max_value;
    StringCSVField (mkField 5 None 0) name set_name;
    IntCSVField (mkField 0 None 1) total_keyframes set_total_keyframes ]%nat.

(** Both methods return the row after the block,
    [index + 2 + len(self.keyframes)]. *)
Definition read_csv (index : nat) (csv : CSV.t) (self : t)
  : result (t * CSV.t * nat) :=
  let csv := CSV.set_index index csv in
  self ← Modification.read_csv_fields fields self csv;
  let self := set_keyframes [] self in
  '(kfs, csv) ← read_rows
                  (fun ind csv => KeyFrame.read_csv ind csv KeyFrame.new)
                  (range_len (total_keyframes self)) (index + 2) csv [];
  let self := set_keyframes kfs self in
  Ok (self, csv, index + 2 + length (keyframes self)).

Definition apply_csv (index : nat) (csv : CSV.t) (self : t)
  : t * CSV.t * nat :=
  let csv := CSV.set_index index csv in
  let self := set_total_keyframes (Some (len (keyframes self))) self in
  let csv := Modification.apply_csv_fields fields self csv in
  let csv := apply_rows KeyFrame.apply_csv (index + 2) (keyframes self) csv in
  (self, csv, index + 2 + length (keyframes self)).

(** A [KeyFrames] object as [flip] reads it: its [modification_type] and
    its [keyframes], the list of the references to its [KeyFrame]
    objects. *)
Record refs : Type := mk_refs {
  refs_modification_type : option Z;
  refs_keyframes : list ref;
}.

(** The body of the loop of [flip], on one keyframe. *)
Definition flip_keyframe (keyframe : KeyFrame.t) : KeyFrame.t :=
  match KeyFrame.change_in_value keyframe with
  | Some v => KeyFrame.set_change_in_value (Some (- v)%Z) keyframe
  | None => keyframe
  end.

(** [KeyFrames.flip]: only a block that modifies the angle is touched,
    and of it the keyframe objects, which are changed in place in the
    store [h]. *)
Definition flip (self : refs) (h : Store.t KeyFrame.t) : Store.t KeyFrame.t :=
  if bool_decide (refs_modification_type self
                  <> Some (AnimModificationType.value AnimModificationType.ANGLE))
  then h
  else Store.for_each flip_keyframe (refs_keyframes self) h.

End KeyFrames.

Module UnitAnim.

Record t : Type := mk {
  metadata : MaanimMetadata.t;
  parts : list KeyFrames.t;
  name : option string;
}.

(** [UnitAnim()] *)
Definition new : t := mk MaanimMetadata.new [] None.

Definition set_metadata (v : MaanimMetadata.t) (r : t) : t :=
  mk v (parts r) (name r).
Definition set_parts (v : list KeyFrames.t) (r : t) : t :=
  mk (metadata r) v (name r).
Definition set_name (v : option string) (r : t) : t :=
  mk (metadata r) (parts r) v.


(** The loop of [read_csv]: [n] turns left, [index] the running cursor,
    [acc] the parts read so far.  The cursor is returned with the rest. *)
Fixpoint read_parts (n index : nat) (csv : CSV.t) (acc : list KeyFrames.t)
  : result (list KeyFrames.t * CSV.t * nat) :=
  match n with
  | O => Ok (acc, csv, index)
  | S n' =>
      '(part, csv, index) ← KeyFrames.read_csv index csv KeyFrames.new;
      read_parts n' index csv (acc ++ [part])
  end.

Definition read_csv (csv : CSV.t) (self : t) : result (t * CSV.t) :=
  md ← MaanimMetadata.read_csv csv (metadata self);
  let self := set_metadata md self in
  let self := set_parts [] self in
  '(ps, csv, _) ← read_parts (range_len (MaanimMetadata.total_parts md))
                    3 csv [];
  Ok (set_parts ps self, csv).

(** The loop of [apply_csv]; each part comes back with its count
    refreshed, and the cursor is returned with the rest. *)
Fixpoint apply_parts (index : nat) (ps : list KeyFrames.t) (csv : CSV.t)
  : list KeyFrames.t * CSV.t * nat :=
  match ps with
  | [] => ([], csv, index)
  | part :: ps' =>
      let '(part, csv, index) := KeyFrames.apply_csv index csv part in
      let '(ps', csv, index) := apply_parts index ps' csv in
      (part :: ps', csv, index)
  end.

Definition apply_csv (csv : CSV.t) (self : t) : t * CSV.t :=
  let md := MaanimMetadata.set_total_parts (Some (len (parts self)))
              (metadata self) in
  let self := set_metadata md self in
  let csv := MaanimMetadata.apply_csv csv md in
  let '(ps, csv, _) := apply_parts 3 (parts self) csv in
  (set_parts ps self, csv).

(** [UnitAnim.flip], on [self.parts]: [for part in parts: part.flip()].
    The [KeyFrames] objects are only read, so they are given as they
    are, an object listed twice being there twice. *)
Fixpoint flip (parts : list KeyFrames.refs) (h : Store.t KeyFrame.t)
  : Store.t KeyFrame.t :=
  match parts with
  | [] => h
  | part :: parts' => flip parts' (KeyFrames.flip part h)
  end.

(** [UnitAnim.set_unit_form]: [anim_id] is [parts[1][1:3]]. *)
Definition set_unit_form (form : string) (self : t) : result t :=
  match name self with
  | None => Err ValueError
  | Some name =>
      let parts := PyStr.split "_"%char name in
      id ← or_raise IndexError (parts !! 0);
      part ← or_raise IndexError (parts !! 1);
      let anim_id := PyStr.slice 1 3 part in
      Ok (set_name (Some (id +:+ "_" +:+ form +:+ anim_id +:+ ".maanim")) self)
  end.

(** [UnitAnim.set_id]: [parts[0] = id], then the pieces are joined
    again. *)
Definition set_id (id : string) (self : t) : result t :=
  match name self with
  | None => Err ValueError
  | Some name =>
      let parts := PyStr.split "_"%char name in
      _ ← or_raise IndexError (parts !! 0);
      let parts := <[0 := id]> parts in
      Ok (set_name (Some (PyStr.join "_" parts)) self)
  end.

End UnitAnim.

Module Model.

(** [class Model]; the fields [tbcml.Modification] adds are not used by
    the methods below. *)
Record t : Type := mk {
  texture : Texture.t;
  anims : list UnitAnim.t;
  mamodel : Mamodel.t;
}.

Definition set_anims (v : list UnitAnim.t) (r : t) : t :=
  mk (texture r) v (mamodel r).
Definition set_mamodel (v : Mamodel.t) (r : t) : t :=
  mk (texture r) (anims r) v.

Definition set_texture (v : Texture.t) (r : t) : t :=
  mk v (anims r) (mamodel r).

(** The loop [for name, maanim_csv in maanim_csvs.items()] of
    [Model.read_csv]; [UnitAnim(name=name)] is a new animation with that
    name.  The tables come back as the reads leave them. *)
Fixpoint read_anims (items : list (string * CSV.t)) (acc : list UnitAnim.t)
  : result (list UnitAnim.t * list (string * CSV.t)) :=
  match items with
  | [] => Ok (acc, [])
  | (name, maanim_csv) :: items' =>
      let anim := UnitAnim.mk MaanimMetadata.new [] (Some name) in
      '(anim, maanim_csv) ← UnitAnim.read_csv maanim_csv anim;
      '(anims, items') ← read_anims items' (acc ++ [anim]);
      Ok (anims, (name, maanim_csv) :: items')
  end.

(** [Model.read_csv]; [img], the picture, is left out with
    [self.texture.image]. *)
Definition read_csv (imgcut_csv : option CSV.t)
           (maanim_csvs : StrDict.dict CSV.t) (mamodel_csv : option CSV.t)
           (self : t)
  : result (t * option CSV.t * StrDict.dict CSV.t * option CSV.t) :=
  '(texture, imgcut_csv) ←
    match imgcut_csv with
    | Some csv =>
        '(texture, csv) ← Texture.read_csv csv None (texture self);
        Ok (texture, Some csv)
    | None => Ok (texture self, None)
    end;
  let self := set_texture texture self in
  let self := set_anims [] self in
  '(anims, maanim_csvs) ← read_anims maanim_csvs [];
  let self := set_anims anims self in
  match mamodel_csv with
  | Some csv =>
      '(mamodel, csv) ← Mamodel.read_csv csv (mamodel self);
      Ok (set_mamodel mamodel self, imgcut_csv, maanim_csvs, Some csv)
  | None => Ok (self, imgcut_csv, maanim_csvs, None)
  end.

(** The loop [for anim in self.anims] of [Model.apply_csv].  The table
    found under the name of an animation is the object written to: the
    dictionary holds the written table afterwards. *)
Fixpoint apply_anims (anims : list UnitAnim.t)
         (maanim_csvs : StrDict.dict CSV.t)
  : list UnitAnim.t * StrDict.dict CSV.t :=
  match anims with
  | [] => ([], maanim_csvs)
  | anim :: anims' =>
      let '(anim, maanim_csvs) :=
        match UnitAnim.name anim with
        | None => (anim, maanim_csvs)
        | Some name =>
            match StrDict.get maanim_csvs name with
            | Some maanim_csv =>
                let '(anim, maanim_csv) := UnitAnim.apply_csv maanim_csv anim in
                (anim, StrDict.set maanim_csvs name maanim_csv)
            | None => (anim, maanim_csvs)
            end
        end in
      let '(anims', maanim_csvs) := apply_anims anims' maanim_csvs in
      (anim :: anims', maanim_csvs)
  end.

(** [Model.apply_csv]; the tables are different objects. *)
Definition apply_csv (imgcut_csv : CSV.t) (maanim_csvs : StrDict.dict CSV.t)
           (mamodel_csv : CSV.t) (self : t)
  : t * CSV.t * StrDict.dict CSV.t * CSV.t :=
  let '(texture, imgcut_csv) := Texture.apply_csv imgcut_csv (texture self) in
  let '(anims, maanim_csvs) := apply_anims (anims self) maanim_csvs in
  let '(mamodel, mamodel_csv) := Mamodel.apply_csv mamodel_csv (mamodel self) in
  (mk texture anims mamodel, imgcut_csv, maanim_csvs, mamodel_csv).

(** [Model.flip_anims], on [self.anims], each animation given by its
    parts: [for anim in self.anims: anim.flip()]. *)
Fixpoint flip_anims (anims : list (list KeyFrames.refs))
         (h : Store.t KeyFrame.t) : Store.t KeyFrame.t :=
  match anims with
  | [] => h
  | anim :: anims' => flip_anims anims' (UnitAnim.flip anim h)
  end.

(** [for i, part in enumerate(parts): part.flip(i)], counting from [i];
    [flip] is [ModelPart.flip_x] or [ModelPart.flip_y], and the part
    objects are changed in place. *)
Fixpoint flip_parts (flip : Z -> ModelPart.t -> ModelPart.t) (i : Z)
         (parts : list ref) (h : Store.t ModelPart.t) : Store.t ModelPart.t :=
  match parts with
  | [] => h
  | part :: parts' =>
      flip_parts flip (i + 1)%Z parts' (Store.set h part (flip i (h part)))
  end.

(** [Model.flip_x], on [self.mamodel.parts], the list of the references
    to the part objects, and [self.anims]; the state is the store of the
    part objects and the store of the keyframe objects. *)
Definition flip_x (parts : list ref) (anims : list (list KeyFrames.refs))
           (st : Store.t ModelPart.t * Store.t KeyFrame.t)
  : Store.t ModelPart.t * Store.t KeyFrame.t :=
  (flip_parts ModelPart.flip_x 0%Z parts (fst st), flip_anims anims (snd st)).

(** [Model.flip_y] *)
Definition flip_y (parts : list ref) (anims : list (list KeyFrames.refs))
           (st : Store.t ModelPart.t * Store.t KeyFrame.t)
  : Store.t ModelPart.t * Store.t KeyFrame.t :=
  (flip_parts ModelPart.flip_y 0%Z parts (fst st), flip_anims anims (snd st)).

End Model.

(** ** What the bindings of a record say about a table *)

Definition binding_field {R : Type} (b : Binding R) : CSVField :=
  match b with
  | IntCSVField f _ _ => f
  | StringCSVField f _ _ => f
  end.

(** The text [apply_csv_fields] writes for a binding, when the attribute
    is set. *)
Definition binding_text {R : Type} (b : Binding R) (obj : R) : option string :=
  match b with
  | IntCSVField _ get _ => Cell.of_int <$> get obj
  | StringCSVField _ get _ => get obj
  end.

(** The attribute of a binding copied from [src] into [dst]. *)
Definition binding_copy {R : Type} (b : Binding R) (src dst : R) : R :=
  match b with
  | IntCSVField _ get put => put (get src) dst
  | StringCSVField _ get put => put (get src) dst
  end.

Definition copy_fields {R : Type} (bs : list (Binding R)) (src dst : R) : R :=
  fold_left (fun acc b => binding_copy b src acc) bs dst.

(** Every bound attribute of [obj] is set. *)
Definition all_set {R : Type} (bs : list (Binding R)) (obj : R) : bool :=
  forallb (fun b => bool_decide (is_Some (binding_text b obj))) bs.

(** The row of a field when the cursor is at [i]. *)
Definition field_row_at (f : CSVField) (i : nat) : nat :=
  default i (row_index f) + row_offset f.

(** The table holds, at cursor [i], the text of every bound attribute of
    [obj]. *)
Definition holds {R : Type} (L : list (list string)) (i : nat)
           (bs : list (Binding R)) (obj : R) : Prop :=
  Forall (fun b => exists t,
            binding_text b obj = Some t /\
            CSV.get_cell L (field_row_at (binding_field b) i)
                         (col_index (binding_field b)) = Ok t) bs.

(** [L'] has every cell that [L] has in the rows before [n]. *)
Definition keeps (n : nat) (L L' : list (list string)) : Prop :=
  forall r c t, r < n -> CSV.get_cell L r c = Ok t -> CSV.get_cell L' r c = Ok t.

(** Two fields never name the same cell, wherever the cursor is. *)
Definition cells_differ (f g : CSVField) : bool :=
  negb (col_index f =? col_index g) ||
  match row_index f, row_index g with
  | None, None => negb (row_offset f =? row_offset g)
  | Some a, Some b => negb (a + row_offset f =? b + row_offset g)
  | _, _ => false
  end.

Fixpoint distinct_cells (fs : list CSVField) : bool :=
  match fs with
  | [] => true
  | f :: fs' => forallb (cells_differ f) fs' && distinct_cells fs'
  end.

(** Every field lies in one of the [span] rows that start at the cursor. *)
Definition relative_within (span : nat) (fs : list CSVField) : bool :=
  forallb (fun f => match row_index f with
                    | None => row_offset f <? span
                    | Some _ => false
                    end) fs.

(** Every field lies in one of the first [span] rows of the table. *)
Definition absolute_within (span : nat) (fs : list CSVField) : bool :=
  forallb (fun f => match row_index f with
                    | Some r => r + row_offset f <? span
                    | None => false
                    end) fs.

(** The body shared by the [apply_csv] and [read_csv] methods of the
    records that take one row ([Rect], [ModelPart], [MamodelUnits],
    [MamodelInts], [KeyFrame]). *)
Definition row_apply_csv {R : Type} (bs : list (Binding R))
           (index : nat) (csv : CSV.t) (self : R) : CSV.t :=
  Modification.apply_csv_fields bs self (CSV.set_index index csv).

Definition row_read_csv {R : Type} (bs : list (Binding R)) (new : R)
           (index : nat) (csv : CSV.t) : result (R * CSV.t) :=
  self ← Modification.read_csv_fields bs new (CSV.set_index index csv);
  Ok (self, CSV.set_index index csv).

(** ** Records whose bound attributes are all set *)

(** A [KeyFrames] block with every attribute of the block and of each of
    its keyframes set; the count is looked at as [apply_csv] refreshes
    it. *)
Definition keyframes_complete (p : KeyFrames.t) : bool :=
  all_set KeyFrames.fields
    (KeyFrames.set_total_keyframes (Some (len (KeyFrames.keyframes p))) p)
  && forallb (all_set KeyFrame.fields) (KeyFrames.keyframes p).

Definition unit_anim_complete (u : UnitAnim.t) : bool :=
  all_set MaanimMetadata.fields
    (MaanimMetadata.set_total_parts (Some (len (UnitAnim.parts u)))
       (UnitAnim.metadata u))
  && forallb keyframes_complete (UnitAnim.parts u).

Definition mamodel_complete (m : Mamodel.t) : bool :=
  all_set MamodelMetaData.fields
    (MamodelMetaData.set_total_parts (Some (len (Mamodel.parts m)))
       (Mamodel.metadata m))
  && forallb (all_set ModelPart.fields) (Mamodel.parts m)
  && all_set MamodelUnits.fields (Mamodel.units m)
  && forallb (all_set MamodelInts.fields)
       (MamodelIntsInts.ints (Mamodel.ints m)).

(** The table holds the block [p] from row [index] on: its attributes in
    the rows [index] and [index + 1], its keyframes in the rows after. *)
Definition keyframes_stored (index : nat) (p : KeyFrames.t)
           (L : list (list string)) : Prop :=
  holds L index KeyFrames.fields p /\
  KeyFrames.total_keyframes p = Some (len (KeyFrames.keyframes p)) /\
  forall j kf, KeyFrames.keyframes p !! j = Some kf ->
               holds L (index + 2 + j) KeyFrame.fields kf.

(** The rows a block takes: [base_row] 2 and one row per keyframe. *)
Definition block_rows (p : KeyFrames.t) : nat :=
  2 + length (KeyFrames.keyframes p).

(** The table holds the blocks [ps] one after the other from [index] on. *)
Fixpoint parts_stored (index : nat) (ps : list KeyFrames.t)
         (L : list (list string)) : Prop :=
  match ps with
  | [] => True
  | p :: ps' =>
      keyframes_stored index p L /\ parts_stored (index + block_rows p) ps' L
  end.

(** The rows the blocks [ps] take together. *)
Definition parts_rows (ps : list KeyFrames.t) : nat :=
  list_sum (map block_rows ps).

(** A block as [KeyFrames.apply_csv] leaves it: the count refreshed. *)
Definition keyframes_refreshed (p : KeyFrames.t) : KeyFrames.t :=
  KeyFrames.set_total_keyframes (Some (len (KeyFrames.keyframes p))) p.

(** ** Sample records *)

Definition sample_keyframe (frame change : Z) : KeyFrame.t :=
  KeyFrame.mk (Some frame) (Some change) (Some 0%Z) (Some 0%Z).

(** A block of three keyframes whose stored count (7) is stale. *)
Definition sample_block : KeyFrames.t :=
  KeyFrames.mk
    [sample_keyframe 0 10; sample_keyframe 5 (-20); sample_keyframe 9 0]
    (Some 1%Z) (Some 11%Z) (Some 1%Z) (Some 0%Z) (Some 0%Z)
    (Some "arm"%string) (Some 7%Z).

Definition sample_anim : UnitAnim.t :=
  UnitAnim.mk
    (MaanimMetadata.mk (Some "[modelanim:animation]"%string)
       (Some "1"%string) None)
    [sample_block;
     KeyFrames.mk [] (Some 2%Z) (Some 4%Z) (Some (-1)%Z) (Some 0%Z)
       (Some 0%Z) (Some ""%string) None;
     sample_block]
    (Some "000_f02.maanim"%string).

(** The table holds the block of "ints" [i] from row [index] on: the
    count in the row [index], the entries in the rows after. *)
Definition ints_stored (index : nat) (i : MamodelIntsInts.t)
           (L : list (list string)) : Prop :=
  holds L index MamodelIntsInts.fields i /\
  MamodelIntsInts.total_ints i = Some (len (MamodelIntsInts.ints i)) /\
  forall j x, MamodelIntsInts.ints i !! j = Some x ->
              holds L (index + 1 + j) MamodelInts.fields x.

Definition sample_part (parent : Z) (name : string) : ModelPart.t :=
  ModelPart.mk (Some parent) (Some 0%Z) (Some 3%Z) (Some 1%Z) (Some (-12)%Z)
    (Some 40%Z) (Some 0%Z) (Some 0%Z) (Some 1000%Z) (Some 1000%Z) (Some 0%Z)
    (Some 1000%Z) (Some 0%Z) (Some name).

(** A model of two parts whose stored counts are not set. *)
Definition sample_mamodel : Mamodel.t :=
  Mamodel.mk
    (MamodelMetaData.mk (Some "[modelanim:model]"%string) (Some "3"%string)
       None)
    [sample_part (-1) "body"; sample_part 0 "head"]
    (MamodelUnits.mk (Some 1000%Z) (Some 3600%Z) (Some 1000%Z))
    (MamodelIntsInts.mk
       [MamodelInts.mk (Some 0%Z) (Some 0%Z) (Some 0%Z) (Some 0%Z)
          (Some 0%Z) (Some 0%Z) (Some "default"%string)]
       None)
    (Some "000_f.mamodel"%string).

(** ** Counts that agree with the lists they count *)

Definition unit_anim_counts (u : UnitAnim.t) : Prop :=
  MaanimMetadata.total_parts (UnitAnim.metadata u)
  = Some (len (UnitAnim.parts u)) /\
  Forall (fun p => KeyFrames.total_keyframes p
                   = Some (len (KeyFrames.keyframes p)))
         (UnitAnim.parts u).

Definition mamodel_counts (m : Mamodel.t) : Prop :=
  MamodelMetaData.total_parts (Mamodel.metadata m)
  = Some (len (Mamodel.parts m)) /\
  MamodelIntsInts.total_ints (Mamodel.ints m)
  = Some (len (MamodelIntsInts.ints (Mamodel.ints m))).

(** ** Names *)

(** What may follow the first piece of a name: nothing, or a separator
    and the rest. *)
Definition rest_ok (sep : ascii) (r : string) : Prop :=
  r = EmptyString \/ exists r', r = String sep r'.

(** ** Textures *)

(** A [Texture] with every table-bound attribute of its metadata and of
    each of its rects set; the count is looked at as [apply_csv]
    refreshes it. *)
Definition texture_complete (t : Texture.t) : bool :=
  all_set TextureMetadata.fields
    (TextureMetadata.set_total_rects (Some (len (Texture.rects t)))
       (Texture.metadata t))
  && forallb (all_set Rect.fields) (Texture.rects t).

(** A texture of two rects whose stored count is not set. *)
Definition sample_texture : Texture.t :=
  Texture.mk
    (TextureMetadata.mk (Some "[imgcut]"%string) (Some "0"%string)
       (Some "000_f.png"%string) None)
    [Rect.mk (Some 0%Z) (Some 0%Z) (Some 64%Z) (Some 48%Z)
       (Some "body"%string);
     Rect.mk (Some 64%Z) (Some 0%Z) (Some 32%Z) (Some 32%Z)
       (Some "head"%string)]
    "000_f.imgcut".

(** The widths of the rects before the [k]-th, added up; a width that is
    not set counts for 0. *)
Definition widths_before (rs : list Rect.t) (k : nat) : Z :=
  foldr Z.add 0%Z (map (fun r => default 0%Z (Rect.w r)) (take k rs)).

(** ** Models *)




(* ===================================================================== *)
(** * Serialization of items                                              *)
(* ===================================================================== *)

(** [str(k)] for an [int]: its decimal numeral, with a minus sign when it
    is negative. *)
Definition py_str_of_int (k : Z) : string :=
  NilZero.string_of_int (Z.to_int k).

(** [Item.serialize]: the dictionary display, in the order written. *)
Definition Item_serialize (it : Item) : StrDict.dict Value :=
  [("shop_id", VInt (shop_id it));
   ("gatya_item_id", VInt (gatya_item_id it));
   ("count", VInt (count it));
   ("price", VInt (price it));
   ("draw_item_value", VBool (draw_item_value it));
   ("category_name", VStr (category_name it));
   ("rect_id", VInt (rect_id it))].

(** The seven attributes of an [Item] that holds any values:
    [Item.deserialize] passes what it finds in the dictionary on to
    [Item(...)], which checks no type. *)
Record ItemAttrs (V : Type) : Type := mkAttrs {
  attr_shop_id : V;
  attr_gatya_item_id : V;
  attr_count : V;
  attr_price : V;
  attr_draw_item_value : V;
  attr_category_name : V;
  attr_rect_id : V;
}.
Arguments mkAttrs {V}.
Arguments attr_shop_id {V}.
Arguments attr_gatya_item_id {V}.
Arguments attr_count {V}.
Arguments attr_price {V}.
Arguments attr_draw_item_value {V}.
Arguments attr_category_name {V}.
Arguments attr_rect_id {V}.

(** The attributes of an [Item] of the annotated types, as values. *)
Definition Item_attrs (it : Item) : ItemAttrs Value :=
  mkAttrs (VInt (shop_id it)) (VInt (gatya_item_id it)) (VInt (count it))
          (VInt (price it)) (VBool (draw_item_value it))
          (VStr (category_name it)) (VInt (rect_id it)).

(** [data[k]]: [KeyError] for a missing key. *)
Definition subscript {V : Type} (data : StrDict.dict V) (k : string)
  : result V :=
  or_raise KeyError (StrDict.get data k).

(** [Item.deserialize]: the arguments are evaluated from left to
    right. *)
Definition Item_deserialize {V : Type} (data : StrDict.dict V)
  : result (ItemAttrs V) :=
  v0 ← subscript data "shop_id";
  v1 ← subscript data "gatya_item_id";
  v2 ← subscript data "count";
  v3 ← subscript data "price";
  v4 ← subscript data "draw_item_value";
  v5 ← subscript data "category_name";
  v6 ← subscript data "rect_id";
  Ok (mkAttrs v0 v1 v2 v3 v4 v5 v6).

(** The keys [Item.deserialize] reads. *)
Definition item_keys : list string :=
  ["shop_id"; "gatya_item_id"; "count"; "price"; "draw_item_value";
   "category_name"; "rect_id"].

(** The comprehension [{str(k): v.serialize() for k, v in
    self.items.items()}] of [ItemShop.serialize]: the entry of the result
    under ["items"]. *)
Fixpoint serialize_items (h : Heap) (items : dict ref)
         (acc : StrDict.dict (StrDict.dict Value))
  : StrDict.dict (StrDict.dict Value) :=
  match items with
  | [] => acc
  | (k, v) :: items' =>
      serialize_items h items'
        (StrDict.set acc (py_str_of_int k) (Item_serialize (h v)))
  end.

(** The comprehension [{int(k): Item.deserialize(v) for k, v in
    data["items"].items()}] of [ItemShop.deserialize], over the
    dictionary found under ["items"]; the key is evaluated before the
    value.  [int] is Python's conversion of a string, [None] where it
    raises [ValueError]. *)
Fixpoint deserialize_items {V : Type} (int : string -> option Z)
         (entries : StrDict.dict (StrDict.dict V))
         (acc : dict (ItemAttrs V))
  : result (dict (ItemAttrs V)) :=
  match entries with
  | [] => Ok acc
  | (k, v) :: entries' =>
      key ← or_raise ValueError (int k);
      item ← Item_deserialize v;
      deserialize_items int entries' (set acc key item)
  end.

(* ===================================================================== *)
(** * Facts about dictionaries                                            *)
(* ===================================================================== *)

Local Open Scope Z_scope.

Section DictFacts.
Context {V : Type}.
Implicit Types (d : dict V) (k : Z) (v : V).

Lemma get_set_eq d k v : get (set d k v) k = Some v.
Proof.
  induction d as [|[k' v'] d IH]; simpl.
  - by rewrite Z.eqb_refl.
  - destruct (Z.eqb_spec k' k) as [->|Hne]; simpl.
    + by rewrite Z.eqb_refl.
    + destruct (Z.eqb_spec k' k); [done | apply IH].
Qed.

Lemma get_set_ne d k k' v : k <> k' -> get (set d k v) k' = get d k'.
Proof.
  intros Hne. induction d as [|[k0 v0] d IH]; simpl.
  - destruct (Z.eqb_spec k k'); [done | reflexivity].
  - destruct (Z.eqb_spec k0 k) as [->|Hk]; simpl.
    + destruct (Z.eqb_spec k k'); [done | reflexivity].
    + destruct (Z.eqb_spec k0 k'); [reflexivity | apply IH].
Qed.

Lemma get_Some_In d k v : get d k = Some v -> In (k, v) d.
Proof.
  induction d as [|[k' v'] d IH]; simpl; [done|].
  destruct (Z.eqb_spec k' k) as [->|Hne].
  - intros [= ->]. by left.
  - intros H. right. by apply IH.
Qed.

Lemma get_None_keys d k : get d k = None <-> ~ In k (keys d).
Proof.
  induction d as [|[k' v'] d IH]; simpl; [tauto|].
  destruct (Z.eqb_spec k' k) as [->|Hne].
  - split; [done | intros H; destruct H; by left].
  - rewrite IH. tauto.
Qed.

Lemma In_keys d k v : In (k, v) d -> In k (keys d).
Proof.
  intros Hin. unfold keys. apply in_map_iff. by exists (k, v).
Qed.

Lemma In_get d k v : wf d -> In (k, v) d -> get d k = Some v.
Proof.
  unfold wf. induction d as [|[k' v'] d IH]; simpl; [done|].
  intros Hnd [Heq|Hin]; inversion Hnd as [|? ? Hnotin Hnd']; subst;
    rewrite list_elem_of_In in Hnotin.
  - inversion Heq; subst. by rewrite Z.eqb_refl.
  - destruct (Z.eqb_spec k' k) as [->|Hne]; [|by apply IH].
    exfalso. apply Hnotin. by eapply In_keys.
Qed.

Lemma get_In_iff d k v : wf d -> get d k = Some v <-> In (k, v) d.
Proof. intros Hwf. split; [apply get_Some_In | by apply In_get]. Qed.

Lemma In_remove d k k' v :
  wf d -> In (k', v) (remove d k) <-> In (k', v) d /\ k' <> k.
Proof.
  unfold wf. induction d as [|[k0 v0] d IH]; simpl; [tauto|].
  intros Hnd. inversion Hnd as [|? ? Hnotin Hnd']; subst;
    rewrite list_elem_of_In in Hnotin.
  destruct (Z.eqb_spec k0 k) as [->|Hne].
  - split.
    + intros Hin. split; [by right|]. intros ->. apply Hnotin.
      by eapply In_keys.
    + intros [[Heq|Hin] Hk]; [inversion Heq; subst; done | done].
  - simpl. rewrite (IH Hnd'). split.
    + intros [Heq|[Hin Hk]]; [inversion Heq; subst; auto | auto].
    + intros [[Heq|Hin] Hk]; auto.
Qed.

Lemma wf_remove d k : wf d -> wf (remove d k).
Proof.
  unfold wf. induction d as [|[k0 v0] d IH]; simpl; [done|].
  intros Hnd. inversion Hnd as [|? ? Hnotin Hnd']; subst;
    rewrite list_elem_of_In in Hnotin.
  destruct (Z.eqb_spec k0 k) as [->|Hne]; [done|].
  simpl. constructor; [|by apply IH].
  rewrite list_elem_of_In. intros Hin. apply Hnotin. apply in_map_iff in Hin as [[k1 v1] [Hk Hin]].
  simpl in Hk; subst k1. apply (In_remove d k k0 v1 Hnd') in Hin as [Hin _].
  by eapply In_keys.
Qed.

Lemma wf_set d k v : wf d -> wf (set d k v).
Proof.
  unfold wf. induction d as [|[k0 v0] d IH]; simpl.
  - intros _. constructor; [rewrite list_elem_of_In; simpl; tauto | constructor].
  - intros Hnd. inversion Hnd as [|? ? Hnotin Hnd']; subst;
    rewrite list_elem_of_In in Hnotin.
    destruct (Z.eqb_spec k0 k) as [->|Hne]; simpl.
    + constructor; [by rewrite list_elem_of_In | done].
    + constructor; [|by apply IH].
      rewrite list_elem_of_In. intros Hin.
      apply get_None_keys in Hnotin.
      assert (E : get (set d k v) k0 = None)
        by (rewrite get_set_ne by done; exact Hnotin).
      by apply get_None_keys in E.
Qed.

Lemma In_values d v : In v (values d) <-> exists k, In (k, v) d.
Proof.
  unfold values. rewrite in_map_iff. split.
  - intros [[k v'] [Hv Hin]]. simpl in Hv; subst. eauto.
  - intros [k Hin]. exists (k, v). auto.
Qed.

End DictFacts.

Lemma option_ext {A : Type} (o1 o2 : option A) :
  (forall a, o1 = Some a <-> o2 = Some a) -> o1 = o2.
Proof.
  intros H. destruct o1 as [a|], o2 as [b|]; try done.
  - by apply H.
  - symmetry. by apply H.
  - by apply H.
Qed.


(* ===================================================================== *)
(** * Facts about the heap and the shift                                  *)
(* ===================================================================== *)

Lemma upd_eq (h : Heap) r it : upd h r it r = it.
Proof. unfold upd. by rewrite Nat.eqb_refl. Qed.

Lemma upd_ne (h : Heap) r r' it : r' <> r -> upd h r it r' = h r'.
Proof. unfold upd. intros Hne. by destruct (Nat.eqb_spec r' r). Qed.

Lemma set_shop_id_same it : set_shop_id (shop_id it) it = it.
Proof. by destruct it. Qed.

(** Objects outside the list are not touched by the shift. *)
Lemma shift_ids_other refs start shift h r :
  ~ In r refs -> shift_ids refs start shift h r = h r.
Proof.
  revert h. induction refs as [|r0 refs IH]; intros h Hnotin; simpl; [done|].
  rewrite IH by (intros Hin; apply Hnotin; by right).
  destruct (start <=? shop_id (h r0)); [|done].
  apply upd_ne. intros ->. apply Hnotin. by left.
Qed.

(** Each object of a duplicate-free list is shifted once, when its id is
    at or after the start. *)
Lemma shift_ids_In refs start shift h r :
  NoDup refs -> In r refs ->
  shift_ids refs start shift h r =
    if start <=? shop_id (h r)
    then set_shop_id (shop_id (h r) + shift) (h r) else h r.
Proof.
  revert h. induction refs as [|r0 refs IH]; intros h Hnd Hin; [done|].
  inversion Hnd as [|? ? Hnotin Hnd']; subst.
  rewrite list_elem_of_In in Hnotin. simpl.
  destruct Hin as [->|Hin].
  - rewrite shift_ids_other by done.
    destruct (start <=? shop_id (h r)); [apply upd_eq | done].
  - assert (r <> r0) by (intros ->; done).
    rewrite IH by done.
    destruct (start <=? shop_id (h r0)); [|done].
    by rewrite !upd_ne by done.
Qed.

(** An entry found in the rebuilt dictionary is an object of the list
    under its own [shop_id], or an entry of the accumulator. *)
Lemma get_rekey_Some refs h acc k r :
  get (rekey refs h acc) k = Some r ->
  (In r refs /\ shop_id (h r) = k) \/ get acc k = Some r.
Proof.
  revert acc. induction refs as [|r0 refs IH]; intros acc; simpl; [auto|].
  intros H. apply IH in H as [[Hin Hk]|H]; [left; auto|].
  destruct (Z.eq_dec (shop_id (h r0)) k) as [<-|Hne].
  - rewrite get_set_eq in H. injection H as <-. left; auto.
  - rewrite get_set_ne in H by done. auto.
Qed.

Lemma get_rekey_notin refs h acc k :
  ~ In k (map (fun r => shop_id (h r)) refs) ->
  get (rekey refs h acc) k = get acc k.
Proof.
  revert acc. induction refs as [|r0 refs IH]; intros acc Hnotin; simpl; [done|].
  rewrite IH by (intros Hin; apply Hnotin; by right).
  apply get_set_ne. intros Heq. apply Hnotin. by left.
Qed.

(** When the objects of the list have pairwise different ids, each is
    found under its id. *)
Lemma get_rekey_In refs h acc r :
  NoDup (map (fun r => shop_id (h r)) refs) -> In r refs ->
  get (rekey refs h acc) (shop_id (h r)) = Some r.
Proof.
  revert acc. induction refs as [|r0 refs IH]; intros acc Hnd Hin; [done|].
  simpl in Hnd. inversion Hnd as [|? ? Hnotin Hnd']; subst.
  rewrite list_elem_of_In in Hnotin. simpl.
  destruct Hin as [->|Hin].
  - rewrite get_rekey_notin by done. apply get_set_eq.
  - by apply IH.
Qed.

Lemma get_rekey_iff refs h k r :
  NoDup (map (fun r => shop_id (h r)) refs) ->
  get (rekey refs h []) k = Some r <-> In r refs /\ shop_id (h r) = k.
Proof.
  intros Hnd. split.
  - intros H. apply get_rekey_Some in H as [H|H]; [done | discriminate].
  - intros [Hin <-]. by apply get_rekey_In.
Qed.

(** Whatever the list, the rebuilt dictionary is keyed by [shop_id]. *)
Lemma rekey_consistent refs h acc :
  (forall k r, get acc k = Some r -> shop_id (h r) = k) ->
  forall k r, get (rekey refs h acc) k = Some r -> shop_id (h r) = k.
Proof.
  intros Hacc k r H. apply get_rekey_Some in H as [[_ H]|H]; auto.
Qed.

Lemma wf_rekey refs h acc : wf acc -> wf (rekey refs h acc).
Proof.
  revert acc. induction refs as [|r0 refs IH]; intros acc Hwf; simpl; [done|].
  apply IH. by apply wf_set.
Qed.

(** In a key-consistent dictionary no object is stored twice. *)
Lemma key_consistent_NoDup_values h (d : dict ref) :
  wf d -> (forall k r, get d k = Some r -> shop_id (h r) = k) ->
  NoDup (values d).
Proof.
  unfold wf. induction d as [|[k0 r0] d IH]; simpl; intros Hwf Hkc.
  - constructor.
  - inversion Hwf as [|? ? Hnotin Hwf']; subst.
    rewrite list_elem_of_In in Hnotin.
    assert (Hkc' : forall k r, get d k = Some r -> shop_id (h r) = k).
    { intros k r Hget. apply Hkc. simpl.
      destruct (Z.eqb_spec k0 k) as [->|Hne]; [|done].
      exfalso. apply Hnotin. eapply In_keys. by apply get_Some_In. }
    constructor; [|by apply IH].
    rewrite list_elem_of_In. intros Hin.
    apply In_values in Hin as [k Hin].
    assert (k = k0).
    { rewrite <- (Hkc' k r0) by (by apply In_get).
      apply Hkc. simpl. by rewrite Z.eqb_refl. }
    subst k. apply Hnotin. by eapply In_keys.
Qed.


Lemma NoDup_map_inj_on {A B : Type} (f : A -> B) (l : list A) :
  (forall x y, In x l -> In y l -> f x = f y -> x = y) ->
  NoDup l -> NoDup (map f l).
Proof.
  induction l as [|a l IH]; intros Hinj Hnd; simpl; [constructor|].
  inversion Hnd as [|? ? Hnotin Hnd']; subst.
  rewrite list_elem_of_In in Hnotin.
  constructor.
  - rewrite list_elem_of_In. intros Hin.
    apply in_map_iff in Hin as [x [Hfx Hx]].
    assert (x = a) by (apply Hinj; [by right | by left | done]).
    by subst.
  - apply IH; [|done]. intros x y Hx Hy. apply Hinj; by right.
Qed.

(** [shift_items] on a key-consistent dictionary, when the shift sends
    different keys to different keys: the entry under [k] in the result is
    the object that was stored under the key [k0] with
    [shifted_key start shift k0 = k], and only its [shop_id] has changed. *)
Lemma shift_items_spec h (d : dict ref) start shift :
  wf d ->
  (forall k r, get d k = Some r -> shop_id (h r) = k) ->
  (forall k1 k2, In k1 (keys d) -> In k2 (keys d) ->
     shifted_key start shift k1 = shifted_key start shift k2 -> k1 = k2) ->
  let s' := shift_items start shift (mkShop h d) in
  wf (items s') /\
  (forall k r, get (items s') k = Some r <->
               exists k0, get d k0 = Some r /\ shifted_key start shift k0 = k) /\
  (forall k r, get (items s') k = Some r -> heap s' r = set_shop_id k (h r)) /\
  (forall r, ~ In r (values d) -> heap s' r = h r).
Proof.
  intros Hwf Hkc Hinj. unfold shift_items; simpl.
  set (refs := values d).
  set (h' := shift_ids refs start shift h).
  assert (Hnd : NoDup refs) by (by eapply key_consistent_NoDup_values).
  assert (Hentry : forall r, In r refs <-> exists k0, get d k0 = Some r).
  { intros r. unfold refs. rewrite In_values. split.
    - intros [k0 Hin]. exists k0. by apply In_get.
    - intros [k0 Hget]. exists k0. by apply get_Some_In. }
  assert (Hh' : forall k0 r, get d k0 = Some r ->
            h' r = set_shop_id (shifted_key start shift k0) (h r)).
  { intros k0 r Hget. unfold h'.
    rewrite shift_ids_In by (done || (apply Hentry; eauto)).
    rewrite (Hkc _ _ Hget). unfold shifted_key.
    destruct (start <=? k0); [done|].
    rewrite <- (Hkc _ _ Hget) at 1. by rewrite set_shop_id_same. }
  assert (Hkeys : NoDup (map (fun r => shop_id (h' r)) refs)).
  { apply NoDup_map_inj_on; [|done].
    intros x y Hx Hy Heq.
    apply Hentry in Hx as [kx Hx]. apply Hentry in Hy as [ky Hy].
    rewrite (Hh' _ _ Hx), (Hh' _ _ Hy) in Heq. simpl in Heq.
    assert (kx = ky).
    { apply Hinj; [| |done]; eapply In_keys; by apply get_Some_In. }
    subst ky. rewrite Hx in Hy. by injection Hy. }
  assert (Hget' : forall k r, get (rekey refs h' []) k = Some r <->
            exists k0, get d k0 = Some r /\ shifted_key start shift k0 = k).
  { intros k r. rewrite get_rekey_iff by done. split.
    - intros [Hin Hk]. apply Hentry in Hin as [k0 Hget]. exists k0.
      split; [done|]. by rewrite (Hh' _ _ Hget) in Hk.
    - intros [k0 [Hget Hk]]. split; [apply Hentry; eauto|].
      by rewrite (Hh' _ _ Hget). }
  split; [|split; [|split]].
  - apply wf_rekey. constructor.
  - exact Hget'.
  - intros k r Hget. apply Hget' in Hget as [k0 [Hget Hk]].
    rewrite (Hh' _ _ Hget). by rewrite Hk.
  - intros r Hnotin. unfold h'. by apply shift_ids_other.
Qed.

(** Removing the record at [i] from a snapshot of [n] records. *)
Lemma remove_item_shift n (s : Shop) i :
  snapshot n s -> 0 <= i < n ->
  let s' := fst (remove_item i s) in
  snd (remove_item i s) = Returned /\
  snapshot (n - 1) s' /\
  (forall k, get (items s') k = get (items s) (if k <? i then k else k + 1)) /\
  (forall k r, get (items s') k = Some r -> heap s' r = set_shop_id k (heap s r)).
Proof.
  intros (Hwf & Hkc & Hc) Hi.
  destruct (proj2 (Hc i) Hi) as [ri Hri].
  unfold remove_item. rewrite Hri. cbn [fst snd].
  destruct s as [h d]. unfold key_consistent, contiguous in *.
  cbn [heap items] in *.
  assert (Hget1 : forall k r, get (remove d i) k = Some r <->
                              get d k = Some r /\ k <> i).
  { intros k r. rewrite !get_In_iff by (done || by apply wf_remove).
    by apply In_remove. }
  destruct (shift_items_spec h (remove d i) (i + 1) (-1))
    as (Hwf' & Hget' & Hheap' & _).
  - by apply wf_remove.
  - intros k r Hget. apply Hget1 in Hget as [Hget _]. by apply Hkc.
  - intros k1 k2 Hk1 Hk2. unfold shifted_key.
    assert (Hne : forall k, In k (keys (remove d i)) -> k <> i).
    { intros k Hin Heq. subst k.
      destruct (get (remove d i) i) eqn:E.
      - apply Hget1 in E as [_ E]. done.
      - by apply get_None_keys in E. }
    apply Hne in Hk1, Hk2.
    destruct (Z.leb_spec (i + 1) k1), (Z.leb_spec (i + 1) k2); lia.
  - assert (Hitems : forall k,
      get (items (shift_items (i + 1) (-1) (mkShop h (remove d i)))) k =
      get d (if k <? i then k else k + 1)).
    { intros k. apply option_ext. intros r. rewrite Hget'. split.
      - intros [k0 [Hget Hk]]. apply Hget1 in Hget as [Hget Hne].
        unfold shifted_key in Hk.
        destruct (Z.leb_spec (i + 1) k0), (Z.ltb_spec k i); try lia.
        * by replace (k + 1) with k0 by lia.
        * by replace k with k0 by lia.
      - intros Hget. exists (if k <? i then k else k + 1). split.
        + apply Hget1. split; [done|]. destruct (Z.ltb_spec k i); lia.
        + unfold shifted_key.
          destruct (Z.ltb_spec k i);
            destruct (Z.leb_spec (i + 1) k), (Z.leb_spec (i + 1) (k + 1)); lia. }
    split; [done|]. split; [|split; [exact Hitems | exact Hheap']].
    split; [exact Hwf'|]. split.
    + intros k r Hget. rewrite (Hheap' _ _ Hget). reflexivity.
    + intros k. rewrite Hitems. rewrite (Hc _).
      destruct (Z.ltb_spec k i); lia.
Qed.

(** Inserting a record that is not yet in the shop at [i]. *)
Lemma insert_item_shift n (s : Shop) i r :
  snapshot n s -> 0 <= i <= n -> ~ stored r s ->
  let s' := insert_item i r s in
  snapshot (n + 1) s' /\
  get (items s') i = Some r /\
  (forall k, k < i -> get (items s') k = get (items s) k) /\
  (forall k, i < k -> get (items s') k = get (items s) (k - 1)) /\
  (forall k r', get (items s') k = Some r' ->
                heap s' r' = set_shop_id k (heap s r')).
Proof.
  intros (Hwf & Hkc & Hc) Hi Hnew. unfold stored in Hnew.
  destruct s as [h d]. unfold key_consistent, contiguous in *.
  cbn [heap items] in *.
  destruct (shift_items_spec h d i 1) as (Hwf1 & Hget1 & Hheap1 & Hframe1);
    [done | done | |].
  { intros k1 k2 _ _. unfold shifted_key.
    destruct (Z.leb_spec i k1), (Z.leb_spec i k2); lia. }
  unfold insert_item, set_item.
  set (s1 := shift_items i 1 (mkShop h d)) in *. cbn [heap items].
  assert (Hold : forall k, k <> i ->
            get (items s1) k = get d (if k <? i then k else k - 1)).
  { intros k Hk. apply option_ext. intros r'. rewrite Hget1. split.
    - intros [k0 [Hget Hk0]]. unfold shifted_key in Hk0.
      destruct (Z.leb_spec i k0), (Z.ltb_spec k i); try lia.
      + by replace (k - 1) with k0 by lia.
      + by replace k with k0 by lia.
    - intros Hget. exists (if k <? i then k else k - 1). split; [done|].
      unfold shifted_key.
      destruct (Z.ltb_spec k i);
        destruct (Z.leb_spec i k), (Z.leb_spec i (k - 1)); lia. }
  assert (Hnotin1 : forall k, get (items s1) k <> Some r).
  { intros k Hget. apply Hget1 in Hget as [k0 [Hget _]].
    apply Hnew. apply In_values. exists k0. by apply get_Some_In. }
  assert (Hheap : forall k r',
            get (set (items s1) i r) k = Some r' ->
            upd (heap s1) r (set_shop_id i (heap s1 r)) r' =
              set_shop_id k (h r')).
  { intros k r' Hget. destruct (Z.eq_dec i k) as [<-|Hne].
    - rewrite get_set_eq in Hget. injection Hget as <-.
      rewrite upd_eq. by rewrite (Hframe1 r Hnew).
    - rewrite get_set_ne in Hget by done.
      rewrite upd_ne by (intros ->; by apply (Hnotin1 k)).
      by apply Hheap1. }
  unfold snapshot, key_consistent, contiguous. cbn [heap items].
  split; [|split; [apply get_set_eq | split; [|split; [|exact Hheap]]]].
  - split; [by apply wf_set|]. split.
    + intros k r' Hget. by rewrite (Hheap _ _ Hget).
    + intros k. destruct (Z.eq_dec i k) as [<-|Hne].
      * rewrite get_set_eq. split; [lia | eauto].
      * rewrite get_set_ne by done. rewrite Hold by done. rewrite (Hc _).
        destruct (Z.ltb_spec k i); lia.
  - intros k Hk. rewrite get_set_ne by lia. rewrite Hold by lia.
    by destruct (Z.ltb_spec k i); [|lia].
  - intros k Hk. rewrite get_set_ne by lia. rewrite Hold by lia.
    by destruct (Z.ltb_spec k i); [lia|].
Qed.


(* ===================================================================== *)
(** * Positional shift and key consistency                                *)
(* ===================================================================== *)

(** C8 (positional shift).  On a snapshot whose ids are [0 .. n-1],
    [remove_item i] returns, leaves a snapshot of ids [0 .. n-2] in which
    the records before [i] keep their key and every record after [i] sits
    one key lower, and [insert_item i r], for a record [r] not yet in the
    shop, leaves a snapshot of ids [0 .. n] with [r] at [i], the records
    before [i] at their key and every record from [i] on one key higher.
    In both cases the object found under a key [k] afterwards differs from
    what it was only by its [shop_id], which is [k]. *)
Theorem positional_shift (n : Z) (s : Shop) :
  snapshot n s ->
  (forall i, 0 <= i < n ->
     snd (remove_item i s) = Returned /\
     snapshot (n - 1) (fst (remove_item i s)) /\
     (forall k, get (items (fst (remove_item i s))) k =
                get (items s) (if k <? i then k else k + 1)) /\
     (forall k r, get (items (fst (remove_item i s))) k = Some r ->
                  heap (fst (remove_item i s)) r = set_shop_id k (heap s r)))
  /\
  (forall i r, 0 <= i <= n -> ~ stored r s ->
     snapshot (n + 1) (insert_item i r s) /\
     get (items (insert_item i r s)) i = Some r /\
     (forall k, k < i ->
        get (items (insert_item i r s)) k = get (items s) k) /\
     (forall k, i < k ->
        get (items (insert_item i r s)) k = get (items s) (k - 1)) /\
     (forall k r', get (items (insert_item i r s)) k = Some r' ->
                   heap (insert_item i r s) r' = set_shop_id k (heap s r'))).
Proof.
  intros Hs. split.
  - intros i Hi. by apply remove_item_shift.
  - intros i r Hi Hr. by apply insert_item_shift.
Qed.

(** A boolean check of [snapshot] for a shop given by its entries, in key
    order. *)
Lemma snapshot_of_entries (h : Heap) (d : dict ref) :
  keys d = map Z.of_nat (seq 0 (length d)) ->
  forallb (fun kr => shop_id (h (snd kr)) =? fst kr) d = true ->
  snapshot (Z.of_nat (length d)) (mkShop h d).
Proof.
  intros Hkeys Hall.
  assert (Hwf : wf d).
  { unfold wf. rewrite Hkeys. apply NoDup_map_inj_on; [|apply NoDup_seq].
    intros x y _ _. lia. }
  split; [done|]. split.
  - intros k r Hget. cbn [heap items] in *.
    apply get_Some_In in Hget. rewrite forallb_forall in Hall.
    apply Hall in Hget. simpl in Hget. lia.
  - intros k. cbn [items]. split.
    + intros [r Hget]. apply get_Some_In, In_keys in Hget.
      rewrite Hkeys in Hget. apply in_map_iff in Hget as [x [<- Hx]].
      apply in_seq in Hx. lia.
    + intros Hk. destruct (get d k) eqn:E; [eauto|].
      apply get_None_keys in E. exfalso. apply E. rewrite Hkeys.
      apply in_map_iff. exists (Z.to_nat k). split; [lia|].
      apply in_seq. lia.
Qed.

(** The five-record snapshot of the specification, ids [0 .. 4]. *)
Lemma positional_shift_witness :
  let h : Heap := fun r => mkItem (Z.of_nat r) 7 1 100 false "Battle Items" 0 in
  let s := mkShop h [(0, 0%nat); (1, 1%nat); (2, 2%nat); (3, 3%nat); (4, 4%nat)] in
  snapshot 5 s /\
  items (fst (remove_item 2 s)) = [(0, 0%nat); (1, 1%nat); (2, 3%nat); (3, 4%nat)] /\
  get (items (insert_item 2 9%nat s)) 3 = get (items s) 2.
Proof.
  assert (Hs : snapshot 5
    (mkShop (fun r => mkItem (Z.of_nat r) 7 1 100 false "Battle Items" 0)
       [(0, 0%nat); (1, 1%nat); (2, 2%nat); (3, 3%nat); (4, 4%nat)])).
  { apply (snapshot_of_entries _
      [(0, 0%nat); (1, 1%nat); (2, 2%nat); (3, 3%nat); (4, 4%nat)]);
      reflexivity. }
  cbv zeta. split; [exact Hs|]. split; [reflexivity|].
  refine (proj1 (proj2 (proj2 (proj2 (proj2 (positional_shift 5 _ Hs) 2 9%nat _ _)))) 3 _).
  - lia.
  - unfold stored. simpl. lia.
  - lia.
Defined.

(** C8, as stated, fails for [insert_item] in two ways.  With the object
    the shop already holds under key 0, the shop is left with that one
    object under the keys 0 and 1; with an index past the end, the ids
    are left with a gap.  Neither shop is a snapshot of contiguous ids. *)
Lemma insert_item_breaks_positional_shift :
  let h : Heap := fun r => mkItem (Z.of_nat r) 7 1 100 false "Battle Items" 0 in
  let s := mkShop h [(0, 0%nat); (1, 1%nat)] in
  snapshot 2 s /\
  items (insert_item 0 0%nat s) = [(1, 0%nat); (2, 1%nat); (0, 0%nat)] /\
  (forall n, ~ snapshot n (insert_item 0 0%nat s)) /\
  items (insert_item 10 5%nat s) = [(0, 0%nat); (1, 1%nat); (10, 5%nat)] /\
  (forall n, ~ snapshot n (insert_item 10 5%nat s)).
Proof.
  cbv zeta. split; [|split; [|split; [|split]]].
  - apply (snapshot_of_entries _ [(0, 0%nat); (1, 1%nat)]); reflexivity.
  - reflexivity.
  - intros n (_ & Hkc & _). specialize (Hkc 1 0%nat eq_refl).
    vm_compute in Hkc. discriminate.
  - reflexivity.
  - intros n (_ & _ & Hc).
    assert (H10 : 0 <= 10 < n) by (apply Hc; by eexists).
    assert (H5 : is_Some (get [(0, 0%nat); (1, 1%nat); (10, 5%nat)] 5))
      by (apply Hc; lia).
    destruct H5 as [x H5]. vm_compute in H5. discriminate.
Qed.

(** C10, as stated, fails: storing under key [1] the object already held
    under key [0] leaves two keys on one object, whose single [shop_id]
    is [1]. *)
Lemma set_item_alias_breaks_key_consistency :
  let s := mkShop (fun _ => mkItem 0 7 1 100 false "Battle Items" 0)
                  [(0, 0%nat)] in
  key_consistent s /\ ~ key_consistent (set_item 1 0%nat s).
Proof.
  cbv zeta. split.
  - intros k r. cbn [heap items get]. destruct (Z.eqb_spec 0 k); [|done].
    by intros _.
  - intros H. specialize (H 0 0%nat eq_refl). vm_compute in H. discriminate.
Qed.

(** C10 (key consistency), amended.  [shift_items] leaves a
    key-consistent dictionary, whatever the shop was; on a key-consistent
    shop so do [remove_item] and [add_item], [set_item] does when the
    object passed is not already stored under another key, and
    [insert_item] does when the object passed is not stored in the shop
    at all. *)
Theorem key_consistency_preserved :
  (forall s start shift, key_consistent (shift_items start shift s)) /\
  (forall s,
     key_consistent s ->
     (forall k r, (forall k', get (items s) k' = Some r -> k' = k) ->
        key_consistent (set_item k r s)) /\
     (forall r, key_consistent (add_item r s)) /\
     (forall k r, ~ stored r s -> key_consistent (insert_item k r s)) /\
     (forall k, key_consistent (fst (remove_item k s)))).
Proof.
  assert (Hset : forall (s0 : Shop) k r, key_consistent s0 ->
            (forall k', get (items s0) k' = Some r -> k' = k) ->
            key_consistent (set_item k r s0)).
  { intros s0 k r Hkc0 Hfree k1 r1. unfold set_item. cbn [heap items].
    destruct (Z.eq_dec k k1) as [<-|Hne].
    - rewrite get_set_eq. intros [= <-]. by rewrite upd_eq.
    - rewrite get_set_ne by done. intros Hget.
      rewrite upd_ne; [by apply Hkc0|].
      intros ->. apply Hne. symmetry. by apply Hfree. }
  assert (Hshift : forall (s0 : Shop) start shift,
            key_consistent (shift_items start shift s0)).
  { intros s0 start shift k r. unfold shift_items. cbn [heap items].
    apply rekey_consistent. discriminate. }
  split; [exact Hshift|].
  intros s Hkc.
  split; [|split; [|split]].
  - intros k r. by apply Hset.
  - intros r. apply Hset; [done|]. intros k' Hget. symmetry. by apply Hkc.
  - intros k r Hnew. apply Hset; [apply Hshift|].
    intros k' Hget. exfalso. apply Hnew.
    unfold shift_items in Hget. cbn [items] in Hget.
    apply get_rekey_Some in Hget as [[Hin _]|Hget]; [done | discriminate].
  - intros k. unfold remove_item. destruct (get (items s) k); [|done].
    apply Hshift.
Qed.

Lemma key_consistency_preserved_witness :
  let s := mkShop (fun r => mkItem (Z.of_nat r) 7 1 100 false "Battle Items" 0)
                  [(0, 0%nat); (1, 1%nat)] in
  key_consistent s /\ key_consistent (insert_item 1 5%nat s).
Proof.
  assert (Hkc : key_consistent
    (mkShop (fun r => mkItem (Z.of_nat r) 7 1 100 false "Battle Items" 0)
       [(0, 0%nat); (1, 1%nat)])).
  { apply (snapshot_of_entries _ [(0, 0%nat); (1, 1%nat)]); reflexivity. }
  cbv zeta. split; [exact Hkc|].
  apply (proj2 key_consistency_preserved _ Hkc).
  unfold stored. simpl. lia.
Defined.


(* ===================================================================== *)
(** * The merge of [import_item_shop]                                     *)
(* ===================================================================== *)

(** The attribute loop raises [AttributeError] when it is given a name
    that no [Item] has: at that name, if not before. *)
Lemma merge_attrs_unknown names a other_item gd_item current_item h :
  In a names -> (forall it, getattr a it = None) ->
  snd (merge_attrs names other_item gd_item current_item h)
  = Raised AttributeError.
Proof.
  intros Hin Hnone. revert h.
  induction names as [|a0 names IH]; intros h; [done|].
  cbn [merge_attrs].
  destruct (getattr a0 (h other_item)) as [ov|] eqn:Eo; [|done].
  destruct (getattr a0 gd_item) as [gv|]; [|done].
  assert (Hin' : In a names).
  { destruct Hin as [->|Hin]; [|done]. by rewrite Hnone in Eo. }
  case_decide; [|by apply IH].
  destruct current_item; [by apply IH | done].
Qed.

(** For an id found in both the imported shop and the game data the
    attribute loop never runs to its end: [attrs] names [imgcut_id] and
    [cut], which no [Item] has. *)
Lemma merge_attrs_raises other_item gd_item current_item h :
  snd (merge_attrs attrs other_item gd_item current_item h)
  = Raised AttributeError.
Proof.
  apply (merge_attrs_unknown attrs "imgcut_id"); [|done].
  unfold attrs. simpl. tauto.
Qed.

(** The attribute loop never writes [rect_id] (nor [shop_id]). *)
Lemma merge_attrs_rect_id names other_item gd_item current_item h r :
  ~ In "rect_id"%string names -> ~ In "shop_id"%string names ->
  rect_id (fst (merge_attrs names other_item gd_item current_item h) r)
  = rect_id (h r).
Proof.
  revert h. induction names as [|a names IH]; intros h Hr Hs; [done|].
  cbn [merge_attrs].
  destruct (getattr a (h other_item)) as [ov|]; [|done].
  destruct (getattr a gd_item) as [gv|]; [|done].
  assert (Hr' : ~ In "rect_id"%string names) by (intros ?; apply Hr; by right).
  assert (Hs' : ~ In "shop_id"%string names) by (intros ?; apply Hs; by right).
  case_decide; [|by apply IH].
  destruct current_item as [c|]; [|done].
  rewrite IH by done. unfold upd.
  destruct (Nat.eqb_spec r c) as [->|]; [|done].
  unfold setattr.
  destruct (String.eqb_spec a "rect_id") as [->|]; [exfalso; apply Hr; by left|].
  destruct (String.eqb_spec a "shop_id") as [->|]; [exfalso; apply Hs; by left|].
  destruct ov; repeat (case_match; try done).
Qed.

(** The import raises as soon as the loop meets an id that the imported
    shop and the game data share. *)
Lemma import_loop_raises order other gd_item_shop s id :
  In id order ->
  is_Some (get other id) -> is_Some (get gd_item_shop id) ->
  snd (import_loop order other gd_item_shop s) = Raised AttributeError.
Proof.
  revert s. induction order as [|id0 order IH]; intros s Hin Ho Hg; [done|].
  cbn [import_loop]. unfold get_item.
  destruct (get other id0) as [ro|] eqn:Eo.
  - destruct (get gd_item_shop id0) as [g|] eqn:Eg.
    + pose proof (merge_attrs_raises ro g (get (items s) id0) (heap s)) as Hm.
      destruct (merge_attrs attrs ro g (get (items s) id0) (heap s)) as [h' o].
      simpl in Hm. subst o. reflexivity.
    + destruct Hin as [->|Hin]; [|by apply IH].
      rewrite Eg in Hg. by destruct Hg.
  - destruct Hin as [->|Hin]; [|by apply IH].
    rewrite Eo in Ho. by destruct Ho.
Qed.

(** When the imported shop and the game data share no id the import
    returns, and every record of the imported shop is stored under its id:
    the very object, with [shop_id] set to the id. *)
Lemma import_loop_new_records order other gd_item_shop s :
  (forall id, In id order -> is_Some (get other id) ->
              get gd_item_shop id = None) ->
  snd (import_loop order other gd_item_shop s) = Returned /\
  (forall id r, In id order -> get other id = Some r ->
     get (items (fst (import_loop order other gd_item_shop s))) id = Some r) /\
  (forall id, ~ (In id order /\ is_Some (get other id)) ->
     get (items (fst (import_loop order other gd_item_shop s))) id
     = get (items s) id).
Proof.
  revert s. induction order as [|id0 order IH]; intros s Hnew.
  - cbn [import_loop fst snd]. split; [done|]. split; [by intros ? ? []|done].
  - assert (Hnew' : forall id, In id order -> is_Some (get other id) ->
                               get gd_item_shop id = None)
      by (intros id Hin; apply Hnew; by right).
    cbn [import_loop]. unfold get_item.
    destruct (get other id0) as [ro|] eqn:Eo.
    + assert (Hg : get gd_item_shop id0 = None)
        by (apply Hnew; [by left | rewrite Eo; eauto]).
      rewrite Hg.
      destruct (IH (set_item id0 ro s) Hnew') as (Hret & Hin & Hout).
      split; [done|]. split.
      * intros id r [<-|Hid] Hget; [|by apply Hin].
        destruct (in_dec Z.eq_dec id0 order) as [Hd|Hd]; [by apply Hin|].
        rewrite Hout by tauto. unfold set_item. cbn [items].
        rewrite get_set_eq. congruence.
      * intros id Hid.
        rewrite Hout by (intros [? ?]; apply Hid; split; [by right | done]).
        unfold set_item. cbn [items]. apply get_set_ne.
        intros <-. apply Hid. split; [by left | rewrite Eo; eauto].
    + destruct (IH s Hnew') as (Hret & Hin & Hout).
      split; [done|]. split.
      * intros id r [<-|Hid] Hget; [congruence | by apply Hin].
      * intros id Hid. apply Hout. intros [? ?]. apply Hid.
        split; [by right | done].
Qed.

(** C1.  The scenario of the specification, with the mod also changing
    [rect_id]: the shop holds item 5 at price 100, as the game data does;
    the mod has price 150 and rect_id 3.  The call raises
    [AttributeError]; the price has been taken over by then, the rect_id
    has not. *)
Theorem import_item_shop_scenario :
  let pristine := mkItem 5 7 1 100 false "Battle Items" 0 in
  let h : Heap := fun r =>
    match r with
    | O => pristine
    | _ => mkItem 5 7 1 150 false "Battle Items" 3
    end in
  let res := import_item_shop [5] [(5, 1%nat)] [(5, pristine)]
               (mkShop h [(5, 0%nat)]) in
  all_keys [5] [(5, 0%nat)] [(5, 1%nat)] [(5, pristine)] /\
  snd res = Raised AttributeError /\
  price (heap (fst res) 0%nat) = 150 /\
  rect_id (heap (fst res) 0%nat) = 0.
Proof.
  cbv zeta. split; [|vm_compute; auto].
  split; [|simpl; tauto].
  repeat (constructor; [rewrite list_elem_of_In; simpl; intuition lia|]).
  constructor.
Qed.

(** C3.  Mod A edits the price of item 5, mod B its rect_id.  Each import
    raises [AttributeError], and even when the second is run on what the
    first left behind the record has A's price but not B's rect_id. *)
Theorem import_item_shop_disjoint_edits :
  let pristine := mkItem 5 7 1 100 false "Battle Items" 0 in
  let h : Heap := fun r =>
    match r with
    | O => pristine
    | 1%nat => mkItem 5 7 1 150 false "Battle Items" 0
    | _ => mkItem 5 7 1 100 false "Battle Items" 3
    end in
  let gd := [(5, pristine)] in
  let after_a := import_item_shop [5] [(5, 1%nat)] gd (mkShop h [(5, 0%nat)]) in
  let after_b := import_item_shop [5] [(5, 2%nat)] gd (fst after_a) in
  all_keys [5] [(5, 0%nat)] [(5, 1%nat)] gd /\
  snd after_a = Raised AttributeError /\
  snd after_b = Raised AttributeError /\
  price (heap (fst after_b) 0%nat) = 150 /\
  rect_id (heap (fst after_b) 0%nat) = 0.
Proof.
  cbv zeta. split; [|vm_compute; auto].
  split; [|simpl; tauto].
  repeat (constructor; [rewrite list_elem_of_In; simpl; intuition lia|]).
  constructor.
Qed.

(** C4.  The mod brings item 0, which the game has, and a new item 1.
    The import raises at id 0; when the set yields 0 before 1 (as CPython
    does for these two keys) the new record is never stored. *)
Theorem import_item_shop_new_record_lost :
  let pristine := mkItem 0 7 1 100 false "Battle Items" 0 in
  let h : Heap := fun r =>
    match r with
    | 2%nat => mkItem 1 8 1 50 false "XP" 1
    | _ => pristine
    end in
  let other := [(0, 1%nat); (1, 2%nat)] in
  let gd := [(0, pristine)] in
  let s := mkShop h [(0, 0%nat)] in
  all_keys [0; 1] (items s) other gd /\
  snd (import_item_shop [0; 1] other gd s) = Raised AttributeError /\
  get (items (fst (import_item_shop [0; 1] other gd s))) 1 = None /\
  snd (import_item_shop [1; 0] other gd s) = Raised AttributeError.
Proof.
  cbv zeta. split; [|vm_compute; auto].
  split; [|simpl; tauto].
  repeat (constructor; [rewrite list_elem_of_In; simpl; intuition lia|]).
  constructor.
Qed.

(** X1.  [import_item_shop] raises [AttributeError] whenever the set of
    keys holds an id that the imported shop and the game data share. *)
Theorem import_item_shop_raises_on_shared_id order other gd_item_shop s id :
  In id order ->
  is_Some (get other id) -> is_Some (get gd_item_shop id) ->
  snd (import_item_shop order other gd_item_shop s) = Raised AttributeError.
Proof. apply import_loop_raises. Qed.

Lemma import_item_shop_raises_on_shared_id_witness :
  snd (import_item_shop [5] [(5, 1%nat)]
         [(5, mkItem 5 7 1 100 false "Battle Items" 0)]
         (mkShop (fun _ => mkItem 5 7 1 100 false "Battle Items" 0) []))
  = Raised AttributeError.
Proof.
  apply (import_item_shop_raises_on_shared_id _ _ _ _ 5).
  - simpl. tauto.
  - simpl. eauto.
  - simpl. eauto.
Defined.

(** X2.  When the imported shop shares no id with the game data,
    [import_item_shop] returns, every record of the imported shop whose id
    the loop visits is stored under its id (the object itself), and the
    other ids keep what they had. *)
Theorem import_item_shop_new_records order other gd_item_shop s :
  (forall id, In id order -> is_Some (get other id) ->
              get gd_item_shop id = None) ->
  snd (import_item_shop order other gd_item_shop s) = Returned /\
  (forall id r, In id order -> get other id = Some r ->
     get (items (fst (import_item_shop order other gd_item_shop s))) id
     = Some r) /\
  (forall id, ~ (In id order /\ is_Some (get other id)) ->
     get (items (fst (import_item_shop order other gd_item_shop s))) id
     = get (items s) id).
Proof. apply import_loop_new_records. Qed.

Lemma import_item_shop_new_records_witness :
  get (items (fst (import_item_shop [0; 1] [(1, 2%nat)]
                     [(0, mkItem 0 7 1 100 false "Battle Items" 0)]
                     (mkShop (fun _ => mkItem 0 7 1 100 false "Battle Items" 0)
                        [(0, 0%nat)])))) 1
  = Some 2%nat.
Proof.
  refine (proj1 (proj2 (import_item_shop_new_records [0; 1] [(1, 2%nat)]
                          [(0, mkItem 0 7 1 100 false "Battle Items" 0)]
                          _ _)) 1 2%nat _ _).
  - intros id _ [r Hr]. cbn [get] in Hr.
    destruct (Z.eqb_spec 1 id); [|done]. subst id. reflexivity.
  - simpl. tauto.
  - reflexivity.
Defined.

(* ===================================================================== *)
(** * MainChara                                                           *)
(* ===================================================================== *)

(** X3.  [import_main_chara] takes over the imported model whatever the
    game data holds: the object [from_game_data] has just made is never
    the imported object. *)
Theorem import_main_chara_overwrites (Model GamePacks : Type)
      (load : GamePacks -> Model) self other game_data st :
  (other < next_obj _ st)%nat ->
  chara_model _ (import_main_chara _ _ load self other game_data st) self
  = chara_model _ st other.
Proof.
  intros Hlt. unfold import_main_chara, chara_from_game_data, chara_ne.
  cbn [next_obj chara_model].
  destruct (Nat.eqb_spec (next_obj Model st) other); [lia|].
  cbn [negb chara_model]. rewrite Nat.eqb_refl.
  destruct (Nat.eqb_spec other (next_obj Model st)); [lia|done].
Qed.

(** C2.  The shop holds a main character whose model (200) another mod
    has edited; the imported one has the model of the game data (100).
    Importing it replaces the edited model by the game's. *)
Theorem import_main_chara_pristine_overwrites :
  let load : unit -> Z := fun _ => 100 in
  let st := mkCharas Z 2 (fun o => match o with O => 200 | _ => 100 end) in
  chara_model Z (import_main_chara Z unit load 0 1 tt st) 1%nat = load tt /\
  chara_model Z st 0%nat = 200 /\
  chara_model Z (import_main_chara Z unit load 0 1 tt st) 0%nat = 100.
Proof. cbv zeta. vm_compute. auto. Qed.

Lemma import_main_chara_overwrites_witness :
  chara_model Z
    (import_main_chara Z unit (fun _ => 100%Z) 0 1 tt
       (mkCharas Z 2 (fun o => match o with O => 200 | _ => 100 end)%Z))
    0%nat
  = 100%Z.
Proof.
  apply (import_main_chara_overwrites Z unit (fun _ => 100%Z) 0 1 tt
           (mkCharas Z 2 (fun o => match o with O => 200 | _ => 100 end)%Z)).
  simpl. lia.
Defined.

(* ===================================================================== *)
(** * Decoding the shop                                                   *)
(* ===================================================================== *)

Lemma read_items_app l1 l2 acc :
  read_items (l1 ++ l2) acc = read_items l1 acc ≫= read_items l2.
Proof.
  revert acc. induction l1 as [|l l1 IH]; intros acc; [done|].
  cbn [read_items app]. destruct (item_of_line l) as [it|e]; [|done].
  cbn. apply IH.
Qed.

(** Lines of other ids leave the entry of an id as it is. *)
Lemma read_items_other ls acc its k :
  read_items ls acc = Ok its ->
  (forall l it, In l ls -> item_of_line l = Ok it -> shop_id it <> k) ->
  get its k = get acc k.
Proof.
  revert acc. induction ls as [|l ls IH]; intros acc Hread Hne.
  - cbn in Hread. by injection Hread as <-.
  - cbn [read_items] in Hread.
    destruct (item_of_line l) as [it|e] eqn:El; [|done]. cbn in Hread.
    rewrite (IH _ Hread) by (intros l' it' Hin; apply Hne; by right).
    apply get_set_ne. apply (Hne l); [by left | done].
Qed.

(** C9, as stated, fails: two lines with id 5 decode to the record of the
    second, and nothing is recorded about the clash. *)
Lemma from_game_data_conflict_unrecorded :
  from_game_data
    (Some [ ["shop_id"; "item"; "count"; "price"; "draw"; "category"; "rect"];
            ["5"; "1"; "1"; "100"; "0"; "Battle Items"; "0"];
            ["5"; "2"; "1"; "150"; "1"; "XP"; "4"] ])%string
  = Ok (mkDecoded [(5, mkItem 5 2 1 150 true "XP" 4)] []).
Proof. reflexivity. Qed.

(** C9, amended.  When the file decodes, the record under an id is the
    one built from the last line carrying that id, whatever lines came
    before it; no warning is recorded. *)
Theorem from_game_data_last_wins header before line after it d :
  item_of_line line = Ok it ->
  (forall l it', In l after -> item_of_line l = Ok it' ->
                 shop_id it' <> shop_id it) ->
  from_game_data (Some (header :: before ++ line :: after)) = Ok d ->
  get (decoded_items d) (shop_id it) = Some it /\ warnings d = [].
Proof.
  intros Hline Hafter Hdec. unfold from_game_data in Hdec.
  cbn [tail] in Hdec. rewrite read_items_app in Hdec.
  destruct (read_items before []) as [acc|e] eqn:Eb; [|done].
  cbn in Hdec. rewrite Hline in Hdec. cbn in Hdec.
  destruct (read_items after _) as [its|e] eqn:Ea; [|done].
  cbn in Hdec. injection Hdec as <-. cbn [decoded_items warnings].
  split; [|done].
  rewrite (read_items_other _ _ _ _ Ea Hafter). apply get_set_eq.
Qed.

Lemma from_game_data_last_wins_witness :
  exists d,
    from_game_data
      (Some [ ["shop_id"; "item"; "count"; "price"; "draw"; "category"; "rect"];
              ["5"; "1"; "1"; "100"; "0"; "Battle Items"; "0"];
              ["5"; "2"; "1"; "150"; "1"; "XP"; "4"];
              ["6"; "3"; "1"; "30"; "0"; "XP"; "5"] ])%string = Ok d /\
    get (decoded_items d) 5 = Some (mkItem 5 2 1 150 true "XP" 4) /\
    warnings d = [].
Proof.
  eexists. split; [reflexivity|].
  apply (from_game_data_last_wins
           ["shop_id"; "item"; "count"; "price"; "draw"; "category"; "rect"]%string
           [["5"; "1"; "1"; "100"; "0"; "Battle Items"; "0"]]%string
           ["5"; "2"; "1"; "150"; "1"; "XP"; "4"]%string
           [["6"; "3"; "1"; "30"; "0"; "XP"; "5"]]%string
           (mkItem 5 2 1 150 true "XP" 4)).
  - reflexivity.
  - intros l it' [<-|[]] Hl. vm_compute in Hl. injection Hl as <-. done.
  - reflexivity.
Defined.


(* ===================================================================== *)
(** * Facts about cells and tables                                        *)
(* ===================================================================== *)

Local Open Scope nat_scope.

Lemma to_int_of_int z : Cell.to_int (Cell.of_int z) = Some z.
Proof.
  unfold Cell.to_int, Cell.of_int.
  rewrite NilZero.isi.
  - simpl. by rewrite DecimalZ.of_to.
  - destruct z; simpl; [discriminate| |discriminate].
    intros [= H]. by apply (DecimalPos.Unsigned.to_uint_nonnil p).
  - destruct z; simpl; [discriminate|discriminate|].
    intros [= H]. by apply (DecimalPos.Unsigned.to_uint_nonnil p).
Qed.

Lemma lookup_pad_Some {A : Type} n (x : A) l i y :
  l !! i = Some y -> CSV.pad n x l !! i = Some y.
Proof. intros H. unfold CSV.pad. by apply lookup_app_l_Some. Qed.

Lemma lookup_pad_lt {A : Type} n (x : A) l i :
  i < n -> is_Some (CSV.pad n x l !! i).
Proof.
  intros Hi. apply lookup_lt_is_Some. unfold CSV.pad.
  rewrite length_app, length_replicate. lia.
Qed.

Lemma get_put_cell_eq row col s L :
  CSV.get_cell (CSV.put_cell row col s L) row col = Ok s.
Proof.
  unfold CSV.get_cell, CSV.put_cell.
  destruct (lookup_pad_lt (S row) [] L row) as [r Hr]; [lia|].
  rewrite list_lookup_alter_eq, Hr. simpl.
  rewrite list_lookup_insert_eq; [done|].
  unfold CSV.pad. rewrite length_app, length_replicate. lia.
Qed.

Lemma get_put_cell_ne row col s L r c t :
  CSV.get_cell L r c = Ok t -> (r, c) <> (row, col) ->
  CSV.get_cell (CSV.put_cell row col s L) r c = Ok t.
Proof.
  unfold CSV.get_cell, CSV.put_cell. intros Hget Hne.
  destruct (L !! r) as [line|] eqn:Hline; [|done].
  destruct (line !! c) as [t'|] eqn:Hc; [|done].
  simpl in Hget. injection Hget as ->.
  destruct (decide (r = row)) as [->|Hr].
  - rewrite list_lookup_alter_eq.
    rewrite (lookup_pad_Some _ _ _ _ _ Hline). simpl.
    rewrite list_lookup_insert_ne by congruence.
    by rewrite (lookup_pad_Some _ _ _ _ _ Hc).
  - rewrite list_lookup_alter_ne by done.
    rewrite (lookup_pad_Some _ _ _ _ _ Hline). simpl. by rewrite Hc.
Qed.

Lemma keeps_refl n L : keeps n L L.
Proof. by intros r c t _ H. Qed.

Lemma keeps_trans n L1 L2 L3 : keeps n L1 L2 -> keeps n L2 L3 -> keeps n L1 L3.
Proof. intros H1 H2 r c t Hr H. apply H2; [done|]. by apply H1. Qed.

Lemma keeps_le n m L L' : m <= n -> keeps n L L' -> keeps m L L'.
Proof. intros Hle H r c t Hr. apply H. lia. Qed.

Lemma keeps_put_cell n row col s L :
  n <= row -> keeps n L (CSV.put_cell row col s L).
Proof.
  intros Hle r c t Hr Hget. apply get_put_cell_ne; [done|].
  intros [= -> _]. lia.
Qed.


(* ===================================================================== *)
(** * Facts about reading and writing the fields of a record              *)
(* ===================================================================== *)

Section Fields.
Context {R : Type}.
Implicit Types (b : Binding R) (bs : list (Binding R)) (obj : R) (csv : CSV.t).

Lemma write_field_index b obj csv :
  CSV.index (Modification.write_field b obj csv) = CSV.index csv.
Proof. destruct b as [f g p|f g p]; simpl; by destruct (g obj). Qed.

Lemma apply_csv_fields_index bs obj csv :
  CSV.index (Modification.apply_csv_fields bs obj csv) = CSV.index csv.
Proof.
  revert csv. induction bs as [|b bs IH]; intros csv; simpl; [done|].
  by rewrite IH, write_field_index.
Qed.

Lemma write_field_same b obj csv t :
  binding_text b obj = Some t ->
  CSV.get_cell (CSV.lines (Modification.write_field b obj csv))
    (field_row_at (binding_field b) (CSV.index csv))
    (col_index (binding_field b)) = Ok t.
Proof.
  destruct b as [f g p|f g p]; simpl; destruct (g obj); simpl; try done;
    intros [= <-]; apply get_put_cell_eq.
Qed.

Lemma write_field_other b obj csv r c t :
  CSV.get_cell (CSV.lines csv) r c = Ok t ->
  (r, c) <> (field_row_at (binding_field b) (CSV.index csv),
             col_index (binding_field b)) ->
  CSV.get_cell (CSV.lines (Modification.write_field b obj csv)) r c = Ok t.
Proof.
  intros Hget Hne.
  destruct b as [f g p|f g p]; simpl in *; destruct (g obj); simpl; try done;
    by apply get_put_cell_ne.
Qed.

Lemma apply_csv_fields_other bs obj csv r c t :
  CSV.get_cell (CSV.lines csv) r c = Ok t ->
  Forall (fun b => (r, c) <> (field_row_at (binding_field b) (CSV.index csv),
                              col_index (binding_field b))) bs ->
  CSV.get_cell (CSV.lines (Modification.apply_csv_fields bs obj csv)) r c = Ok t.
Proof.
  revert csv. induction bs as [|b bs IH]; intros csv Hget Hne; simpl; [done|].
  inversion Hne as [|? ? Hb Hbs]; subst.
  apply IH; [by apply write_field_other|].
  by rewrite write_field_index.
Qed.

Lemma cells_differ_addr (f g : CSVField) i :
  cells_differ f g = true ->
  (field_row_at f i, col_index f) <> (field_row_at g i, col_index g).
Proof.
  unfold cells_differ, field_row_at. intros H [= Hrow Hcol].
  apply orb_true_iff in H as [H|H].
  - apply negb_true_iff, Nat.eqb_neq in H. done.
  - destruct (row_index f), (row_index g); simpl in *; try done;
      apply negb_true_iff, Nat.eqb_neq in H; lia.
Qed.

(** A set attribute is found in its cell once all fields are written. *)
Lemma apply_csv_fields_In bs obj csv b t :
  distinct_cells (map binding_field bs) = true ->
  In b bs -> binding_text b obj = Some t ->
  CSV.get_cell (CSV.lines (Modification.apply_csv_fields bs obj csv))
    (field_row_at (binding_field b) (CSV.index csv))
    (col_index (binding_field b)) = Ok t.
Proof.
  revert csv. induction bs as [|b0 bs IH]; intros csv Hd Hin Ht; [done|].
  simpl in Hd. apply andb_true_iff in Hd as [Hd0 Hd].
  simpl. destruct Hin as [->|Hin].
  - apply apply_csv_fields_other; [by apply write_field_same|].
    rewrite write_field_index. rewrite forallb_forall in Hd0.
    apply Forall_forall. intros b' Hb'.
    apply cells_differ_addr. apply Hd0. apply in_map.
    by apply list_elem_of_In.
  - rewrite <- (write_field_index b0 obj csv). by apply IH.
Qed.

Lemma all_set_Forall bs obj :
  all_set bs obj = true <-> Forall (fun b => is_Some (binding_text b obj)) bs.
Proof.
  unfold all_set. rewrite forallb_forall, Forall_forall. split.
  - intros H b Hb. apply list_elem_of_In in Hb.
    specialize (H b Hb). by apply bool_decide_eq_true in H.
  - intros H b Hb. apply bool_decide_eq_true. apply H.
    by apply list_elem_of_In.
Qed.

(** Writing the fields of a record whose bound attributes are all set
    makes the table hold them. *)
Lemma apply_csv_fields_holds bs obj csv :
  distinct_cells (map binding_field bs) = true ->
  all_set bs obj = true ->
  holds (CSV.lines (Modification.apply_csv_fields bs obj csv))
        (CSV.index csv) bs obj.
Proof.
  intros Hd Hset. apply all_set_Forall in Hset.
  unfold holds. rewrite Forall_forall in *. intros b Hb.
  destruct (Hset b Hb) as [t Ht]. exists t. split; [done|].
  apply apply_csv_fields_In; [done | by apply list_elem_of_In | done].
Qed.

Lemma write_field_keeps n b obj csv :
  n <= field_row_at (binding_field b) (CSV.index csv) ->
  keeps n (CSV.lines csv) (CSV.lines (Modification.write_field b obj csv)).
Proof.
  intros Hle.
  destruct b as [f g p|f g p]; simpl in *; destruct (g obj); simpl;
    try apply keeps_refl; by apply keeps_put_cell.
Qed.

Lemma apply_csv_fields_keeps n bs obj csv :
  Forall (fun b => n <= field_row_at (binding_field b) (CSV.index csv)) bs ->
  keeps n (CSV.lines csv) (CSV.lines (Modification.apply_csv_fields bs obj csv)).
Proof.
  revert csv. induction bs as [|b bs IH]; intros csv Hrows; simpl.
  - apply keeps_refl.
  - inversion Hrows as [|? ? Hb Hbs]; subst.
    eapply keeps_trans; [by apply write_field_keeps|].
    apply IH. by rewrite write_field_index.
Qed.

Lemma relative_rows span bs i :
  relative_within span (map binding_field bs) = true ->
  Forall (fun b => i <= field_row_at (binding_field b) i
                   /\ field_row_at (binding_field b) i < i + span) bs.
Proof.
  unfold relative_within. rewrite forallb_forall, Forall_forall.
  intros H b Hb. apply list_elem_of_In in Hb.
  specialize (H _ (in_map binding_field _ _ Hb)).
  unfold field_row_at. destruct (row_index (binding_field b)); [done|].
  apply Nat.ltb_lt in H. simpl. lia.
Qed.

Lemma absolute_rows span bs i :
  absolute_within span (map binding_field bs) = true ->
  Forall (fun b => field_row_at (binding_field b) i < span) bs.
Proof.
  unfold absolute_within. rewrite forallb_forall, Forall_forall.
  intros H b Hb. apply list_elem_of_In in Hb.
  specialize (H _ (in_map binding_field _ _ Hb)).
  unfold field_row_at. destruct (row_index (binding_field b)); [|done].
  apply Nat.ltb_lt in H. simpl. lia.
Qed.

(** Fields bound to the cursor's rows are written at or after the
    cursor. *)
Lemma apply_csv_fields_keeps_relative span bs obj csv :
  relative_within span (map binding_field bs) = true ->
  keeps (CSV.index csv) (CSV.lines csv)
        (CSV.lines (Modification.apply_csv_fields bs obj csv)).
Proof.
  intros H. apply apply_csv_fields_keeps.
  eapply Forall_impl; [by apply (relative_rows span)|].
  intros b [Hb _]. exact Hb.
Qed.

Lemma holds_keeps n L L' i bs obj :
  holds L i bs obj -> keeps n L L' ->
  Forall (fun b => field_row_at (binding_field b) i < n) bs ->
  holds L' i bs obj.
Proof.
  unfold holds. rewrite !Forall_forall. intros Hh Hk Hrows b Hb.
  destruct (Hh b Hb) as [t [Ht Hc]]. exists t. split; [done|].
  apply Hk; [by apply Hrows | done].
Qed.

Lemma holds_keeps_relative span L L' i bs obj :
  relative_within span (map binding_field bs) = true ->
  holds L i bs obj -> keeps (i + span) L L' -> holds L' i bs obj.
Proof.
  intros Hrel Hh Hk. eapply holds_keeps; [done | done |].
  eapply Forall_impl; [by apply (relative_rows span)|].
  intros b [_ Hb]. exact Hb.
Qed.

Lemma holds_keeps_absolute span L L' i bs obj :
  absolute_within span (map binding_field bs) = true ->
  holds L i bs obj -> keeps span L L' -> holds L' i bs obj.
Proof.
  intros Habs Hh Hk. eapply holds_keeps; [done | done |].
  by apply absolute_rows.
Qed.

(** Fields bound to absolute rows are found wherever the cursor is. *)
Lemma holds_absolute_index span L i j bs obj :
  absolute_within span (map binding_field bs) = true ->
  holds L i bs obj -> holds L j bs obj.
Proof.
  unfold absolute_within, holds. rewrite forallb_forall, !Forall_forall.
  intros H Hh b Hb. destruct (Hh b Hb) as [t [Ht Hc]]. exists t.
  split; [done|]. apply list_elem_of_In in Hb.
  specialize (H _ (in_map binding_field _ _ Hb)).
  unfold field_row_at in *. by destruct (row_index (binding_field b)).
Qed.

(** Reading the fields back from a table that holds the attributes of
    [obj] copies them. *)
Lemma read_csv_fields_holds bs obj r0 csv :
  holds (CSV.lines csv) (CSV.index csv) bs obj ->
  Modification.read_csv_fields bs r0 csv = Ok (copy_fields bs obj r0).
Proof.
  revert r0. induction bs as [|b bs IH]; intros r0 Hh; [done|].
  inversion Hh as [|? ? [t [Ht Hc]] Hbs]; subst.
  cbn [Modification.read_csv_fields copy_fields fold_left].
  assert (Hb : Modification.read_field b r0 csv = Ok (binding_copy b obj r0)).
  { unfold field_row_at in Hc.
    destruct b as [f g p|f g p];
      cbn [binding_field binding_text binding_copy] in *;
      unfold Modification.read_field, CSV.cell, Modification.field_row;
      rewrite Hc; cbn.
    - destruct (g obj) as [z|]; [|done]. cbn in Ht. injection Ht as <-.
      by rewrite to_int_of_int.
    - by rewrite Ht. }
  rewrite Hb. cbn. by apply IH.
Qed.

End Fields.


(* ===================================================================== *)
(** * Facts about repeated rows                                           *)
(* ===================================================================== *)

Lemma read_rows_length {A : Type} (rd : nat -> CSV.t -> result (A * CSV.t))
      n ind csv acc xs csv' :
  read_rows rd n ind csv acc = Ok (xs, csv') -> length xs = length acc + n.
Proof.
  revert ind csv acc. induction n as [|n IH]; intros ind csv acc H.
  - cbn in H. injection H as <- <-. lia.
  - cbn [read_rows] in H. destruct (rd ind csv) as [[x csv1]|e]; [|done].
    cbn in H. apply IH in H. rewrite length_app in H. simpl in H. lia.
Qed.

Lemma apply_rows_keeps {A : Type} (ap : nat -> CSV.t -> A -> CSV.t) :
  (forall ind x csv, keeps ind (CSV.lines csv) (CSV.lines (ap ind csv x))) ->
  forall xs ind csv,
    keeps ind (CSV.lines csv) (CSV.lines (apply_rows ap ind xs csv)).
Proof.
  intros Hap xs. induction xs as [|x xs IH]; intros ind csv; simpl.
  - apply keeps_refl.
  - eapply keeps_trans; [apply Hap|].
    eapply keeps_le; [|apply IH]. lia.
Qed.

(** Rows written one after the other are all found afterwards, when a
    later row never disturbs an earlier one. *)
Lemma apply_rows_holds {A : Type} (ap : nat -> CSV.t -> A -> CSV.t)
      (rep : nat -> A -> list (list string) -> Prop) (ok : A -> bool) :
  (forall ind x csv, ok x = true -> rep ind x (CSV.lines (ap ind csv x))) ->
  (forall ind x csv, keeps ind (CSV.lines csv) (CSV.lines (ap ind csv x))) ->
  (forall ind x L L', rep ind x L -> keeps (S ind) L L' -> rep ind x L') ->
  forall xs ind csv, forallb ok xs = true ->
  forall j x, xs !! j = Some x ->
    rep (ind + j) x (CSV.lines (apply_rows ap ind xs csv)).
Proof.
  intros Hrep Hkeep Hmono xs.
  induction xs as [|x0 xs IH]; intros ind csv Hok j x Hj; [done|].
  simpl in Hok. apply andb_true_iff in Hok as [Hok0 Hok].
  destruct j as [|j]; simpl in Hj.
  - injection Hj as <-. rewrite Nat.add_0_r. simpl.
    eapply Hmono; [by apply Hrep|]. by apply apply_rows_keeps.
  - simpl. replace (ind + S j) with (S ind + j) by lia. by apply IH.
Qed.

(** Rows a table holds are read back in order. *)
Lemma read_rows_holds {A : Type} (rd : nat -> CSV.t -> result (A * CSV.t))
      (rep : nat -> A -> list (list string) -> Prop) :
  (forall ind x csv, rep ind x (CSV.lines csv) ->
     exists csv', rd ind csv = Ok (x, csv') /\ CSV.lines csv' = CSV.lines csv) ->
  forall xs ind csv acc,
    (forall j x, xs !! j = Some x -> rep (ind + j) x (CSV.lines csv)) ->
    exists csv', read_rows rd (length xs) ind csv acc = Ok (acc ++ xs, csv')
                 /\ CSV.lines csv' = CSV.lines csv.
Proof.
  intros Hrd xs. induction xs as [|x0 xs IH]; intros ind csv acc Hrep.
  - exists csv. simpl. by rewrite app_nil_r.
  - destruct (Hrd ind x0 csv) as [csv1 [Hr Hl]].
    { specialize (Hrep 0 x0 eq_refl). by rewrite Nat.add_0_r in Hrep. }
    destruct (IH (S ind) csv1 (acc ++ [x0])) as [csv2 [Hr2 Hl2]].
    { intros j x Hj. rewrite Hl.
      replace (S ind + j) with (ind + S j) by lia. by apply Hrep. }
    exists csv2. cbn [length read_rows]. rewrite Hr. cbn.
    rewrite Hr2. split; [|congruence].
    by rewrite <- app_assoc.
Qed.

(** ** Records that take one row *)

Section OneRow.
Context {R : Type}.
Variable bs : list (Binding R).
Variable new : R.
Hypothesis Hdistinct : distinct_cells (map binding_field bs) = true.
Hypothesis Hrow : relative_within 1 (map binding_field bs) = true.
Hypothesis Hcopy : forall x, copy_fields bs x new = x.

Lemma one_row_apply_holds index x csv :
  all_set bs x = true -> holds (CSV.lines (row_apply_csv bs index csv x)) index bs x.
Proof.
  intros Hset. unfold row_apply_csv.
  by apply (apply_csv_fields_holds bs x (CSV.set_index index csv)).
Qed.

Lemma one_row_apply_keeps index x csv :
  keeps index (CSV.lines csv) (CSV.lines (row_apply_csv bs index csv x)).
Proof.
  unfold row_apply_csv.
  by apply (apply_csv_fields_keeps_relative 1 bs x (CSV.set_index index csv)).
Qed.

Lemma one_row_holds_keeps index x L L' :
  holds L index bs x -> keeps (S index) L L' -> holds L' index bs x.
Proof.
  intros Hh Hk. eapply (holds_keeps_relative 1); [done | done |].
  by rewrite Nat.add_1_r.
Qed.

Lemma one_row_read index x csv :
  holds (CSV.lines csv) index bs x ->
  row_read_csv bs new index csv = Ok (x, CSV.set_index index csv).
Proof.
  intros Hh. unfold row_read_csv.
  rewrite (read_csv_fields_holds bs x new (CSV.set_index index csv)) by done.
  cbn. by rewrite Hcopy.
Qed.

Lemma rows_apply_keeps xs index csv :
  keeps index (CSV.lines csv) (CSV.lines (apply_rows (row_apply_csv bs) index xs csv)).
Proof. apply apply_rows_keeps. intros. apply one_row_apply_keeps. Qed.

Lemma rows_apply_holds xs index csv :
  forallb (all_set bs) xs = true ->
  forall j x, xs !! j = Some x ->
    holds (CSV.lines (apply_rows (row_apply_csv bs) index xs csv)) (index + j) bs x.
Proof.
  apply (apply_rows_holds (row_apply_csv bs) (fun ind x L => holds L ind bs x) (all_set bs)).
  - intros. by apply one_row_apply_holds.
  - intros. apply one_row_apply_keeps.
  - intros. by eapply one_row_holds_keeps.
Qed.

Lemma rows_read xs index csv acc :
  (forall j x, xs !! j = Some x -> holds (CSV.lines csv) (index + j) bs x) ->
  exists csv', read_rows (row_read_csv bs new) (length xs) index csv acc = Ok (acc ++ xs, csv')
               /\ CSV.lines csv' = CSV.lines csv.
Proof.
  apply (read_rows_holds (row_read_csv bs new) (fun ind x L => holds L ind bs x)).
  intros ind x csv0 Hh. exists (CSV.set_index ind csv0).
  split; [by apply one_row_read | done].
Qed.

(** Rows a table holds stay when only later rows change. *)
Lemma rows_holds_keeps xs index L L' :
  (forall j x, xs !! j = Some x -> holds L (index + j) bs x) ->
  keeps (index + length xs) L L' ->
  forall j x, xs !! j = Some x -> holds L' (index + j) bs x.
Proof.
  intros Hh Hk j x Hj. eapply one_row_holds_keeps; [by apply Hh|].
  eapply keeps_le; [|exact Hk]. apply lookup_lt_Some in Hj. lia.
Qed.

End OneRow.


(* ===================================================================== *)
(** * Keyframe blocks                                                     *)
(* ===================================================================== *)

Lemma range_len_len {A : Type} (xs : list A) :
  range_len (Some (len xs)) = length xs.
Proof. unfold range_len, len. simpl. lia. Qed.

Lemma KeyFrames_apply_csv_eq index csv p :
  KeyFrames.apply_csv index csv p =
  (KeyFrames.set_total_keyframes (Some (len (KeyFrames.keyframes p))) p,
   apply_rows KeyFrame.apply_csv (index + 2) (KeyFrames.keyframes p)
     (Modification.apply_csv_fields KeyFrames.fields
        (KeyFrames.set_total_keyframes (Some (len (KeyFrames.keyframes p))) p)
        (CSV.set_index index csv)),
   index + 2 + length (KeyFrames.keyframes p)).
Proof. reflexivity. Qed.

(** Writing a block leaves the rows before it alone. *)
Lemma KeyFrames_apply_keeps index csv p :
  keeps index (CSV.lines csv)
        (CSV.lines (snd (fst (KeyFrames.apply_csv index csv p)))).
Proof.
  rewrite KeyFrames_apply_csv_eq. cbn [fst snd].
  set (p' := KeyFrames.set_total_keyframes _ p).
  set (csv1 := Modification.apply_csv_fields KeyFrames.fields p' _).
  apply keeps_trans with (L2 := CSV.lines csv1).
  - exact (apply_csv_fields_keeps_relative 2 KeyFrames.fields p'
             (CSV.set_index index csv) eq_refl).
  - eapply keeps_le;
      [|exact (rows_apply_keeps KeyFrame.fields eq_refl _ (index + 2) csv1)].
    lia.
Qed.

(** Writing a complete block makes the table hold it. *)
Lemma KeyFrames_apply_stored index csv p :
  keyframes_complete p = true ->
  keyframes_stored index (fst (fst (KeyFrames.apply_csv index csv p)))
    (CSV.lines (snd (fst (KeyFrames.apply_csv index csv p)))).
Proof.
  intros Hc. apply andb_true_iff in Hc as [Hhead Hkfs].
  rewrite KeyFrames_apply_csv_eq. cbn [fst snd].
  set (p' := KeyFrames.set_total_keyframes _ p) in *.
  set (csv1 := Modification.apply_csv_fields KeyFrames.fields p' _).
  split; [|split].
  - apply (holds_keeps_relative 2) with (L := CSV.lines csv1); [done| |].
    + exact (apply_csv_fields_holds KeyFrames.fields p'
               (CSV.set_index index csv) eq_refl Hhead).
    + exact (rows_apply_keeps KeyFrame.fields eq_refl _ (index + 2) csv1).
  - by destruct p.
  - intros j kf Hj.
    exact (rows_apply_holds KeyFrame.fields eq_refl eq_refl
             (KeyFrames.keyframes p') (index + 2) csv1 Hkfs j kf Hj).
Qed.

(** A stored block stays when only the rows after it change. *)
Lemma keyframes_stored_keeps index p L L' :
  keyframes_stored index p L -> keeps (index + block_rows p) L L' ->
  keyframes_stored index p L'.
Proof.
  intros (Hhead & Hcount & Hkfs) Hk. unfold block_rows in Hk.
  split; [|split; [done|]].
  - apply (holds_keeps_relative 2) with (L := L); [done | done |].
    eapply keeps_le; [|exact Hk]. lia.
  - apply (rows_holds_keeps KeyFrame.fields eq_refl _ _ L); [done|].
    eapply keeps_le; [|exact Hk]. lia.
Qed.

Lemma KeyFrame_copy_new x : copy_fields KeyFrame.fields x KeyFrame.new = x.
Proof. by destruct x. Qed.

(** A stored block is read back as it is, and the cursor returned is the
    row after it. *)
Lemma KeyFrames_read_stored index p csv :
  keyframes_stored index p (CSV.lines csv) ->
  exists csv',
    KeyFrames.read_csv index csv KeyFrames.new
    = Ok (p, csv', index + block_rows p)
    /\ CSV.lines csv' = CSV.lines csv.
Proof.
  intros (Hhead & Hcount & Hkfs). unfold KeyFrames.read_csv.
  rewrite (read_csv_fields_holds KeyFrames.fields p KeyFrames.new
             (CSV.set_index index csv)) by done.
  cbn [mbind result_bind].
  replace (KeyFrames.total_keyframes
             (KeyFrames.set_keyframes []
                (copy_fields KeyFrames.fields p KeyFrames.new)))
    with (Some (len (KeyFrames.keyframes p))) by (by destruct p; cbn in *).
  rewrite range_len_len.
  destruct (rows_read KeyFrame.fields KeyFrame.new KeyFrame_copy_new
              (KeyFrames.keyframes p) (index + 2) (CSV.set_index index csv) [])
    as [csv' [Hr Hl]]; [done|].
  exists csv'. split; [|done].
  change (fun ind csv0 => KeyFrame.read_csv ind csv0 KeyFrame.new)
    with (row_read_csv KeyFrame.fields KeyFrame.new).
  rewrite Hr. cbn [mbind result_bind app]. unfold block_rows.
  replace (KeyFrames.set_keyframes (KeyFrames.keyframes p)
             (KeyFrames.set_keyframes []
                (copy_fields KeyFrames.fields p KeyFrames.new)))
    with p by (by destruct p).
  by rewrite Nat.add_assoc.
Qed.


(* ===================================================================== *)
(** * Sequences of keyframe blocks                                        *)
(* ===================================================================== *)

(** The loop of [UnitAnim.apply_csv] refreshes every block and ends with
    the cursor after the last one. *)
Lemma apply_parts_result index ps csv :
  fst (fst (UnitAnim.apply_parts index ps csv)) = map keyframes_refreshed ps /\
  snd (UnitAnim.apply_parts index ps csv) = index + parts_rows ps.
Proof.
  revert index csv. induction ps as [|p ps IH]; intros index csv.
  - simpl. unfold parts_rows. simpl. split; [done | lia].
  - cbn [UnitAnim.apply_parts]. rewrite KeyFrames_apply_csv_eq.
    match goal with
    | |- context [UnitAnim.apply_parts ?i ps ?c] =>
        destruct (IH i c) as [IH1 IH2];
        destruct (UnitAnim.apply_parts i ps c) as [[ps' csv'] next]
    end.
    cbn [fst snd] in *. subst. split; [done|].
    unfold parts_rows, block_rows. simpl. lia.
Qed.

Lemma apply_parts_keeps index ps csv :
  keeps index (CSV.lines csv)
        (CSV.lines (snd (fst (UnitAnim.apply_parts index ps csv)))).
Proof.
  revert index csv. induction ps as [|p ps IH]; intros index csv.
  - apply keeps_refl.
  - cbn [UnitAnim.apply_parts].
    pose proof (KeyFrames_apply_keeps index csv p) as Hk.
    destruct (KeyFrames.apply_csv index csv p) as [[p' csv1] next] eqn:E.
    assert (Hnext : next = index + 2 + length (KeyFrames.keyframes p))
      by (rewrite KeyFrames_apply_csv_eq in E; by injection E).
    specialize (IH next csv1).
    destruct (UnitAnim.apply_parts next ps csv1) as [[ps' csv2] next2].
    cbn [fst snd] in *.
    eapply keeps_trans; [exact Hk|]. eapply keeps_le; [|exact IH]. lia.
Qed.

Lemma apply_parts_stored index ps csv :
  forallb keyframes_complete ps = true ->
  parts_stored index (fst (fst (UnitAnim.apply_parts index ps csv)))
    (CSV.lines (snd (fst (UnitAnim.apply_parts index ps csv)))).
Proof.
  revert index csv. induction ps as [|p ps IH]; intros index csv Hc; [done|].
  simpl in Hc. apply andb_true_iff in Hc as [Hp Hps].
  cbn [UnitAnim.apply_parts].
  pose proof (KeyFrames_apply_stored index csv p Hp) as Hs.
  destruct (KeyFrames.apply_csv index csv p) as [[p' csv1] next] eqn:E.
  assert (Hnext : next = index + block_rows p' /\ p' = keyframes_refreshed p).
  { rewrite KeyFrames_apply_csv_eq in E. injection E as <- _ <-.
    split; [|done]. unfold block_rows. simpl. lia. }
  destruct Hnext as [-> Hp'].
  pose proof (IH (index + block_rows p') csv1 Hps) as IHs.
  pose proof (apply_parts_keeps (index + block_rows p') ps csv1) as Hk.
  destruct (UnitAnim.apply_parts (index + block_rows p') ps csv1)
    as [[ps' csv2] next2].
  cbn [fst snd parts_stored] in *. split; [|done].
  by eapply keyframes_stored_keeps.
Qed.

Lemma parts_stored_keeps index ps L L' :
  parts_stored index ps L -> keeps (index + parts_rows ps) L L' ->
  parts_stored index ps L'.
Proof.
  revert index. induction ps as [|p ps IH]; intros index Hs Hk; [done|].
  destruct Hs as [Hp Hps].
  change (parts_rows (p :: ps)) with (block_rows p + parts_rows ps) in Hk.
  split.
  - eapply keyframes_stored_keeps; [done|]. eapply keeps_le; [|exact Hk]. lia.
  - apply IH; [done|]. eapply keeps_le; [|exact Hk]. lia.
Qed.

(** Stored blocks are read back in order, each from where the one before
    it ended. *)
Lemma read_parts_stored ps index csv acc :
  parts_stored index ps (CSV.lines csv) ->
  exists csv',
    UnitAnim.read_parts (length ps) index csv acc
    = Ok (acc ++ ps, csv', index + parts_rows ps)
    /\ CSV.lines csv' = CSV.lines csv.
Proof.
  revert index csv acc. induction ps as [|p ps IH]; intros index csv acc Hs.
  - exists csv. simpl. unfold parts_rows. simpl.
    by rewrite app_nil_r, Nat.add_0_r.
  - destruct Hs as [Hp Hps].
    destruct (KeyFrames_read_stored index p csv Hp) as [csv1 [Hr Hl]].
    destruct (IH (index + block_rows p) csv1 (acc ++ [p])) as [csv2 [Hr2 Hl2]];
      [by rewrite Hl|].
    exists csv2. cbn [length UnitAnim.read_parts]. rewrite Hr.
    cbn [mbind result_bind]. rewrite Hr2. split; [|congruence].
    rewrite <- app_assoc.
    change (parts_rows (p :: ps)) with (block_rows p + parts_rows ps).
    by rewrite Nat.add_assoc.
Qed.

(** Whatever the table holds, a read that succeeds returns the cursor
    after the rows of the blocks it read. *)
Lemma KeyFrames_read_cursor index csv self p csv' next :
  KeyFrames.read_csv index csv self = Ok (p, csv', next) ->
  next = index + 2 + length (KeyFrames.keyframes p) /\
  length (KeyFrames.keyframes p) = range_len (KeyFrames.total_keyframes p).
Proof.
  unfold KeyFrames.read_csv. intros H.
  destruct (Modification.read_csv_fields _ _ _) as [self1|e]; [|done].
  cbn [mbind result_bind] in H.
  match type of H with
  | context [read_rows ?rd ?n ?i ?c ?a] =>
      destruct (read_rows rd n i c a) as [[kfs csv1]|e] eqn:E; [|done]
  end.
  cbn [mbind result_bind] in H. injection H as <- <- <-.
  apply read_rows_length in E.
  split; [reflexivity|]. destruct self1. exact E.
Qed.







(* ===================================================================== *)
(** * Round trip of a maanim table                                        *)
(* ===================================================================== *)

Lemma MaanimMetadata_copy md dst :
  copy_fields MaanimMetadata.fields md dst = md.
Proof. by destruct md. Qed.

Lemma UnitAnim_apply_csv_fst csv u :
  fst (UnitAnim.apply_csv csv u) =
  UnitAnim.mk
    (MaanimMetadata.set_total_parts (Some (len (UnitAnim.parts u)))
       (UnitAnim.metadata u))
    (map keyframes_refreshed (UnitAnim.parts u))
    (UnitAnim.name u).
Proof.
  unfold UnitAnim.apply_csv. cbn [UnitAnim.parts UnitAnim.set_metadata].
  match goal with
  | |- context [UnitAnim.apply_parts ?i ?ps ?c] =>
      pose proof (proj1 (apply_parts_result i ps c)) as H;
      destruct (UnitAnim.apply_parts i ps c) as [[ps' csv'] next]
  end.
  cbn [fst snd] in *. by subst.
Qed.

(** Writing a complete [UnitAnim] and reading the table back gives the
    record as [apply_csv] left it; the name, which the table does not
    carry, is the reader's. *)
Lemma UnitAnim_round_trip csv u r0 :
  unit_anim_complete u = true ->
  exists csv',
    UnitAnim.read_csv (snd (UnitAnim.apply_csv csv u)) r0
    = Ok (UnitAnim.set_name (UnitAnim.name r0) (fst (UnitAnim.apply_csv csv u)),
          csv').
Proof.
  intros Hc. apply andb_true_iff in Hc as [Hmd Hps].
  rewrite UnitAnim_apply_csv_fst.
  unfold UnitAnim.apply_csv. cbn [UnitAnim.parts UnitAnim.set_metadata].
  set (md := MaanimMetadata.set_total_parts _ _) in *.
  set (csv1 := MaanimMetadata.apply_csv csv md).
  pose proof (apply_parts_stored 3 (UnitAnim.parts u) csv1 Hps) as Hs.
  pose proof (apply_parts_keeps 3 (UnitAnim.parts u) csv1) as Hk.
  pose proof (proj1 (apply_parts_result 3 (UnitAnim.parts u) csv1)) as Heq.
  destruct (UnitAnim.apply_parts 3 (UnitAnim.parts u) csv1)
    as [[ps' csv2] next].
  cbn [fst snd] in *.
  assert (Hh : holds (CSV.lines csv2) (CSV.index csv2) MaanimMetadata.fields md).
  { apply (holds_absolute_index 3 _ (CSV.index csv)); [done|].
    apply (holds_keeps_absolute 3) with (L := CSV.lines csv1); [done| |done].
    exact (apply_csv_fields_holds MaanimMetadata.fields md csv eq_refl Hmd). }
  unfold UnitAnim.read_csv, MaanimMetadata.read_csv.
  rewrite (read_csv_fields_holds _ _ _ _ Hh). cbn [mbind result_bind].
  rewrite MaanimMetadata_copy.
  replace (range_len (MaanimMetadata.total_parts md)) with (length ps').
  2:{ subst ps' md. rewrite length_map. destruct (UnitAnim.metadata u).
      cbn. by rewrite range_len_len. }
  destruct (read_parts_stored ps' 3 csv2 [] Hs) as [csv3 [Hr _]].
  rewrite Hr. cbn [mbind result_bind app]. exists csv3.
  subst ps'. by destruct r0.
Qed.


(* ===================================================================== *)
(** * Round trip of a mamodel table                                       *)
(* ===================================================================== *)

(** Reading one row into any object copies the bound attributes. *)
Lemma row_read_copy {R : Type} (bs : list (Binding R)) dst index x csv :
  holds (CSV.lines csv) index bs x ->
  row_read_csv bs dst index csv
  = Ok (copy_fields bs x dst, CSV.set_index index csv).
Proof.
  intros Hh. unfold row_read_csv.
  by rewrite (read_csv_fields_holds bs x dst (CSV.set_index index csv)).
Qed.

Lemma MamodelMetaData_copy md dst :
  copy_fields MamodelMetaData.fields md dst = md.
Proof. by destruct md. Qed.

Lemma ModelPart_copy x dst : copy_fields ModelPart.fields x dst = x.
Proof. by destruct x. Qed.

Lemma MamodelUnits_copy x dst : copy_fields MamodelUnits.fields x dst = x.
Proof. by destruct x. Qed.

Lemma MamodelInts_copy x dst : copy_fields MamodelInts.fields x dst = x.
Proof. by destruct x. Qed.

Lemma MamodelIntsInts_apply_csv_eq index csv i :
  MamodelIntsInts.apply_csv index csv i =
  (MamodelIntsInts.set_total_ints (Some (len (MamodelIntsInts.ints i))) i,
   apply_rows (row_apply_csv MamodelInts.fields) (index + 1)
     (MamodelIntsInts.ints i)
     (Modification.apply_csv_fields MamodelIntsInts.fields
        (MamodelIntsInts.set_total_ints (Some (len (MamodelIntsInts.ints i))) i)
        (CSV.set_index index csv))).
Proof. reflexivity. Qed.

Lemma MamodelIntsInts_apply_keeps index csv i :
  keeps index (CSV.lines csv)
        (CSV.lines (snd (MamodelIntsInts.apply_csv index csv i))).
Proof.
  rewrite MamodelIntsInts_apply_csv_eq. cbn [fst snd].
  set (i' := MamodelIntsInts.set_total_ints _ i).
  set (csv1 := Modification.apply_csv_fields MamodelIntsInts.fields i' _).
  apply keeps_trans with (L2 := CSV.lines csv1).
  - exact (apply_csv_fields_keeps_relative 1 MamodelIntsInts.fields i'
             (CSV.set_index index csv) eq_refl).
  - eapply keeps_le;
      [|exact (rows_apply_keeps MamodelInts.fields eq_refl _ (index + 1) csv1)].
    lia.
Qed.

Lemma MamodelIntsInts_apply_stored index csv i :
  forallb (all_set MamodelInts.fields) (MamodelIntsInts.ints i) = true ->
  ints_stored index (fst (MamodelIntsInts.apply_csv index csv i))
    (CSV.lines (snd (MamodelIntsInts.apply_csv index csv i))).
Proof.
  intros Hxs. rewrite MamodelIntsInts_apply_csv_eq. cbn [fst snd].
  set (i' := MamodelIntsInts.set_total_ints _ i) in *.
  set (csv1 := Modification.apply_csv_fields MamodelIntsInts.fields i' _).
  split; [|split].
  - apply (holds_keeps_relative 1) with (L := CSV.lines csv1); [done| |].
    + exact (apply_csv_fields_holds MamodelIntsInts.fields i'
               (CSV.set_index index csv) eq_refl eq_refl).
    + exact (rows_apply_keeps MamodelInts.fields eq_refl _ (index + 1) csv1).
  - by destruct i.
  - intros j x Hj.
    exact (rows_apply_holds MamodelInts.fields eq_refl eq_refl
             (MamodelIntsInts.ints i') (index + 1) csv1 Hxs j x Hj).
Qed.

Lemma MamodelIntsInts_read_stored index i csv dst :
  ints_stored index i (CSV.lines csv) ->
  exists csv',
    MamodelIntsInts.read_csv index csv dst = Ok (i, csv')
    /\ CSV.lines csv' = CSV.lines csv.
Proof.
  intros (Hhead & Hcount & Hxs). unfold MamodelIntsInts.read_csv.
  rewrite (read_csv_fields_holds MamodelIntsInts.fields i _
             (CSV.set_index index csv)) by done.
  cbn [mbind result_bind].
  replace (MamodelIntsInts.total_ints
             (copy_fields MamodelIntsInts.fields i
                (MamodelIntsInts.set_ints [] dst)))
    with (Some (len (MamodelIntsInts.ints i))) by (by destruct i; cbn in *).
  rewrite range_len_len.
  destruct (rows_read MamodelInts.fields MamodelInts.new
              (fun x => MamodelInts_copy x _)
              (MamodelIntsInts.ints i) (index + 1) (CSV.set_index index csv) [])
    as [csv' [Hr Hl]]; [done|].
  exists csv'. split; [|done].
  change (fun ind csv0 => MamodelInts.read_csv ind csv0 MamodelInts.new)
    with (row_read_csv MamodelInts.fields MamodelInts.new).
  rewrite Hr. cbn [mbind result_bind app].
  f_equal. f_equal. by destruct i.
Qed.

Lemma Mamodel_apply_csv_eq csv m :
  Mamodel.apply_csv csv m =
  let md := MamodelMetaData.set_total_parts (Some (len (Mamodel.parts m)))
              (Mamodel.metadata m) in
  let csv1 := Modification.apply_csv_fields MamodelMetaData.fields md csv in
  let csv2 := apply_rows (row_apply_csv ModelPart.fields) 3 (Mamodel.parts m)
                csv1 in
  let csv3 := row_apply_csv MamodelUnits.fields (length (Mamodel.parts m) + 3)
                csv2 (Mamodel.units m) in
  let r := MamodelIntsInts.apply_csv (length (Mamodel.parts m) + 4) csv3
             (Mamodel.ints m) in
  (Mamodel.mk md (Mamodel.parts m) (Mamodel.units m) (fst r)
     (Mamodel.mamodel_name m),
   snd r).
Proof.
  unfold Mamodel.apply_csv. cbv zeta.
  cbn [Mamodel.parts Mamodel.set_metadata Mamodel.units Mamodel.ints].
  change MamodelUnits.apply_csv with (row_apply_csv MamodelUnits.fields).
  change ModelPart.apply_csv with (row_apply_csv ModelPart.fields).
  unfold MamodelMetaData.apply_csv.
  by destruct (MamodelIntsInts.apply_csv _ _ _).
Qed.

(** Writing a complete [Mamodel] and reading the table back gives the
    record as [apply_csv] left it; the file name, which the table does not
    carry, is the reader's. *)
Lemma Mamodel_round_trip csv m r0 :
  mamodel_complete m = true ->
  exists csv',
    Mamodel.read_csv (snd (Mamodel.apply_csv csv m)) r0
    = Ok (Mamodel.set_mamodel_name (Mamodel.mamodel_name r0)
            (fst (Mamodel.apply_csv csv m)),
          csv').
Proof.
  intros Hc. unfold mamodel_complete in Hc.
  apply andb_true_iff in Hc as [Hc Hints].
  apply andb_true_iff in Hc as [Hc Hunits].
  apply andb_true_iff in Hc as [Hmd Hparts].
  rewrite Mamodel_apply_csv_eq. cbv zeta.
  set (n := length (Mamodel.parts m)).
  set (md := MamodelMetaData.set_total_parts _ _) in *.
  set (csv1 := Modification.apply_csv_fields MamodelMetaData.fields md csv).
  set (csv2 := apply_rows _ 3 _ csv1).
  set (csv3 := row_apply_csv MamodelUnits.fields (n + 3) csv2 _).
  pose proof (MamodelIntsInts_apply_keeps (n + 4) csv3 (Mamodel.ints m)) as Hk4.
  pose proof (MamodelIntsInts_apply_stored (n + 4) csv3 (Mamodel.ints m) Hints)
    as Hs4.
  destruct (MamodelIntsInts.apply_csv (n + 4) csv3 (Mamodel.ints m))
    as [i' csv4].
  cbn [fst snd] in *.
  assert (Hk2 : keeps 3 (CSV.lines csv1) (CSV.lines csv2))
    by exact (rows_apply_keeps ModelPart.fields eq_refl _ 3 csv1).
  assert (Hk3 : keeps (n + 3) (CSV.lines csv2) (CSV.lines csv3))
    by exact (one_row_apply_keeps MamodelUnits.fields eq_refl (n + 3) _ csv2).
  (* the four parts of the table, as the final table holds them *)
  assert (Hmd4 : holds (CSV.lines csv4) (CSV.index csv4)
                       MamodelMetaData.fields md).
  { apply (holds_absolute_index 3 _ (CSV.index csv)); [done|].
    apply (holds_keeps_absolute 3) with (L := CSV.lines csv1); [done| |].
    - exact (apply_csv_fields_holds MamodelMetaData.fields md csv eq_refl Hmd).
    - eapply keeps_trans; [exact Hk2|].
      eapply keeps_trans; (eapply keeps_le; [|eassumption]); lia. }
  assert (Hparts4 : forall j x, Mamodel.parts m !! j = Some x ->
            holds (CSV.lines csv4) (3 + j) ModelPart.fields x).
  { apply (rows_holds_keeps ModelPart.fields eq_refl _ _ (CSV.lines csv2)).
    - exact (rows_apply_holds ModelPart.fields eq_refl eq_refl
               (Mamodel.parts m) 3 csv1 Hparts).
    - fold n. eapply keeps_trans; (eapply keeps_le; [|eassumption]); lia. }
  assert (Hunits4 : holds (CSV.lines csv4) (n + 3) MamodelUnits.fields
                          (Mamodel.units m)).
  { apply (one_row_holds_keeps MamodelUnits.fields eq_refl _ _
             (CSV.lines csv3)).
    - exact (one_row_apply_holds MamodelUnits.fields eq_refl (n + 3) _ csv2
               Hunits).
    - eapply keeps_le; [|exact Hk4]. lia. }
  (* reading them back *)
  unfold Mamodel.read_csv, MamodelMetaData.read_csv.
  rewrite (read_csv_fields_holds _ _ _ _ Hmd4). cbn [mbind result_bind].
  rewrite MamodelMetaData_copy.
  replace (range_len (MamodelMetaData.total_parts md))
    with (length (Mamodel.parts m)).
  2:{ subst md. destruct (Mamodel.metadata m). cbn. by rewrite range_len_len. }
  destruct (rows_read ModelPart.fields ModelPart.new
              (fun x => ModelPart_copy x _)
              (Mamodel.parts m) 3 csv4 []) as [csv5 [Hr5 Hl5]]; [done|].
  change (fun index csv0 => ModelPart.read_csv index csv0 ModelPart.new)
    with (row_read_csv ModelPart.fields ModelPart.new).
  rewrite Hr5. cbn [mbind result_bind app].
  cbn [Mamodel.parts Mamodel.set_parts Mamodel.set_metadata Mamodel.units
       Mamodel.ints Mamodel.set_units].
  fold n.
  change (MamodelUnits.read_csv (n + 3) csv5 (Mamodel.units r0))
    with (row_read_csv MamodelUnits.fields (Mamodel.units r0) (n + 3) csv5).
  rewrite (row_read_copy MamodelUnits.fields (Mamodel.units r0) (n + 3)
             (Mamodel.units m) csv5) by (by rewrite Hl5).
  cbn [mbind result_bind]. rewrite MamodelUnits_copy.
  destruct (MamodelIntsInts_read_stored (n + 4) i' (CSV.set_index (n + 3) csv5)
              (Mamodel.ints r0)) as [csv6 [Hr6 _]].
  { cbn [CSV.lines CSV.set_index]. by rewrite Hl5. }
  rewrite Hr6. cbn [mbind result_bind]. exists csv6.
  by destruct r0.
Qed.


(* ===================================================================== *)
(** * Counts are derived from the lists                                   *)
(* ===================================================================== *)

(** The cell of an integer attribute after all fields are written. *)
Lemma apply_csv_fields_int {R : Type} (bs : list (Binding R)) obj csv
      f get put z :
  distinct_cells (map binding_field bs) = true ->
  In (IntCSVField f get put) bs -> get obj = Some z ->
  CSV.get_cell (CSV.lines (Modification.apply_csv_fields bs obj csv))
    (field_row_at f (CSV.index csv)) (col_index f) = Ok (Cell.of_int z).
Proof.
  intros Hd Hin Hget.
  apply (apply_csv_fields_In bs obj csv (IntCSVField f get put)); [done|done|].
  cbn. by rewrite Hget.
Qed.

Lemma Texture_apply_csv_count csv t :
  TextureMetadata.total_rects (Texture.metadata (fst (Texture.apply_csv csv t)))
  = Some (len (Texture.rects t)) /\
  CSV.cell (snd (Texture.apply_csv csv t)) 3 0
  = Ok (Cell.of_int (len (Texture.rects t))).
Proof.
  unfold Texture.apply_csv. cbn [fst snd]. split; [by destruct t|].
  unfold CSV.cell, TextureMetadata.apply_csv.
  cbn [Texture.rects Texture.metadata Texture.set_metadata].
  set (md := TextureMetadata.set_total_rects _ _).
  set (csv1 := Modification.apply_csv_fields TextureMetadata.fields md csv).
  change Rect.apply_csv with (row_apply_csv Rect.fields).
  apply (rows_apply_keeps Rect.fields eq_refl _ 4 csv1); [lia|].
  apply (apply_csv_fields_int TextureMetadata.fields md csv
           (mkField 0 (Some 3) 0) TextureMetadata.total_rects
           TextureMetadata.set_total_rects); [done | simpl; tauto | done].
Qed.

Lemma KeyFrames_apply_csv_count index csv p :
  KeyFrames.total_keyframes (fst (fst (KeyFrames.apply_csv index csv p)))
  = Some (len (KeyFrames.keyframes p)) /\
  CSV.cell (snd (fst (KeyFrames.apply_csv index csv p))) (index + 1) 0
  = Ok (Cell.of_int (len (KeyFrames.keyframes p))).
Proof.
  rewrite KeyFrames_apply_csv_eq. cbn [fst snd]. split; [by destruct p|].
  unfold CSV.cell.
  set (p' := KeyFrames.set_total_keyframes _ p).
  set (csv1 := Modification.apply_csv_fields KeyFrames.fields p' _).
  change KeyFrame.apply_csv with (row_apply_csv KeyFrame.fields).
  apply (rows_apply_keeps KeyFrame.fields eq_refl _ (index + 2) csv1); [lia|].
  apply (apply_csv_fields_int KeyFrames.fields p' (CSV.set_index index csv)
           (mkField 0 None 1) KeyFrames.total_keyframes
           KeyFrames.set_total_keyframes); [done | simpl; tauto | done].
Qed.

Lemma Mamodel_apply_csv_count csv m :
  MamodelMetaData.total_parts (Mamodel.metadata (fst (Mamodel.apply_csv csv m)))
  = Some (len (Mamodel.parts m)) /\
  CSV.cell (snd (Mamodel.apply_csv csv m)) 2 0
  = Ok (Cell.of_int (len (Mamodel.parts m))).
Proof.
  rewrite Mamodel_apply_csv_eq. cbv zeta. cbn [fst snd Mamodel.metadata].
  split; [by destruct (Mamodel.metadata m)|].
  unfold CSV.cell.
  set (n := length (Mamodel.parts m)).
  set (md := MamodelMetaData.set_total_parts _ _).
  set (csv1 := Modification.apply_csv_fields MamodelMetaData.fields md csv).
  set (csv2 := apply_rows _ 3 _ csv1).
  set (csv3 := row_apply_csv MamodelUnits.fields (n + 3) csv2 _).
  assert (Hk : keeps 3 (CSV.lines csv1)
                 (CSV.lines (snd (MamodelIntsInts.apply_csv (n + 4) csv3
                                    (Mamodel.ints m))))).
  { apply keeps_trans with (L2 := CSV.lines csv2);
      [exact (rows_apply_keeps ModelPart.fields eq_refl _ 3 csv1)|].
    apply keeps_trans with (L2 := CSV.lines csv3).
    - eapply keeps_le;
        [|exact (one_row_apply_keeps MamodelUnits.fields eq_refl (n + 3) _ csv2)].
      lia.
    - eapply keeps_le; [|apply MamodelIntsInts_apply_keeps]. lia. }
  apply Hk; [lia|].
  apply (apply_csv_fields_int MamodelMetaData.fields md csv
           (mkField 0 (Some 2) 0) MamodelMetaData.total_parts
           MamodelMetaData.set_total_parts); [done | simpl; tauto | done].
Qed.

Lemma MamodelIntsInts_apply_csv_count index csv i :
  MamodelIntsInts.total_ints (fst (MamodelIntsInts.apply_csv index csv i))
  = Some (len (MamodelIntsInts.ints i)) /\
  CSV.cell (snd (MamodelIntsInts.apply_csv index csv i)) index 0
  = Ok (Cell.of_int (len (MamodelIntsInts.ints i))).
Proof.
  rewrite MamodelIntsInts_apply_csv_eq. cbn [fst snd]. split; [by destruct i|].
  unfold CSV.cell.
  set (i' := MamodelIntsInts.set_total_ints _ i).
  set (csv1 := Modification.apply_csv_fields MamodelIntsInts.fields i' _).
  apply (rows_apply_keeps MamodelInts.fields eq_refl _ (index + 1) csv1); [lia|].
  pose proof (apply_csv_fields_int MamodelIntsInts.fields i'
                (CSV.set_index index csv) (mkField 0 None 0)
                MamodelIntsInts.total_ints MamodelIntsInts.set_total_ints
                (len (MamodelIntsInts.ints i)) eq_refl) as H.
  unfold field_row_at in H. cbn [row_index row_offset col_index default
                                 CSV.index CSV.set_index] in H.
  rewrite Nat.add_0_r in H. apply H; [simpl; tauto | done].
Qed.

Lemma UnitAnim_apply_csv_count csv u :
  MaanimMetadata.total_parts (UnitAnim.metadata (fst (UnitAnim.apply_csv csv u)))
  = Some (len (UnitAnim.parts u)) /\
  CSV.cell (snd (UnitAnim.apply_csv csv u)) 2 0
  = Ok (Cell.of_int (len (UnitAnim.parts u))).
Proof.
  split; [rewrite UnitAnim_apply_csv_fst; by destruct (UnitAnim.metadata u)|].
  unfold UnitAnim.apply_csv, MaanimMetadata.apply_csv.
  cbn [UnitAnim.parts UnitAnim.set_metadata].
  set (md := MaanimMetadata.set_total_parts _ _).
  set (csv1 := Modification.apply_csv_fields MaanimMetadata.fields md csv).
  pose proof (apply_parts_keeps 3 (UnitAnim.parts u) csv1) as Hk.
  destruct (UnitAnim.apply_parts 3 (UnitAnim.parts u) csv1)
    as [[ps' csv2] next].
  cbn [fst snd] in *. unfold CSV.cell. apply Hk; [lia|].
  apply (apply_csv_fields_int MaanimMetadata.fields md csv
           (mkField 0 (Some 2) 0) MaanimMetadata.total_parts
           MaanimMetadata.set_total_parts); [done | simpl; tauto | done].
Qed.

(** C5 (count re-derivation).  Whatever count a record holds, [apply_csv]
    sets the count attribute to the length of the list and leaves that
    number in the count's cell of the table: [total_rects] in row 3 for a
    [Texture], [total_keyframes] in the row after the cursor for a
    [KeyFrames] block, [total_parts] in row 2 for a [Mamodel] and for a
    [UnitAnim], [total_ints] in the cursor's row for the "ints" of a
    model. *)
Theorem count_rederived :
  (forall csv t,
     TextureMetadata.total_rects
       (Texture.metadata (fst (Texture.apply_csv csv t)))
     = Some (len (Texture.rects t)) /\
     CSV.cell (snd (Texture.apply_csv csv t)) 3 0
     = Ok (Cell.of_int (len (Texture.rects t)))) /\
  (forall index csv p,
     KeyFrames.total_keyframes (fst (fst (KeyFrames.apply_csv index csv p)))
     = Some (len (KeyFrames.keyframes p)) /\
     CSV.cell (snd (fst (KeyFrames.apply_csv index csv p))) (index + 1) 0
     = Ok (Cell.of_int (len (KeyFrames.keyframes p)))) /\
  (forall csv m,
     MamodelMetaData.total_parts
       (Mamodel.metadata (fst (Mamodel.apply_csv csv m)))
     = Some (len (Mamodel.parts m)) /\
     CSV.cell (snd (Mamodel.apply_csv csv m)) 2 0
     = Ok (Cell.of_int (len (Mamodel.parts m)))) /\
  (forall csv u,
     MaanimMetadata.total_parts
       (UnitAnim.metadata (fst (UnitAnim.apply_csv csv u)))
     = Some (len (UnitAnim.parts u)) /\
     CSV.cell (snd (UnitAnim.apply_csv csv u)) 2 0
     = Ok (Cell.of_int (len (UnitAnim.parts u)))) /\
  (forall index csv i,
     MamodelIntsInts.total_ints (fst (MamodelIntsInts.apply_csv index csv i))
     = Some (len (MamodelIntsInts.ints i)) /\
     CSV.cell (snd (MamodelIntsInts.apply_csv index csv i)) index 0
     = Ok (Cell.of_int (len (MamodelIntsInts.ints i)))).
Proof.
  split; [exact Texture_apply_csv_count|].
  split; [exact KeyFrames_apply_csv_count|].
  split; [exact Mamodel_apply_csv_count|].
  split; [exact UnitAnim_apply_csv_count | exact MamodelIntsInts_apply_csv_count].
Qed.


(* ===================================================================== *)
(** * Schema round trip                                                   *)
(* ===================================================================== *)

Lemma keyframes_refreshed_id p :
  KeyFrames.total_keyframes p = Some (len (KeyFrames.keyframes p)) ->
  keyframes_refreshed p = p.
Proof. destruct p. cbn. by intros ->. Qed.

Lemma UnitAnim_apply_csv_counts csv u :
  unit_anim_counts (fst (UnitAnim.apply_csv csv u)) /\
  (unit_anim_counts u -> fst (UnitAnim.apply_csv csv u) = u).
Proof.
  rewrite UnitAnim_apply_csv_fst. split.
  - split; cbn [UnitAnim.metadata UnitAnim.parts].
    + unfold len. rewrite length_map. by destruct (UnitAnim.metadata u).
    + apply Forall_forall. intros p Hp.
      apply list_elem_of_In, in_map_iff in Hp as [q [<- _]]. by destruct q.
  - intros [Hmd Hps]. destruct u as [md ps nm]. cbn in *. f_equal.
    + destruct md. cbn in *. by rewrite Hmd.
    + clear Hmd. induction Hps as [|p ps Hp _ IH]; [done|].
      simpl. rewrite keyframes_refreshed_id by exact Hp. by rewrite IH.
Qed.

Lemma Mamodel_apply_csv_counts csv m :
  mamodel_counts (fst (Mamodel.apply_csv csv m)) /\
  (mamodel_counts m -> fst (Mamodel.apply_csv csv m) = m).
Proof.
  rewrite Mamodel_apply_csv_eq. cbv zeta. cbn [fst].
  rewrite MamodelIntsInts_apply_csv_eq. cbn [fst]. split.
  - split; cbn [Mamodel.metadata Mamodel.parts Mamodel.ints].
    + by destruct (Mamodel.metadata m).
    + by destruct (Mamodel.ints m).
  - intros [Hmd Hints]. destruct m as [md ps un it nm]. cbn in *. f_equal.
    + destruct md. cbn in *. by rewrite Hmd.
    + destruct it. cbn in *. by rewrite Hints.
Qed.

(** C7, as stated, fails on two counts.  The name of a [UnitAnim] is no
    part of its table: read into a new [UnitAnim] the sample animation
    comes back without it.  And a record with an attribute that is not set
    does not come back at all: nothing is written for the attribute, and
    reading its cell fails. *)
Lemma round_trip_loses_name_and_unset_attributes :
  (exists r csv',
     UnitAnim.read_csv (snd (UnitAnim.apply_csv CSV.new sample_anim))
       UnitAnim.new = Ok (r, csv') /\
     UnitAnim.name r = None /\
     UnitAnim.name (fst (UnitAnim.apply_csv CSV.new sample_anim))
     = Some "000_f02.maanim"%string) /\
  UnitAnim.read_csv (snd (UnitAnim.apply_csv CSV.new UnitAnim.new))
    UnitAnim.new = Err OutOfBounds.
Proof.
  split; [|reflexivity].
  eexists. eexists. split; [lazy; reflexivity|]. split; reflexivity.
Qed.

(** C7 (schema round trip), amended.  For a [UnitAnim] and for a
    [Mamodel] whose table-bound attributes are all set, writing the record
    with [apply_csv] into any table (the empty one included) and reading
    that table back with [read_csv] gives the record as [apply_csv] left
    it, except for the name, which the table does not carry and which is
    the reader's.  The record [apply_csv] leaves has every count equal to
    the length of its list, and is the original when the original's counts
    were so. *)
Theorem schema_round_trip :
  (forall csv u r0,
     unit_anim_complete u = true ->
     (exists csv',
        UnitAnim.read_csv (snd (UnitAnim.apply_csv csv u)) r0
        = Ok (UnitAnim.set_name (UnitAnim.name r0)
                (fst (UnitAnim.apply_csv csv u)), csv')) /\
     unit_anim_counts (fst (UnitAnim.apply_csv csv u)) /\
     (unit_anim_counts u -> fst (UnitAnim.apply_csv csv u) = u)) /\
  (forall csv m r0,
     mamodel_complete m = true ->
     (exists csv',
        Mamodel.read_csv (snd (Mamodel.apply_csv csv m)) r0
        = Ok (Mamodel.set_mamodel_name (Mamodel.mamodel_name r0)
                (fst (Mamodel.apply_csv csv m)), csv')) /\
     mamodel_counts (fst (Mamodel.apply_csv csv m)) /\
     (mamodel_counts m -> fst (Mamodel.apply_csv csv m) = m)).
Proof.
  split.
  - intros csv u r0 Hc. split; [by apply UnitAnim_round_trip|].
    apply UnitAnim_apply_csv_counts.
  - intros csv m r0 Hc. split; [by apply Mamodel_round_trip|].
    apply Mamodel_apply_csv_counts.
Qed.

Lemma schema_round_trip_witness :
  unit_anim_complete sample_anim = true /\
  mamodel_complete sample_mamodel = true /\
  (exists csv',
     UnitAnim.read_csv (snd (UnitAnim.apply_csv CSV.new sample_anim))
       (UnitAnim.set_name (UnitAnim.name sample_anim) UnitAnim.new)
     = Ok (UnitAnim.set_name (UnitAnim.name sample_anim)
             (fst (UnitAnim.apply_csv CSV.new sample_anim)), csv')) /\
  (exists csv',
     Mamodel.read_csv (snd (Mamodel.apply_csv CSV.new sample_mamodel))
       Mamodel.new
     = Ok (Mamodel.set_mamodel_name None
             (fst (Mamodel.apply_csv CSV.new sample_mamodel)), csv')).
Proof.
  split; [reflexivity|]. split; [reflexivity|]. split.
  - exact (proj1 (proj1 schema_round_trip CSV.new sample_anim
                    (UnitAnim.set_name (UnitAnim.name sample_anim) UnitAnim.new)
                    eq_refl)).
  - exact (proj1 (proj2 schema_round_trip CSV.new sample_mamodel
                    Mamodel.new eq_refl)).
Defined.


(* ===================================================================== *)
(** * Removing and inserting in any key-consistent shop                   *)
(* ===================================================================== *)

Local Open Scope Z_scope.

(** [remove_item] at a key the shop has, whatever the other keys are. *)
Lemma remove_item_spec (s : Shop) i r :
  wf (items s) -> key_consistent s -> get (items s) i = Some r ->
  let s' := fst (remove_item i s) in
  snd (remove_item i s) = Returned /\
  wf (items s') /\ key_consistent s' /\
  (forall k, get (items s') k = get (items s) (if k <? i then k else k + 1)) /\
  (forall k r', get (items s') k = Some r' ->
                heap s' r' = set_shop_id k (heap s r')) /\
  (forall r', (forall k, k <> i -> get (items s) k <> Some r') ->
              heap s' r' = heap s r').
Proof.
  intros Hwf Hkc Hri.
  unfold remove_item. rewrite Hri. cbn [fst snd].
  destruct s as [h d]. unfold key_consistent in *. cbn [heap items] in *.
  assert (Hget1 : forall k r0, get (remove d i) k = Some r0 <->
                               get d k = Some r0 /\ k <> i).
  { intros k r0. rewrite !get_In_iff by (done || by apply wf_remove).
    by apply In_remove. }
  destruct (shift_items_spec h (remove d i) (i + 1) (-1))
    as (Hwf' & Hget' & Hheap' & Hframe).
  - by apply wf_remove.
  - intros k r0 Hget. apply Hget1 in Hget as [Hget _]. by apply Hkc.
  - intros k1 k2 Hk1 Hk2. unfold shifted_key.
    assert (Hne : forall k, In k (keys (remove d i)) -> k <> i).
    { intros k Hin Heq. subst k.
      destruct (get (remove d i) i) eqn:E.
      - apply Hget1 in E as [_ E]. done.
      - by apply get_None_keys in E. }
    apply Hne in Hk1, Hk2.
    destruct (Z.leb_spec (i + 1) k1), (Z.leb_spec (i + 1) k2); lia.
  - assert (Hitems : forall k,
      get (items (shift_items (i + 1) (-1) (mkShop h (remove d i)))) k =
      get d (if k <? i then k else k + 1)).
    { intros k. apply option_ext. intros r0. rewrite Hget'. split.
      - intros [k0 [Hget Hk]]. apply Hget1 in Hget as [Hget Hne].
        unfold shifted_key in Hk.
        destruct (Z.leb_spec (i + 1) k0), (Z.ltb_spec k i); try lia.
        * by replace (k + 1) with k0 by lia.
        * by replace k with k0 by lia.
      - intros Hget. exists (if k <? i then k else k + 1). split.
        + apply Hget1. split; [done|]. destruct (Z.ltb_spec k i); lia.
        + unfold shifted_key.
          destruct (Z.ltb_spec k i);
            destruct (Z.leb_spec (i + 1) k), (Z.leb_spec (i + 1) (k + 1)); lia. }
    split; [done|]. split; [exact Hwf'|]. split.
    { intros k r0 Hget. rewrite (Hheap' _ _ Hget). reflexivity. }
    split; [exact Hitems|]. split; [exact Hheap'|].
    intros r' Hr'. apply Hframe. intros Hin.
    apply In_values in Hin as [k Hin].
    apply In_get in Hin; [|by apply wf_remove].
    apply Hget1 in Hin as [Hin Hne]. by apply (Hr' k).
Qed.

(** [insert_item] of an object the shop does not hold, whatever the keys
    are. *)
Lemma insert_item_spec (s : Shop) i r :
  wf (items s) -> key_consistent s -> ~ stored r s ->
  let s' := insert_item i r s in
  wf (items s') /\ key_consistent s' /\
  get (items s') i = Some r /\
  (forall k, k <> i ->
     get (items s') k = get (items s) (if k <? i then k else k - 1)) /\
  (forall k r', get (items s') k = Some r' ->
                heap s' r' = set_shop_id k (heap s r')) /\
  (forall r', ~ stored r' s -> r' <> r -> heap s' r' = heap s r').
Proof.
  intros Hwf Hkc Hnew. unfold stored in *.
  destruct s as [h d]. unfold key_consistent in *. cbn [heap items] in *.
  destruct (shift_items_spec h d i 1) as (Hwf1 & Hget1 & Hheap1 & Hframe1);
    [done | done | |].
  { intros k1 k2 _ _. unfold shifted_key.
    destruct (Z.leb_spec i k1), (Z.leb_spec i k2); lia. }
  unfold insert_item, set_item.
  set (s1 := shift_items i 1 (mkShop h d)) in *. cbn [heap items].
  assert (Hold : forall k, k <> i ->
            get (items s1) k = get d (if k <? i then k else k - 1)).
  { intros k Hk. apply option_ext. intros r'. rewrite Hget1. split.
    - intros [k0 [Hget Hk0]]. unfold shifted_key in Hk0.
      destruct (Z.leb_spec i k0), (Z.ltb_spec k i); try lia.
      + by replace (k - 1) with k0 by lia.
      + by replace k with k0 by lia.
    - intros Hget. exists (if k <? i then k else k - 1). split; [done|].
      unfold shifted_key.
      destruct (Z.ltb_spec k i);
        destruct (Z.leb_spec i k), (Z.leb_spec i (k - 1)); lia. }
  assert (Hnotin1 : forall k, get (items s1) k <> Some r).
  { intros k Hget. apply Hget1 in Hget as [k0 [Hget _]].
    apply Hnew. apply In_values. exists k0. by apply get_Some_In. }
  assert (Hheap : forall k r',
            get (set (items s1) i r) k = Some r' ->
            upd (heap s1) r (set_shop_id i (heap s1 r)) r' =
              set_shop_id k (h r')).
  { intros k r' Hget. destruct (Z.eq_dec i k) as [<-|Hne].
    - rewrite get_set_eq in Hget. injection Hget as <-.
      rewrite upd_eq. by rewrite (Hframe1 r Hnew).
    - rewrite get_set_ne in Hget by done.
      rewrite upd_ne by (intros ->; by apply (Hnotin1 k)).
      by apply Hheap1. }
  split; [by apply wf_set|]. split.
  { intros k r' Hget. by rewrite (Hheap _ _ Hget). }
  split; [apply get_set_eq|]. split.
  { intros k Hk. rewrite get_set_ne by done. by apply Hold. }
  split; [exact Hheap|].
  intros r' Hr' Hne. rewrite upd_ne by done. by apply Hframe1.
Qed.

(** An object found under a key is stored. *)
Lemma get_stored (s : Shop) k r : get (items s) k = Some r -> stored r s.
Proof.
  intros Hget. unfold stored. apply In_values. exists k.
  by apply get_Some_In.
Qed.

Lemma stored_get (s : Shop) r :
  wf (items s) -> stored r s -> exists k, get (items s) k = Some r.
Proof.
  unfold stored. intros Hwf Hin. apply In_values in Hin as [k Hin].
  exists k. by apply In_get.
Qed.

(** X4.  [remove_item] on any shop whose keys are the [shop_id]s of its
    items, contiguous or not: at an id the shop does not have it raises
    [KeyError] and changes nothing; at an id it has it returns, every
    entry before the id stays, every entry after it moves one key down
    (no entry is lost, none comes twice), and the objects still stored
    differ from what they were by their [shop_id] only. *)
Theorem remove_item_any_shop (s : Shop) (i : Z) :
  wf (items s) -> key_consistent s ->
  (get (items s) i = None -> remove_item i s = (s, Raised KeyError)) /\
  (is_Some (get (items s) i) ->
     snd (remove_item i s) = Returned /\
     wf (items (fst (remove_item i s))) /\
     key_consistent (fst (remove_item i s)) /\
     (forall k, get (items (fst (remove_item i s))) k
                = get (items s) (if k <? i then k else k + 1)) /\
     (forall k r, get (items (fst (remove_item i s))) k = Some r ->
                  heap (fst (remove_item i s)) r = set_shop_id k (heap s r))).
Proof.
  intros Hwf Hkc. split.
  - intros Hnone. unfold remove_item. by rewrite Hnone.
  - intros [r Hr].
    destruct (remove_item_spec s i r Hwf Hkc Hr) as (H1 & H2 & H3 & H4 & H5 & _).
    auto.
Qed.

Lemma remove_item_any_shop_witness :
  let h : Heap := fun r => mkItem (Z.of_nat r * 10) 7 1 100 false "XP" 0 in
  let s := mkShop h [(0, 0%nat); (20, 2%nat); (50, 5%nat)] in
  remove_item 30 s = (s, Raised KeyError) /\
  get (items (fst (remove_item 20 s))) 49 = Some 5%nat.
Proof.
  cbv zeta.
  set (h := fun r : ref => mkItem (Z.of_nat r * 10) 7 1 100 false "XP" 0).
  set (s := mkShop h [(0, 0%nat); (20, 2%nat); (50, 5%nat)]).
  assert (Hwf : wf (items s)).
  { unfold wf. simpl.
    repeat (constructor; [rewrite list_elem_of_In; simpl; intuition lia|]).
    constructor. }
  assert (Hkc : key_consistent s).
  { intros k r Hget. apply get_Some_In in Hget. simpl in Hget.
    destruct Hget as [[= <- <-]|[[= <- <-]|[[= <- <-]|[]]]]; reflexivity. }
  split.
  - exact (proj1 (remove_item_any_shop s 30 Hwf Hkc) eq_refl).
  - rewrite (proj1 (proj2 (proj2 (proj2
               (proj2 (remove_item_any_shop s 20 Hwf Hkc)
                  (ex_intro _ 2%nat eq_refl))))) 49).
    reflexivity.
Defined.

(** X5.  Inserting an object the shop does not hold and removing at the
    same id again gives back the dictionary and leaves every stored item
    as it was; the object passed in keeps the [shop_id] it was given. *)
Theorem insert_then_remove (s : Shop) (i : Z) (r : ref) :
  wf (items s) -> key_consistent s -> ~ stored r s ->
  snd (remove_item i (insert_item i r s)) = Returned /\
  (forall k, get (items (fst (remove_item i (insert_item i r s)))) k
             = get (items s) k) /\
  (forall r', r' <> r ->
     heap (fst (remove_item i (insert_item i r s))) r' = heap s r') /\
  heap (fst (remove_item i (insert_item i r s))) r = set_shop_id i (heap s r).
Proof.
  intros Hwf Hkc Hnew.
  destruct (insert_item_spec s i r Hwf Hkc Hnew)
    as (Hwf1 & Hkc1 & Hi1 & Hold1 & Hheap1 & Hframe1).
  set (s1 := insert_item i r s) in *.
  destruct (remove_item_spec s1 i r Hwf1 Hkc1 Hi1)
    as (Hret & Hwf2 & Hkc2 & Hget2 & Hheap2 & Hframe2).
  set (s2 := fst (remove_item i s1)) in *.
  assert (Hitems : forall k, get (items s2) k = get (items s) k).
  { intros k. rewrite Hget2.
    destruct (Z.ltb_spec k i).
    - rewrite Hold1 by lia. by destruct (Z.ltb_spec k i); [|lia].
    - rewrite Hold1 by lia. destruct (Z.ltb_spec (k + 1) i); [lia|].
      f_equal. lia. }
  split; [done|]. split; [exact Hitems|]. split.
  - intros r' Hne.
    destruct (in_dec Nat.eq_dec r' (values (items s))) as [Hst|Hst].
    + apply stored_get in Hst as [k Hk]; [|done].
      assert (Hk2 : get (items s2) k = Some r') by (by rewrite Hitems).
      rewrite (Hheap2 _ _ Hk2).
      assert (Hk1 : exists k1, get (items s1) k1 = Some r').
      { rewrite Hget2 in Hk2. eauto. }
      destruct Hk1 as [k1 Hk1]. rewrite (Hheap1 _ _ Hk1).
      rewrite <- (Hkc _ _ Hk). by destruct (heap s r').
    + rewrite Hframe2.
      * by apply Hframe1.
      * intros k Hk Hget. destruct (Z.eq_dec k i) as [->|Hki]; [done|].
        rewrite Hold1 in Hget by done. apply Hst. by eapply get_stored.
  - rewrite Hframe2.
    + rewrite (Hheap1 _ _ Hi1). done.
    + intros k Hk Hget. rewrite Hold1 in Hget by done.
      apply Hnew. by eapply get_stored.
Qed.

Lemma insert_then_remove_witness :
  let h : Heap := fun r => mkItem (Z.of_nat r) 7 1 100 false "XP" 0 in
  let s := mkShop h [(0, 0%nat); (1, 1%nat); (2, 2%nat)] in
  get (items (fst (remove_item 1 (insert_item 1 9%nat s)))) 1 = Some 1%nat.
Proof.
  cbv zeta.
  set (h := fun r : ref => mkItem (Z.of_nat r) 7 1 100 false "XP" 0).
  set (s := mkShop h [(0, 0%nat); (1, 1%nat); (2, 2%nat)]).
  assert (Hs : snapshot 3 s).
  { apply (snapshot_of_entries h [(0, 0%nat); (1, 1%nat); (2, 2%nat)]);
      reflexivity. }
  destruct Hs as (Hwf & Hkc & _).
  rewrite (proj1 (proj2 (insert_then_remove s 1 9%nat Hwf Hkc
                           ltac:(unfold stored; simpl; lia))) 1).
  reflexivity.
Defined.

(** X6.  Removing the item at an id and inserting that very object at the
    same id again restores the shop: the same entries under the same
    keys, and every object as it was. *)
Theorem remove_then_insert (s : Shop) (i : Z) (r : ref) :
  wf (items s) -> key_consistent s -> get (items s) i = Some r ->
  (forall k, get (items (insert_item i r (fst (remove_item i s)))) k
             = get (items s) k) /\
  (forall r', heap (insert_item i r (fst (remove_item i s))) r' = heap s r').
Proof.
  intros Hwf Hkc Hi.
  destruct (remove_item_spec s i r Hwf Hkc Hi)
    as (_ & Hwf1 & Hkc1 & Hget1 & Hheap1 & Hframe1).
  set (s1 := fst (remove_item i s)) in *.
  assert (Hnodup : forall k, get (items s) k = Some r -> k = i).
  { intros k Hk. rewrite <- (Hkc _ _ Hk). exact (Hkc _ _ Hi). }
  assert (Hnew : ~ stored r s1).
  { intros Hst. apply stored_get in Hst as [k Hk]; [|done].
    rewrite Hget1 in Hk. apply Hnodup in Hk.
    destruct (Z.ltb_spec k i); lia. }
  destruct (insert_item_spec s1 i r Hwf1 Hkc1 Hnew)
    as (Hwf2 & Hkc2 & Hi2 & Hold2 & Hheap2 & Hframe2).
  set (s2 := insert_item i r s1) in *.
  assert (Hitems : forall k, get (items s2) k = get (items s) k).
  { intros k. destruct (Z.eq_dec k i) as [->|Hne]; [congruence|].
    rewrite Hold2 by done. rewrite Hget1.
    destruct (Z.ltb_spec k i).
    - by destruct (Z.ltb_spec k i); [|lia].
    - destruct (Z.ltb_spec (k - 1) i); [lia|]. f_equal. lia. }
  split; [exact Hitems|].
  assert (Hr1 : heap s1 r = heap s r).
  { apply Hframe1. intros k Hk Hget. apply Hk. by apply Hnodup. }
  intros r'. destruct (in_dec Nat.eq_dec r' (values (items s))) as [Hst|Hst].
  - apply stored_get in Hst as [k Hk]; [|done].
    assert (Hk2 : get (items s2) k = Some r') by (by rewrite Hitems).
    rewrite (Hheap2 _ _ Hk2).
    destruct (decide (r' = r)) as [->|Hne].
    + rewrite Hr1. rewrite <- (Hkc _ _ Hk). by destruct (heap s r).
    + assert (Hk1 : exists k1, get (items s1) k1 = Some r').
      { destruct (Z.eq_dec k i) as [->|Hki]; [congruence|].
        rewrite Hold2 in Hk2 by done. eauto. }
      destruct Hk1 as [k1 Hk1]. rewrite (Hheap1 _ _ Hk1).
      rewrite <- (Hkc _ _ Hk). by destruct (heap s r').
  - assert (Hne : r' <> r) by (intros ->; apply Hst; by eapply get_stored).
    rewrite Hframe2; [| |done].
    + apply Hframe1. intros k _ Hget. apply Hst. by eapply get_stored.
    + intros Hst1. apply Hst. apply stored_get in Hst1 as [k Hk]; [|done].
      rewrite Hget1 in Hk. by eapply get_stored.
Qed.

Lemma remove_then_insert_witness :
  let h : Heap := fun r => mkItem (Z.of_nat r) 7 1 100 false "XP" 0 in
  let s := mkShop h [(0, 0%nat); (1, 1%nat); (2, 2%nat)] in
  get (items (insert_item 1 1%nat (fst (remove_item 1 s)))) 2 = Some 2%nat.
Proof.
  cbv zeta.
  set (h := fun r : ref => mkItem (Z.of_nat r) 7 1 100 false "XP" 0).
  set (s := mkShop h [(0, 0%nat); (1, 1%nat); (2, 2%nat)]).
  assert (Hs : snapshot 3 s).
  { apply (snapshot_of_entries h [(0, 0%nat); (1, 1%nat); (2, 2%nat)]);
      reflexivity. }
  destruct Hs as (Hwf & Hkc & _).
  rewrite (proj1 (remove_then_insert s 1 1%nat Hwf Hkc eq_refl) 2).
  reflexivity.
Defined.


(* ===================================================================== *)
(** * What [from_game_data] returns                                       *)
(* ===================================================================== *)

Lemma keys_set {V : Type} (d : dict V) k k' v :
  In k' (keys (set d k v)) <-> k' = k \/ In k' (keys d).
Proof.
  induction d as [|[k0 v0] d IH]; simpl.
  - split; [intros [->|[]]; auto | intros [->|[]]; auto].
  - destruct (Z.eqb_spec k0 k) as [->|Hne]; simpl.
    + intuition congruence.
    + rewrite IH. intuition congruence.
Qed.

(** The loop of [from_game_data] keeps the dictionary keyed by [shop_id],
    and its keys are those of the accumulator and the ids of the lines. *)
Lemma read_items_inv ls acc its :
  read_items ls acc = Ok its ->
  (wf acc -> wf its) /\
  ((forall k it, get acc k = Some it -> shop_id it = k) ->
   forall k it, get its k = Some it -> shop_id it = k) /\
  (forall k, In k (keys its) <->
             In k (keys acc) \/
             exists l it, In l ls /\ item_of_line l = Ok it /\ shop_id it = k).
Proof.
  revert acc. induction ls as [|l ls IH]; intros acc Hread.
  - cbn in Hread. injection Hread as <-.
    split; [done|]. split; [done|]. intros k. split; [auto|].
    intros [H|(l & it & [] & _)]. done.
  - cbn [read_items] in Hread.
    destruct (item_of_line l) as [it0|e] eqn:El; [|done]. cbn in Hread.
    destruct (IH _ Hread) as (Hwf & Hkc & Hkeys).
    split; [|split].
    + intros Hacc. apply Hwf. by apply wf_set.
    + intros Hacc. apply Hkc. intros k it.
      destruct (Z.eq_dec (shop_id it0) k) as [<-|Hne].
      * rewrite get_set_eq. by intros [= <-].
      * rewrite get_set_ne by done. apply Hacc.
    + intros k. rewrite Hkeys, keys_set. split.
      * intros [[->|H]|(l' & it & Hin & Hl & Hk)].
        -- right. exists l, it0. split; [by left | done].
        -- by left.
        -- right. exists l', it. split; [by right | done].
      * intros [H|(l' & it & [<-|Hin] & Hl & Hk)].
        -- left. by right.
        -- left. left. congruence.
        -- right. exists l', it. done.
Qed.

(** X7.  Whatever the file holds, the shop [from_game_data] returns is
    keyed by [shop_id]: its keys are pairwise different, the item under a
    key has that key as its [shop_id], and the keys are exactly the ids in
    the first cell of the lines after the header. *)
Theorem from_game_data_keyed_by_shop_id lines d :
  from_game_data (Some lines) = Ok d ->
  wf (decoded_items d) /\
  (forall k it, get (decoded_items d) k = Some it -> shop_id it = k) /\
  (forall k, In k (keys (decoded_items d)) <->
             exists l it, In l (tail lines) /\ item_of_line l = Ok it
                          /\ shop_id it = k).
Proof.
  unfold from_game_data. intros Hdec.
  destruct (read_items (tail lines) []) as [its|e] eqn:E; [|done].
  cbn in Hdec. injection Hdec as <-. cbn [decoded_items].
  destruct (read_items_inv _ _ _ E) as (Hwf & Hkc & Hkeys).
  split; [apply Hwf; constructor|]. split; [by apply Hkc|].
  intros k. rewrite Hkeys. simpl. tauto.
Qed.

Lemma from_game_data_keyed_by_shop_id_witness :
  let lines :=
    [ ["shop_id"; "item"; "count"; "price"; "draw"; "category"; "rect"];
      ["3"; "1"; "1"; "100"; "0"; "Battle Items"; "0"];
      ["8"; "2"; "5"; "150"; "1"; "XP"; "4"] ]%string in
  let d := mkDecoded [(3, mkItem 3 1 1 100 false "Battle Items" 0);
                      (8, mkItem 8 2 5 150 true "XP" 4)] [] in
  from_game_data (Some lines) = Ok d /\
  wf (decoded_items d) /\
  forall k it, get (decoded_items d) k = Some it -> shop_id it = k.
Proof.
  cbv zeta. split; [reflexivity|].
  pose proof (from_game_data_keyed_by_shop_id
    [ ["shop_id"; "item"; "count"; "price"; "draw"; "category"; "rect"];
      ["3"; "1"; "1"; "100"; "0"; "Battle Items"; "0"];
      ["8"; "2"; "5"; "150"; "1"; "XP"; "4"] ]%string
    (mkDecoded [(3, mkItem 3 1 1 100 false "Battle Items" 0);
                (8, mkItem 8 2 5 150 true "XP" 4)] [])
    eq_refl) as H.
  split; [exact (proj1 H) | exact (proj1 (proj2 H))].
Defined.

(** A line raises [IndexError] or [ValueError], nothing else. *)
Lemma item_of_line_error line e :
  item_of_line line = Err e -> e = IndexError \/ e = ValueError.
Proof.
  unfold item_of_line, nth_cell, or_raise. cbn.
  repeat (case_match; cbn; try discriminate);
    intros [= <-]; auto.
Qed.

Lemma read_items_error ls acc e :
  read_items ls acc = Err e -> e = IndexError \/ e = ValueError.
Proof.
  revert acc. induction ls as [|l ls IH]; intros acc; [done|].
  cbn [read_items]. destruct (item_of_line l) as [it|e0] eqn:El; cbn.
  - apply IH.
  - intros [= <-]. by eapply item_of_line_error.
Qed.

(** A line of fewer than seven cells does not decode. *)
Lemma item_of_line_short line :
  (length line < 7)%nat -> exists e, item_of_line line = Err e.
Proof.
  intros Hlen. unfold item_of_line, nth_cell, or_raise.
  destruct line as [|c0 [|c1 [|c2 [|c3 [|c4 [|c5 [|c6 rest]]]]]]];
    [cbn; repeat (case_match; cbn); eauto ..|].
  simpl in Hlen. lia.
Qed.

(** X8.  A file with a line of fewer than seven cells after the header
    does not decode: [from_game_data] raises [IndexError], or
    [ValueError] when a malformed cell is met first. *)
Theorem from_game_data_short_line header before line after :
  (length line < 7)%nat ->
  from_game_data (Some (header :: before ++ line :: after)) = Err IndexError \/
  from_game_data (Some (header :: before ++ line :: after)) = Err ValueError.
Proof.
  intros Hlen.
  assert (H : exists e,
    from_game_data (Some (header :: before ++ line :: after)) = Err e
    /\ (e = IndexError \/ e = ValueError)).
  { unfold from_game_data. cbn [tail]. rewrite read_items_app.
    destruct (read_items before []) as [acc|e] eqn:Eb; cbn.
    - destruct (item_of_line_short line Hlen) as [e He]. rewrite He. cbn.
      exists e. split; [done|]. by eapply item_of_line_error.
    - exists e. split; [done|]. by eapply read_items_error. }
  destruct H as (e & -> & [->| ->]); auto.
Qed.

Lemma from_game_data_short_line_witness :
  from_game_data
    (Some [ ["shop_id"; "item"; "count"; "price"; "draw"; "category"; "rect"];
            ["3"; "1"; "1"; "100"; "0"; "Battle Items"; "0"];
            ["8"; "2"; "5"; "150"; "1"; "XP"] ])%string = Err IndexError.
Proof.
  destruct (from_game_data_short_line
              ["shop_id"; "item"; "count"; "price"; "draw"; "category"; "rect"]%string
              [["3"; "1"; "1"; "100"; "0"; "Battle Items"; "0"]]%string
              ["8"; "2"; "5"; "150"; "1"; "XP"]%string [] ltac:(simpl; lia))
    as [H|H].
  - exact H.
  - discriminate H.
Defined.

(* ===================================================================== *)
(** * What [import_item_shop] never does                                  *)
(* ===================================================================== *)

(** X9.  [import_item_shop] never takes an entry away: an id the shop has
    before the call it has after it, whether the call returns or
    raises. *)
Theorem import_item_shop_keeps_keys order other gd_item_shop s k :
  is_Some (get (items s) k) ->
  is_Some (get (items (fst (import_item_shop order other gd_item_shop s))) k).
Proof.
  unfold import_item_shop. revert s.
  induction order as [|id order IH]; intros s Hk; [done|].
  cbn [import_loop]. unfold get_item.
  destruct (get other id) as [ro|]; [|by apply IH].
  destruct (get gd_item_shop id) as [g|].
  - destruct (merge_attrs attrs ro g (get (items s) id) (heap s)) as [h' [|e]].
    + by apply IH.
    + done.
  - apply IH. unfold set_item. cbn [items].
    destruct (Z.eq_dec id k) as [->|Hne].
    + rewrite get_set_eq. eauto.
    + by rewrite get_set_ne.
Qed.

Lemma import_item_shop_keeps_keys_witness :
  is_Some (get (items (fst (import_item_shop [5; 6] [(5, 1%nat); (6, 2%nat)]
                              [(5, mkItem 5 7 1 100 false "XP" 0)]
                              (mkShop (fun _ => mkItem 5 7 1 100 false "XP" 0)
                                 [(5, 0%nat)])))) 5).
Proof.
  apply import_item_shop_keeps_keys. simpl. eauto.
Defined.

(** X10.  Importing a shop none of whose ids the loop visits -- an empty
    shop, for one -- returns and leaves the shop and every item as they
    were, whatever the game data holds. *)
Theorem import_item_shop_nothing_to_import order other gd_item_shop s :
  (forall id, In id order -> get other id = None) ->
  import_item_shop order other gd_item_shop s = (s, Returned).
Proof.
  unfold import_item_shop. intros Hnone.
  induction order as [|id order IH]; [done|].
  cbn [import_loop]. unfold get_item.
  rewrite (Hnone id) by (by left).
  apply IH. intros id' Hin. apply Hnone. by right.
Qed.

Lemma import_item_shop_nothing_to_import_witness :
  let s := mkShop (fun _ => mkItem 5 7 1 100 false "XP" 0) [(5, 0%nat)] in
  import_item_shop [5] [] [(5, mkItem 5 7 1 100 false "XP" 0)] s
  = (s, Returned).
Proof.
  cbv zeta. apply import_item_shop_nothing_to_import.
  intros id _. reflexivity.
Defined.


(* ===================================================================== *)
(** * Flipping a model                                                    *)
(* ===================================================================== *)

Local Open Scope nat_scope.

Lemma flip_rotation_involutive p :
  ModelPart.flip_rotation (ModelPart.flip_rotation p) = p.
Proof.
  destruct p as [a b c d e f g h i j [r|] k l m];
    cbv -[Z.mul]; [|done].
  do 2 f_equal. lia.
Qed.

Ltac flip_part p index :=
  destruct p as [? ? ? ? ? ? ? ? [?|] [?|] [?|] ? ? ?];
  unfold ModelPart.flip_x, ModelPart.flip_y, ModelPart.flip_rotation;
  destruct (Z.eqb_spec index 0); try done; cbv -[Z.mul]; try done;
  repeat f_equal; lia.

Lemma ModelPart_flip_x_involutive index p :
  ModelPart.flip_x index (ModelPart.flip_x index p) = p.
Proof. flip_part p index. Qed.

Lemma ModelPart_flip_y_involutive index p :
  ModelPart.flip_y index (ModelPart.flip_y index p) = p.
Proof. flip_part p index. Qed.

Lemma ModelPart_flip_commute index p :
  ModelPart.flip_x index (ModelPart.flip_y index p)
  = ModelPart.flip_y index (ModelPart.flip_x index p).
Proof. flip_part p index. Qed.

Lemma ModelPart_flip_both_other index p :
  index <> 0%Z -> ModelPart.flip_y index (ModelPart.flip_x index p) = p.
Proof. intros Hne. flip_part p index. Qed.

(** X11.  [ModelPart.flip_x] and [ModelPart.flip_y] undo themselves,
    commute, and together leave the rotation as it was: of a part of
    index 0 the two of them negate both scales and nothing else, and any
    other part they leave unchanged. *)
Theorem ModelPart_flips :
  (forall index p, ModelPart.flip_x index (ModelPart.flip_x index p) = p) /\
  (forall index p, ModelPart.flip_y index (ModelPart.flip_y index p) = p) /\
  (forall index p,
     ModelPart.flip_x index (ModelPart.flip_y index p)
     = ModelPart.flip_y index (ModelPart.flip_x index p)) /\
  (forall p,
     ModelPart.flip_y 0 (ModelPart.flip_x 0 p)
     = ModelPart.set_scale_y (Z.opp <$> ModelPart.scale_y p)
         (ModelPart.set_scale_x (Z.opp <$> ModelPart.scale_x p) p)) /\
  (forall index p,
     index <> 0%Z ->
     ModelPart.flip_y index (ModelPart.flip_x index p) = p).
Proof.
  split; [exact ModelPart_flip_x_involutive|].
  split; [exact ModelPart_flip_y_involutive|].
  split; [exact ModelPart_flip_commute|].
  split; [|exact ModelPart_flip_both_other].
  intros p. destruct p as [a b c d e f g h [sx|] [sy|] [r|] k l n];
    cbv -[Z.mul Z.opp]; repeat f_equal; lia.
Qed.

Lemma Store_set_eq {A : Type} (h : Store.t A) r a : Store.set h r a r = a.
Proof. unfold Store.set. by rewrite Nat.eqb_refl. Qed.

Lemma Store_set_ne {A : Type} (h : Store.t A) r r' a :
  r' <> r -> Store.set h r a r' = h r'.
Proof.
  intros Hne. unfold Store.set. by destruct (Nat.eqb_spec r' r).
Qed.

(** A loop over a list of references changes an object once for every
    time the list has it. *)
Lemma for_each_iter {A : Type} (f : A -> A) refs (h : Store.t A) r :
  Store.for_each f refs h r
  = Nat.iter (count_occ Nat.eq_dec refs r) f (h r).
Proof.
  revert h. induction refs as [|r0 refs IH]; intros h; [done|].
  cbn [Store.for_each count_occ]. rewrite IH.
  destruct (Nat.eq_dec r0 r) as [->|Hne].
  - by rewrite Store_set_eq, Nat.iter_succ_r.
  - by rewrite Store_set_ne by done.
Qed.

Lemma iter_involutive {A : Type} (f : A -> A) n x :
  (forall y, f (f y) = y) -> Nat.iter n f (Nat.iter n f x) = x.
Proof.
  intros Hf. induction n as [|n IH]; [done|].
  rewrite Nat.iter_succ_r, Nat.iter_succ, Hf. exact IH.
Qed.

Lemma iter_commute {A : Type} (f g : A -> A) n x :
  (forall y, f (g y) = g (f y)) -> Nat.iter n f (g x) = g (Nat.iter n f x).
Proof.
  intros Hfg. induction n as [|n IH]; [done|].
  by rewrite !Nat.iter_succ, IH, Hfg.
Qed.

Lemma iter_add {A : Type} (f : A -> A) n m x :
  Nat.iter (n + m) f x = Nat.iter n f (Nat.iter m f x).
Proof.
  induction n as [|n IH]; [done|].
  change (S n + m) with (S (n + m)). by rewrite !Nat.iter_succ, IH.
Qed.

Lemma flip_keyframe_involutive kf :
  KeyFrames.flip_keyframe (KeyFrames.flip_keyframe kf) = kf.
Proof.
  destruct kf as [a [v|] c d]; cbv -[Z.opp]; [|done]. do 2 f_equal. lia.
Qed.

Lemma flip_keyframe_iter n kf :
  Nat.iter n KeyFrames.flip_keyframe kf
  = if Nat.even n then kf
    else KeyFrame.set_change_in_value
           (Z.opp <$> KeyFrame.change_in_value kf) kf.
Proof.
  induction n as [|n IH]; [done|].
  rewrite Nat.iter_succ, IH, Nat.even_succ, <- Nat.negb_even.
  destruct (Nat.even n); destruct kf as [a [v|] c d]; cbv -[Z.opp];
    try done.
  do 2 f_equal. lia.
Qed.

(** The number of times [KeyFrames.flip] negates the keyframe [r]. *)
Lemma KeyFrames_flip_iter p h r :
  KeyFrames.flip p h r
  = Nat.iter (if bool_decide (KeyFrames.refs_modification_type p <> Some 11%Z)
              then 0 else count_occ Nat.eq_dec (KeyFrames.refs_keyframes p) r)
             KeyFrames.flip_keyframe (h r).
Proof.
  unfold KeyFrames.flip.
  change (AnimModificationType.value AnimModificationType.ANGLE) with 11%Z.
  case_bool_decide; [done|]. apply for_each_iter.
Qed.

(** X12.  [KeyFrames.flip] leaves the keyframes alone when the
    modification type of the block is not [ANGLE] (11).  Of an [ANGLE]
    block it changes the keyframe objects the block lists and of them
    only [change_in_value], which it negates once for every time the
    object is listed: an object listed an odd number of times comes out
    negated, any other keyframe as it was.  Flipping twice gives every
    keyframe back. *)
Theorem KeyFrames_flip_spec :
  (forall p h,
     KeyFrames.refs_modification_type p <> Some 11%Z ->
     KeyFrames.flip p h = h) /\
  (forall p h r,
     KeyFrame.set_change_in_value (KeyFrame.change_in_value (h r))
       (KeyFrames.flip p h r) = h r) /\
  (forall p h r,
     KeyFrames.refs_modification_type p = Some 11%Z ->
     KeyFrame.change_in_value (KeyFrames.flip p h r)
     = if Nat.even (count_occ Nat.eq_dec (KeyFrames.refs_keyframes p) r)
       then KeyFrame.change_in_value (h r)
       else Z.opp <$> KeyFrame.change_in_value (h r)) /\
  (forall p h r, KeyFrames.flip p (KeyFrames.flip p h) r = h r).
Proof.
  split; [|split; [|split]].
  - intros p h Hm. unfold KeyFrames.flip.
    change (AnimModificationType.value AnimModificationType.ANGLE) with 11%Z.
    by rewrite bool_decide_true.
  - intros p h r. rewrite KeyFrames_flip_iter, flip_keyframe_iter.
    destruct (Nat.even _); by destruct (h r).
  - intros p h r Hm. rewrite KeyFrames_flip_iter, flip_keyframe_iter.
    rewrite bool_decide_false by (intros H; by apply H).
    destruct (Nat.even _); by destruct (h r).
  - intros p h r. rewrite !KeyFrames_flip_iter.
    apply iter_involutive, flip_keyframe_involutive.
Qed.

Lemma UnitAnim_flip_iter parts r :
  exists n, forall h,
    UnitAnim.flip parts h r = Nat.iter n KeyFrames.flip_keyframe (h r).
Proof.
  induction parts as [|p parts [n IH]]; [by exists 0|].
  eexists (n + _). intros h. cbn [UnitAnim.flip].
  rewrite IH, KeyFrames_flip_iter. symmetry. apply iter_add.
Qed.

Lemma flip_anims_iter anims r :
  exists n, forall h,
    Model.flip_anims anims h r = Nat.iter n KeyFrames.flip_keyframe (h r).
Proof.
  induction anims as [|a anims [n IH]]; [by exists 0|].
  destruct (UnitAnim_flip_iter a r) as [m Hm].
  exists (n + m). intros h. cbn [Model.flip_anims].
  rewrite IH, Hm. symmetry. apply iter_add.
Qed.

Lemma flip_anims_involutive anims h r :
  Model.flip_anims anims (Model.flip_anims anims h) r = h r.
Proof.
  destruct (flip_anims_iter anims r) as [n Hn]. rewrite !Hn.
  apply iter_involutive, flip_keyframe_involutive.
Qed.

(** From a position other than the first on, the loop over the parts
    flips the rotation of each part it lists. *)
Lemma flip_parts_later flip i parts h r :
  (forall j x, j <> 0%Z -> flip j x = ModelPart.flip_rotation x) ->
  (0 < i)%Z ->
  Model.flip_parts flip i parts h r
  = Nat.iter (count_occ Nat.eq_dec parts r) ModelPart.flip_rotation (h r).
Proof.
  intros Hflip. revert i h.
  induction parts as [|p parts IH]; intros i h Hi; [done|].
  cbn [Model.flip_parts count_occ]. rewrite IH by lia.
  rewrite Hflip by lia.
  destruct (Nat.eq_dec p r) as [->|Hne].
  - by rewrite Store_set_eq, Nat.iter_succ_r.
  - by rewrite Store_set_ne by done.
Qed.

Lemma flip_parts_spec flip parts h r :
  (forall j x, j <> 0%Z -> flip j x = ModelPart.flip_rotation x) ->
  Model.flip_parts flip 0 parts h r
  = Nat.iter (count_occ Nat.eq_dec (tail parts) r) ModelPart.flip_rotation
      (if decide (head parts = Some r) then flip 0%Z (h r) else h r).
Proof.
  intros Hflip. destruct parts as [|p parts]; [done|].
  cbn [Model.flip_parts tail head].
  rewrite (flip_parts_later flip) by (done || lia). f_equal.
  destruct (decide (Some p = Some r)) as [[= ->]|Hne].
  - by rewrite Store_set_eq.
  - rewrite Store_set_ne; [done|]. intros ->. by apply Hne.
Qed.

Lemma flip_x_later j x :
  j <> 0%Z -> ModelPart.flip_x j x = ModelPart.flip_rotation x.
Proof.
  intros Hj. unfold ModelPart.flip_x. by destruct (Z.eqb_spec j 0).
Qed.

Lemma flip_y_later j x :
  j <> 0%Z -> ModelPart.flip_y j x = ModelPart.flip_rotation x.
Proof.
  intros Hj. unfold ModelPart.flip_y. by destruct (Z.eqb_spec j 0).
Qed.

Lemma flip_rotation_flip_x p :
  ModelPart.flip_rotation (ModelPart.flip_x 0 p)
  = ModelPart.flip_x 0 (ModelPart.flip_rotation p).
Proof.
  destruct p as [? ? ? ? ? ? ? ? [?|] [?|] [?|] ? ? ?]; done.
Qed.

Lemma flip_rotation_flip_y p :
  ModelPart.flip_rotation (ModelPart.flip_y 0 p)
  = ModelPart.flip_y 0 (ModelPart.flip_rotation p).
Proof.
  destruct p as [? ? ? ? ? ? ? ? [?|] [?|] [?|] ? ? ?]; done.
Qed.

Lemma flip_first_scales p :
  ModelPart.flip_y 0 (ModelPart.flip_x 0 p)
  = ModelPart.set_scale_y (Z.opp <$> ModelPart.scale_y p)
      (ModelPart.set_scale_x (Z.opp <$> ModelPart.scale_x p) p).
Proof.
  destruct p as [a b c d e f g h [sx|] [sy|] [r|] k l n];
    cbv -[Z.mul Z.opp]; repeat f_equal; lia.
Qed.

(** Two runs of the loop over the parts, with flips that undo each
    other at the first position. *)
Lemma flip_parts_twice f g parts h r :
  (forall j x, j <> 0%Z -> f j x = ModelPart.flip_rotation x) ->
  (forall j x, j <> 0%Z -> g j x = ModelPart.flip_rotation x) ->
  (forall x, ModelPart.flip_rotation (f 0%Z x)
             = f 0%Z (ModelPart.flip_rotation x)) ->
  Model.flip_parts f 0 parts (Model.flip_parts g 0 parts h) r
  = if decide (head parts = Some r) then f 0%Z (g 0%Z (h r)) else h r.
Proof.
  intros Hf Hg Hfr.
  rewrite (flip_parts_spec f) by done. rewrite (flip_parts_spec g) by done.
  destruct (decide (head parts = Some r)).
  - rewrite <- (iter_commute ModelPart.flip_rotation (f 0%Z))
      by (intros y; apply Hfr).
    rewrite iter_involutive by apply flip_rotation_involutive. done.
  - by rewrite iter_involutive by apply flip_rotation_involutive.
Qed.

(** X13.  [Model.flip_x] gives the part object listed first
    [flip_x(0)] and every part object one [flip_rotation] for each time
    it is listed after the first position; [Model.flip_y] does the same
    with [flip_y(0)].  Each of the two undoes itself, and they commute.
    One after the other they leave every keyframe and every part object
    as it was, except that the two scales of the part object listed
    first come out negated. *)
Theorem Model_flips parts anims :
  (forall st r,
     fst (Model.flip_x parts anims st) r
     = Nat.iter (count_occ Nat.eq_dec (tail parts) r) ModelPart.flip_rotation
         (if decide (head parts = Some r)
          then ModelPart.flip_x 0 (fst st r) else fst st r)) /\
  (forall st r,
     fst (Model.flip_y parts anims st) r
     = Nat.iter (count_occ Nat.eq_dec (tail parts) r) ModelPart.flip_rotation
         (if decide (head parts = Some r)
          then ModelPart.flip_y 0 (fst st r) else fst st r)) /\
  (forall st r k,
     fst (Model.flip_x parts anims (Model.flip_x parts anims st)) r = fst st r /\
     snd (Model.flip_x parts anims (Model.flip_x parts anims st)) k = snd st k) /\
  (forall st r k,
     fst (Model.flip_y parts anims (Model.flip_y parts anims st)) r = fst st r /\
     snd (Model.flip_y parts anims (Model.flip_y parts anims st)) k = snd st k) /\
  (forall st r k,
     fst (Model.flip_x parts anims (Model.flip_y parts anims st)) r
     = fst (Model.flip_y parts anims (Model.flip_x parts anims st)) r /\
     snd (Model.flip_x parts anims (Model.flip_y parts anims st)) k
     = snd (Model.flip_y parts anims (Model.flip_x parts anims st)) k) /\
  (forall st r k,
     fst (Model.flip_y parts anims (Model.flip_x parts anims st)) r
     = (if decide (head parts = Some r)
        then ModelPart.set_scale_y (Z.opp <$> ModelPart.scale_y (fst st r))
               (ModelPart.set_scale_x (Z.opp <$> ModelPart.scale_x (fst st r))
                  (fst st r))
        else fst st r) /\
     snd (Model.flip_y parts anims (Model.flip_x parts anims st)) k = snd st k).
Proof.
  pose proof flip_x_later as Hx. pose proof flip_y_later as Hy.
  pose proof flip_rotation_flip_x as Hrx.
  pose proof flip_rotation_flip_y as Hry.
  split; [|split; [|split; [|split; [|split]]]].
  - intros [ph kh] r. by apply flip_parts_spec.
  - intros [ph kh] r. by apply flip_parts_spec.
  - intros [ph kh] r k. unfold Model.flip_x. cbn [fst snd].
    split; [|apply flip_anims_involutive].
    rewrite flip_parts_twice by done.
    destruct (decide _); [apply ModelPart_flip_x_involutive|done].
  - intros [ph kh] r k. unfold Model.flip_y. cbn [fst snd].
    split; [|apply flip_anims_involutive].
    rewrite flip_parts_twice by done.
    destruct (decide _); [apply ModelPart_flip_y_involutive|done].
  - intros [ph kh] r k. unfold Model.flip_x, Model.flip_y. cbn [fst snd].
    split; [|done].
    rewrite !flip_parts_twice by done.
    destruct (decide _); [apply ModelPart_flip_commute|done].
  - intros [ph kh] r k. unfold Model.flip_x, Model.flip_y. cbn [fst snd].
    split; [|apply flip_anims_involutive].
    rewrite flip_parts_twice by done.
    destruct (decide _); [apply flip_first_scales|done].
Qed.

(* ===================================================================== *)
(** * Other methods of the records                                        *)
(* ===================================================================== *)

(** X14.  [Mamodel.dup_ints] is idempotent and never leaves exactly one
    entry; when it fires, the count it sets is the length of the list. *)
Theorem Mamodel_dup_ints_spec (m : Mamodel.t) :
  Mamodel.dup_ints (Mamodel.dup_ints m) = Mamodel.dup_ints m /\
  length (MamodelIntsInts.ints (Mamodel.ints (Mamodel.dup_ints m))) <> 1 /\
  (Mamodel.dup_ints m = m \/
   exists x,
     MamodelIntsInts.ints (Mamodel.ints m) = [x] /\
     MamodelIntsInts.ints (Mamodel.ints (Mamodel.dup_ints m)) = [x; x] /\
     MamodelIntsInts.total_ints (Mamodel.ints (Mamodel.dup_ints m))
     = Some (len (MamodelIntsInts.ints (Mamodel.ints (Mamodel.dup_ints m))))).
Proof.
  destruct m as [md ps un [xs n] nm].
  unfold Mamodel.dup_ints, Mamodel.set_ints, MamodelIntsInts.set_total_ints,
    MamodelIntsInts.set_ints.
  destruct xs as [|x [|y xs]]; cbn.
  - split; [done|]. split; [lia|]. by left.
  - split; [done|]. split; [lia|]. right. exists x. done.
  - split; [done|]. split; [lia|]. by left.
Qed.

Lemma py_index_range {A : Type} (xs : list A) (i : Z) :
  is_Some (py_index xs i) <-> (- len xs <= i < len xs)%Z.
Proof.
  unfold py_index, len.
  destruct (Z.leb_spec 0 i).
  - rewrite lookup_lt_is_Some. lia.
  - destruct (Z.leb_spec (- Z.of_nat (length xs)) i).
    + rewrite lookup_lt_is_Some. lia.
    + split; [by intros [? ?] | lia].
Qed.

(** X15.  [Texture.get_rect] never raises.  It finds a rect exactly for
    the ids from [-len(rects)] to [len(rects) - 1]; a negative id counts
    from the end, so [id - len(rects)] finds the rect that [id] finds. *)
Theorem Texture_get_rect_range (t : Texture.t) (id : Z) :
  (is_Some (Texture.get_rect id t)
   <-> (- len (Texture.rects t) <= id < len (Texture.rects t))%Z) /\
  ((0 <= id < len (Texture.rects t))%Z ->
   Texture.get_rect (id - len (Texture.rects t)) t = Texture.get_rect id t
   /\ Texture.get_rect id t = Texture.rects t !! Z.to_nat id).
Proof.
  split; [apply py_index_range|].
  intros Hid. unfold Texture.get_rect, py_index, len in *.
  destruct (Z.leb_spec 0 (id - Z.of_nat (length (Texture.rects t)))); [lia|].
  destruct (Z.leb_spec (- Z.of_nat (length (Texture.rects t)))
              (id - Z.of_nat (length (Texture.rects t)))); [|lia].
  destruct (Z.leb_spec 0 id); [|lia].
  split; [|done]. f_equal. lia.
Qed.


(* ===================================================================== *)
(** * Facts about [split], [join] and [replace]                           *)
(* ===================================================================== *)

Lemma append_cons c (s t : string) : String c s +:+ t = String c (s +:+ t).
Proof. reflexivity. Qed.

Lemma append_nil_r (s : string) : s +:+ "" = s.
Proof. induction s as [|c s IH]; [done|]. rewrite append_cons. by f_equal. Qed.

Lemma append_assoc (a b c : string) : (a +:+ b) +:+ c = a +:+ (b +:+ c).
Proof.
  induction a as [|x a IH]; [done|]. rewrite !append_cons. by f_equal.
Qed.

Lemma contains_app c a b :
  PyStr.contains c (a +:+ b) = PyStr.contains c a || PyStr.contains c b.
Proof.
  induction a as [|x a IH]; [done|]. rewrite append_cons. cbn.
  rewrite IH. by rewrite orb_assoc.
Qed.

Lemma split_nonempty sep s : exists p ps, PyStr.split sep s = p :: ps.
Proof.
  destruct s as [|c s]; cbn; [eauto|].
  destruct (Ascii.eqb c sep); [eauto|].
  destruct (PyStr.split sep s); eauto.
Qed.

(** A string without the separator is its own single piece. *)
Lemma split_no_sep sep a :
  PyStr.contains sep a = false -> PyStr.split sep a = [a].
Proof.
  induction a as [|c a IH]; [done|]. cbn.
  intros H. apply orb_false_iff in H as [Hc Ha].
  rewrite Hc, IH by done. done.
Qed.

(** The first piece ends at the first separator. *)
Lemma split_app_sep sep a r :
  PyStr.contains sep a = false ->
  PyStr.split sep (a +:+ String sep r) = a :: PyStr.split sep r.
Proof.
  induction a as [|c a IH].
  - intros _. change ("" +:+ String sep r) with (String sep r). cbn.
    by rewrite Ascii.eqb_refl.
  - intros H. cbn in H. apply orb_false_iff in H as [Hc Ha].
    rewrite append_cons. cbn. rewrite Hc, IH by done. done.
Qed.

Lemma join_cons sep p ps q qs :
  ps = q :: qs ->
  PyStr.join sep (p :: ps) = p +:+ sep +:+ PyStr.join sep ps.
Proof. by intros ->. Qed.

Lemma join_split sep s : PyStr.join (String sep "") (PyStr.split sep s) = s.
Proof.
  induction s as [|c s IH]; [done|]. cbn [PyStr.split].
  destruct (split_nonempty sep s) as (p & ps & Hs). rewrite Hs in *.
  destruct (Ascii.eqb_spec c sep) as [->|Hne].
  - rewrite (join_cons _ _ _ p ps) by done.
    change ("" +:+ String sep "" +:+ PyStr.join (String sep "") (p :: ps))
      with (String sep (PyStr.join (String sep "") (p :: ps))).
    by rewrite IH.
  - destruct ps as [|q qs].
    + cbn in *. by rewrite IH.
    + rewrite (join_cons _ _ _ q qs) by done.
      rewrite (join_cons _ _ _ q qs) in IH by done.
      rewrite append_cons. by rewrite IH.
Qed.

(** Joining the pieces of [a +:+ r] again with another first piece. *)
Lemma join_split_first sep a r b :
  PyStr.contains sep a = false -> rest_ok sep r ->
  exists ps, PyStr.split sep (a +:+ r) = a :: ps /\
             PyStr.join (String sep "") (b :: ps) = b +:+ r.
Proof.
  intros Ha [->|[r' ->]].
  - exists []. rewrite append_nil_r, split_no_sep by done.
    split; [done|]. cbn. by rewrite append_nil_r.
  - exists (PyStr.split sep r'). rewrite split_app_sep by done.
    split; [done|].
    destruct (split_nonempty sep r') as (p & ps & Hs).
    rewrite (join_cons _ _ _ p ps) by done.
    by rewrite join_split.
Qed.

(** Replacing the extension of a name without dots. *)
Lemma replace_png x :
  PyStr.contains "." x = false ->
  PyStr.replace ".png" ".imgcut" (x +:+ ".png") = x +:+ ".imgcut".
Proof.
  unfold PyStr.replace. induction x as [|c x IH]; [done|].
  intros H. cbn in H. apply orb_false_iff in H as [Hc Hx].
  rewrite !append_cons. cbn [PyStr.replace_from].
  replace (String.prefix ".png" (String c (x +:+ ".png"))) with false.
  - by rewrite IH.
  - change (String.prefix ".png" (String c (x +:+ ".png")))
      with (if Ascii.ascii_dec "." c
            then String.prefix "png" (x +:+ ".png") else false).
    destruct (Ascii.ascii_dec "." c) as [<-|Hne]; [|done].
    by rewrite Ascii.eqb_refl in Hc.
Qed.


(** The first piece of [a +:+ s] is [a] and the first piece of [s]. *)
Lemma split_app_no_sep sep a s p ps :
  PyStr.contains sep a = false -> PyStr.split sep s = p :: ps ->
  PyStr.split sep (a +:+ s) = (a +:+ p) :: ps.
Proof.
  intros Ha Hs. induction a as [|c a IH]; [done|].
  cbn in Ha. apply orb_false_iff in Ha as [Hc Ha].
  rewrite !append_cons. cbn. by rewrite Hc, IH.
Qed.

Lemma split_pieces_no_sep sep s :
  Forall (fun p => PyStr.contains sep p = false) (PyStr.split sep s).
Proof.
  induction s as [|c s IH]; cbn; [by repeat constructor|].
  destruct (Ascii.eqb c sep) eqn:Hc; [by constructor|].
  destruct (PyStr.split sep s) as [|p ps].
  - constructor; [|constructor]. cbn. by rewrite Hc.
  - inversion IH as [|? ? Hp Hps]; subst. constructor; [|done].
    cbn. by rewrite Hc.
Qed.

Lemma split_head_no_sep sep s p ps :
  PyStr.split sep s = p :: ps -> PyStr.contains sep p = false.
Proof.
  intros Hs. pose proof (split_pieces_no_sep sep s) as H.
  rewrite Hs in H. by inversion H.
Qed.

(** Pieces without separator, joined, split into themselves. *)
Lemma split_join sep p ps :
  Forall (fun p => PyStr.contains sep p = false) (p :: ps) ->
  PyStr.split sep (PyStr.join (String sep "") (p :: ps)) = p :: ps.
Proof.
  revert p. induction ps as [|q qs IH]; intros p H.
  - inversion H; subst. by apply split_no_sep.
  - inversion H as [|? ? Hp Hps]; subst.
    rewrite (join_cons _ _ _ q qs) by done.
    change (p +:+ String sep "" +:+ PyStr.join (String sep "") (q :: qs))
      with (p +:+ String sep (PyStr.join (String sep "") (q :: qs))).
    rewrite split_app_sep by done. by rewrite IH.
Qed.

Lemma split_contains sep s :
  PyStr.contains sep s = true -> exists p q ps, PyStr.split sep s = p :: q :: ps.
Proof.
  induction s as [|c s IH]; [done|]. cbn.
  destruct (split_nonempty sep s) as (p & ps & Hs).
  destruct (Ascii.eqb c sep); cbn.
  - intros _. rewrite Hs. eauto.
  - intros H. destruct (IH H) as (p' & q & qs & Hs'). rewrite Hs'. eauto.
Qed.

(* ===================================================================== *)
(** * Renaming the records                                                *)
(* ===================================================================== *)

(** X16.  [AnimType.from_bcu_str] raises [IndexError] exactly for the
    strings without underscore, raises nothing else, and otherwise looks
    only at what lies between the first underscore and the next
    underscore or dot. *)
Theorem AnimType_from_bcu_str_spec :
  (forall s, AnimType.from_bcu_str s = Err IndexError
             <-> PyStr.contains "_" s = false) /\
  (forall s e, AnimType.from_bcu_str s = Err e -> e = IndexError) /\
  (forall a k r,
     PyStr.contains "_" a = false ->
     PyStr.contains "_" k = false -> PyStr.contains "." k = false ->
     rest_ok "_" r \/ rest_ok "." r ->
     AnimType.from_bcu_str (a +:+ "_" +:+ k +:+ r)
     = Ok (if String.eqb k "walk" then Some AnimType.WALK
           else if String.eqb k "idle" then Some AnimType.IDLE
           else if String.eqb k "attack" then Some AnimType.ATTACK
           else if String.eqb k "kb" then Some AnimType.KNOCK_BACK
           else None)).
Proof.
  assert (Herr : forall s e, AnimType.from_bcu_str s = Err e -> e = IndexError).
  { intros s e. unfold AnimType.from_bcu_str.
    destruct (PyStr.split "_" s !! 1) as [p|]; cbn; [|by intros [= <-]].
    destruct (PyStr.split "." p !! 0) as [q|]; cbn; [|by intros [= <-]].
    repeat case_match; discriminate. }
  split; [|split; [exact Herr|]].
  - intros s. split.
    + intros H. destruct (PyStr.contains "_" s) eqn:Hc; [|done].
      apply split_contains in Hc as (p & q & ps & Hs).
      unfold AnimType.from_bcu_str in H. rewrite Hs in H. cbn in H.
      destruct (split_nonempty "." q) as (q' & qs & Hq).
      rewrite Hq in H. cbn in H. repeat case_match; discriminate.
    + intros Hc. unfold AnimType.from_bcu_str.
      by rewrite split_no_sep.
  - intros a k r Ha Hk Hkd Hr. unfold AnimType.from_bcu_str.
    change (a +:+ "_" +:+ k +:+ r) with (a +:+ String "_" (k +:+ r)).
    rewrite split_app_sep by done.
    assert (Hq : exists p ps, PyStr.split "_" (k +:+ r) = p :: ps /\
                              exists qs, PyStr.split "." p = k :: qs).
    { destruct (split_nonempty "_" r) as (p & ps & Hs).
      exists (k +:+ p), ps. split; [by apply split_app_no_sep|].
      destruct Hr as [[->|[r' ->]]|[->|[r' ->]]].
      - cbn in Hs. injection Hs as <- <-. rewrite append_nil_r.
        exists []. by apply split_no_sep.
      - cbn in Hs. injection Hs as <- <-. rewrite append_nil_r.
        exists []. by apply split_no_sep.
      - cbn in Hs. injection Hs as <- <-. rewrite append_nil_r.
        exists []. by apply split_no_sep.
      - cbn in Hs. destruct (PyStr.split "_" r') as [|p' ps'].
        + injection Hs as <- <-. exists [""]. by rewrite split_app_sep.
        + injection Hs as <- <-. eexists. by rewrite split_app_sep. }
    destruct Hq as (p & ps & -> & qs & Hp). cbn. rewrite Hp. cbn.
    repeat case_match; done.
Qed.

Lemma set_img_name_twice v w md :
  TextureMetadata.set_img_name v (TextureMetadata.set_img_name w md)
  = TextureMetadata.set_img_name v md.
Proof. by destruct md. Qed.

Lemma set_mamodel_name_twice v w m :
  Mamodel.set_mamodel_name v (Mamodel.set_mamodel_name w m)
  = Mamodel.set_mamodel_name v m.
Proof. by destruct m. Qed.

(** X17.  [set_unit_form] of an image name and of a model name: it
    raises [ValueError] when there is no name, and otherwise keeps the
    piece of the name before its first underscore and replaces all that
    follows by the form and the extension.  A second call therefore
    overrides the first. *)
Theorem set_unit_form_spec :
  (forall form md,
     TextureMetadata.img_name md = None ->
     TextureMetadata.set_unit_form form md = Err ValueError) /\
  (forall form md a r,
     PyStr.contains "_" a = false -> rest_ok "_" r ->
     TextureMetadata.img_name md = Some (a +:+ r) ->
     TextureMetadata.set_unit_form form md
     = Ok (TextureMetadata.set_img_name
             (Some (a +:+ "_" +:+ form +:+ ".png")) md)) /\
  (forall form1 form2 md md1,
     TextureMetadata.set_unit_form form1 md = Ok md1 ->
     TextureMetadata.set_unit_form form2 md1
     = TextureMetadata.set_unit_form form2 md) /\
  (forall form m,
     Mamodel.mamodel_name m = None ->
     Mamodel.set_unit_form form m = Err ValueError) /\
  (forall form m a r,
     PyStr.contains "_" a = false -> rest_ok "_" r ->
     Mamodel.mamodel_name m = Some (a +:+ r) ->
     Mamodel.set_unit_form form m
     = Ok (Mamodel.set_mamodel_name
             (Some (a +:+ "_" +:+ form +:+ ".mamodel")) m)) /\
  (forall form1 form2 m m1,
     Mamodel.set_unit_form form1 m = Ok m1 ->
     Mamodel.set_unit_form form2 m1 = Mamodel.set_unit_form form2 m).
Proof.
  split; [|split; [|split; [|split; [|split]]]].
  - intros form md Hn. unfold TextureMetadata.set_unit_form. by rewrite Hn.
  - intros form md a r Ha Hr Hn. unfold TextureMetadata.set_unit_form.
    rewrite Hn. destruct (join_split_first "_" a r "" Ha Hr) as (ps & -> & _).
    done.
  - intros form1 form2 md md1. unfold TextureMetadata.set_unit_form.
    destruct (TextureMetadata.img_name md) as [n|] eqn:Hn; [|done].
    destruct (split_nonempty "_" n) as (p & ps & Hs). rewrite Hs. cbn.
    intros [= <-].
    replace (TextureMetadata.img_name
               (TextureMetadata.set_img_name
                  (Some (p +:+ "_" +:+ form1 +:+ ".png")) md))
      with (Some (p +:+ String "_" (form1 +:+ ".png"))) by (by destruct md).
    rewrite split_app_sep by (by eapply split_head_no_sep). cbn.
    by rewrite set_img_name_twice.
  - intros form m Hn. unfold Mamodel.set_unit_form. by rewrite Hn.
  - intros form m a r Ha Hr Hn. unfold Mamodel.set_unit_form.
    rewrite Hn. destruct (join_split_first "_" a r "" Ha Hr) as (ps & -> & _).
    done.
  - intros form1 form2 m m1. unfold Mamodel.set_unit_form.
    destruct (Mamodel.mamodel_name m) as [n|] eqn:Hn; [|done].
    destruct (split_nonempty "_" n) as (p & ps & Hs). rewrite Hs. cbn.
    intros [= <-].
    replace (Mamodel.mamodel_name
               (Mamodel.set_mamodel_name
                  (Some (p +:+ "_" +:+ form1 +:+ ".mamodel")) m))
      with (Some (p +:+ String "_" (form1 +:+ ".mamodel"))) by (by destruct m).
    rewrite split_app_sep by (by eapply split_head_no_sep). cbn.
    by rewrite set_mamodel_name_twice.
Qed.

Lemma UnitAnim_set_name_twice v w u :
  UnitAnim.set_name v (UnitAnim.set_name w u) = UnitAnim.set_name v u.
Proof. by destruct u. Qed.

(** X18.  [UnitAnim.set_id] raises [ValueError] when the animation has no
    name and raises nothing else; otherwise it replaces the piece of the
    name before the first underscore by the id and keeps the rest, so
    that a second call overrides a first one whose id had no
    underscore. *)
Theorem UnitAnim_set_id_spec :
  (forall id u, UnitAnim.name u = None -> UnitAnim.set_id id u = Err ValueError) /\
  (forall id u e, UnitAnim.set_id id u = Err e -> e = ValueError) /\
  (forall id u a r,
     PyStr.contains "_" a = false -> rest_ok "_" r ->
     UnitAnim.name u = Some (a +:+ r) ->
     UnitAnim.set_id id u = Ok (UnitAnim.set_name (Some (id +:+ r)) u)) /\
  (forall id1 id2 u u1,
     PyStr.contains "_" id1 = false ->
     UnitAnim.set_id id1 u = Ok u1 ->
     UnitAnim.set_id id2 u1 = UnitAnim.set_id id2 u).
Proof.
  split; [|split; [|split]].
  - intros id u Hn. unfold UnitAnim.set_id. by rewrite Hn.
  - intros id u e. unfold UnitAnim.set_id.
    destruct (UnitAnim.name u) as [n|]; [|by intros [= <-]].
    destruct (split_nonempty "_" n) as (p & ps & ->). done.
  - intros id u a r Ha Hr Hn. unfold UnitAnim.set_id. rewrite Hn.
    destruct (join_split_first "_" a r id Ha Hr) as (ps & -> & Hj).
    cbn -[PyStr.join]. by rewrite Hj.
  - intros id1 id2 u u1 Hid. unfold UnitAnim.set_id.
    destruct (UnitAnim.name u) as [n|] eqn:Hn; [|done].
    pose proof (split_pieces_no_sep "_" n) as Hall.
    destruct (split_nonempty "_" n) as (p & ps & Hs). rewrite Hs in *.
    cbn -[PyStr.join].
    remember (PyStr.join "_" (id1 :: ps)) as n1 eqn:Hn1. intros [= <-].
    replace (UnitAnim.name (UnitAnim.set_name (Some n1) u))
      with (Some n1) by (by destruct u).
    subst n1. rewrite split_join.
    + cbn -[PyStr.join]. by rewrite UnitAnim_set_name_twice.
    + inversion Hall; subst. by constructor.
Qed.

(** X19.  [UnitAnim.set_unit_form] raises [ValueError] when the animation
    has no name and [IndexError] when the name has no underscore.  For a
    name made of an id, an underscore, one character of form and two of
    animation number it gives the id, the new form, the animation
    number and the extension [.maanim]. *)
Theorem UnitAnim_set_unit_form_spec :
  (forall form u,
     UnitAnim.name u = None -> UnitAnim.set_unit_form form u = Err ValueError) /\
  (forall form u n,
     UnitAnim.name u = Some n -> PyStr.contains "_" n = false ->
     UnitAnim.set_unit_form form u = Err IndexError) /\
  (forall form u a c d1 d2 r,
     PyStr.contains "_" a = false ->
     PyStr.contains "_" (String c (String d1 (String d2 ""))) = false ->
     UnitAnim.name u
     = Some (a +:+ "_" +:+ String c (String d1 (String d2 r))) ->
     UnitAnim.set_unit_form form u
     = Ok (UnitAnim.set_name
             (Some (a +:+ "_" +:+ form +:+ String d1 (String d2 ".maanim")))
             u)).
Proof.
  split; [|split].
  - intros form u Hn. unfold UnitAnim.set_unit_form. by rewrite Hn.
  - intros form u n Hn Hc. unfold UnitAnim.set_unit_form. rewrite Hn.
    by rewrite split_no_sep.
  - intros form u a c d1 d2 r Ha Hc Hn. unfold UnitAnim.set_unit_form.
    rewrite Hn.
    change (a +:+ "_" +:+ String c (String d1 (String d2 r)))
      with (a +:+ String "_" (String c (String d1 (String d2 r)))).
    rewrite split_app_sep by done.
    destruct (split_nonempty "_" r) as (p & ps & Hs).
    change (String c (String d1 (String d2 r)))
      with (String c (String d1 (String d2 "")) +:+ r).
    rewrite (split_app_no_sep "_" (String c (String d1 (String d2 "")))
               r p ps Hc Hs).
    cbn.
    replace (PyStr.slice 1 3 (String c (String d1 (String d2 "")) +:+ p))
      with (String d1 (String d2 "")); [done|].
    change (String c (String d1 (String d2 "")) +:+ p)
      with (String c (String d1 (String d2 p))).
    unfold PyStr.slice. cbn. by destruct p.
Qed.

(** X20.  [Texture.set_id] raises [ValueError] when the texture has no
    image name.  Otherwise it returns, the image name becomes
    [id_form.png] and the imgcut name that name with [.png] replaced by
    [.imgcut]: for an id and a form without dots, [id_form.imgcut]. *)
Theorem Texture_set_id_spec :
  (forall id form t,
     TextureMetadata.img_name (Texture.metadata t) = None ->
     Texture.set_id id form t = Err ValueError) /\
  (forall id form t,
     TextureMetadata.img_name (Texture.metadata t) <> None ->
     Texture.set_id id form t
     = Ok (Texture.set_imgcut_name
             (PyStr.replace ".png" ".imgcut" (id +:+ "_" +:+ form +:+ ".png"))
             (Texture.set_metadata
                (TextureMetadata.set_img_name
                   (Some (id +:+ "_" +:+ form +:+ ".png"))
                   (Texture.metadata t)) t))) /\
  (forall id form t,
     TextureMetadata.img_name (Texture.metadata t) <> None ->
     PyStr.contains "." id = false -> PyStr.contains "." form = false ->
     Texture.set_id id form t
     = Ok (Texture.set_imgcut_name (id +:+ "_" +:+ form +:+ ".imgcut")
             (Texture.set_metadata
                (TextureMetadata.set_img_name
                   (Some (id +:+ "_" +:+ form +:+ ".png"))
                   (Texture.metadata t)) t))).
Proof.
  assert (Hgen : forall id form t,
     TextureMetadata.img_name (Texture.metadata t) <> None ->
     Texture.set_id id form t
     = Ok (Texture.set_imgcut_name
             (PyStr.replace ".png" ".imgcut" (id +:+ "_" +:+ form +:+ ".png"))
             (Texture.set_metadata
                (TextureMetadata.set_img_name
                   (Some (id +:+ "_" +:+ form +:+ ".png"))
                   (Texture.metadata t)) t))).
  { intros id form t Hn. unfold Texture.set_id.
    destruct (TextureMetadata.img_name (Texture.metadata t)) as [n|]; [|done].
    by destruct t as [[hn vc im tr] rs ic]. }
  split; [|split; [exact Hgen|]].
  - intros id form t Hn. unfold Texture.set_id. by rewrite Hn.
  - intros id form t Hn Hid Hform. rewrite Hgen by done.
    replace (id +:+ "_" +:+ form +:+ ".png")
      with ((id +:+ "_" +:+ form) +:+ ".png")
      by (by rewrite !append_assoc).
    rewrite replace_png.
    + by rewrite !append_assoc.
    + rewrite !contains_app, Hid, Hform. done.
Qed.

Lemma set_unit_ids_ok int id v parts h :
  int id = Some v ->
  Mamodel.set_unit_ids int id parts h
  = (Store.for_each (ModelPart.set_unit_id (Some v)) parts h, Returned).
Proof.
  intros Hv. revert h. induction parts as [|p parts IH]; intros h; [done|].
  cbn [Mamodel.set_unit_ids Store.for_each]. by rewrite Hv, IH.
Qed.

(** A loop that assigns one attribute leaves the objects it lists with
    the attribute assigned, and the others as they were. *)
Lemma for_each_assign {A : Type} (f : A -> A) refs (h : Store.t A) r :
  (forall x, f (f x) = f x) ->
  Store.for_each f refs h r = if decide (r ∈ refs) then f (h r) else h r.
Proof.
  intros Hf. revert h. induction refs as [|r0 refs IH]; intros h.
  - cbn. destruct (decide (r ∈ [])) as [Hin|]; [|done].
    by apply elem_of_nil in Hin.
  - cbn [Store.for_each]. rewrite IH.
    destruct (decide (r = r0)) as [->|Hne].
    + rewrite Store_set_eq, Hf.
      rewrite (decide_True (P := r0 ∈ r0 :: refs)) by apply list_elem_of_here.
      by destruct (decide _).
    + rewrite Store_set_ne by done.
      destruct (decide (r ∈ refs)) as [Hin|Hin].
      * by rewrite decide_True by (by apply list_elem_of_further).
      * rewrite decide_False; [done|].
        intros [?|?]%elem_of_cons; done.
Qed.

(** X21.  [Mamodel.set_id].  Without a name it raises [ValueError] and
    without an underscore in the name [IndexError], name and parts
    unchanged.  Otherwise the name becomes the id, an underscore and the
    second piece of the old name.  Then every part object listed after
    the first position gets [int(id)] as its [unit_id] and every other
    part object is left as it was, the first one too unless it is listed
    again; when [int(id)] fails, [ValueError] is raised with the name
    already replaced and the parts unchanged, unless there is at most one
    part, in which case [int] is not called. *)
Theorem Mamodel_set_id_spec (int : string -> option Z) :
  (forall id parts h,
     Mamodel.set_id int id None parts h = (None, h, Raised ValueError)) /\
  (forall id n parts h,
     PyStr.contains "_" n = false ->
     Mamodel.set_id int id (Some n) parts h = (Some n, h, Raised IndexError)) /\
  (forall id a f r parts h,
     PyStr.contains "_" a = false -> PyStr.contains "_" f = false ->
     rest_ok "_" r ->
     let name := Some (a +:+ "_" +:+ f +:+ r) in
     let name' := Some (id +:+ "_" +:+ f) in
     (length parts <= 1 ->
      Mamodel.set_id int id name parts h = (name', h, Returned)) /\
     (1 < length parts -> int id = None ->
      Mamodel.set_id int id name parts h = (name', h, Raised ValueError)) /\
     (forall v, int id = Some v ->
      exists h',
        Mamodel.set_id int id name parts h = (name', h', Returned) /\
        forall p,
          h' p = if decide (p ∈ drop 1 parts)
                 then ModelPart.set_unit_id (Some v) (h p)
                 else h p)).
Proof.
  split; [done|]. split.
  - intros id n parts h Hc. unfold Mamodel.set_id.
    by rewrite split_no_sep.
  - intros id a f r parts h Ha Hf Hr name name'.
    assert (Hsplit : exists ps, PyStr.split "_" (a +:+ "_" +:+ f +:+ r)
                                = a :: f :: ps).
    { change (a +:+ "_" +:+ f +:+ r) with (a +:+ String "_" (f +:+ r)).
      rewrite split_app_sep by done.
      destruct (join_split_first "_" f r "" Hf Hr) as (ps & -> & _). eauto. }
    destruct Hsplit as [ps Hsplit].
    unfold Mamodel.set_id, name. rewrite Hsplit. cbn [lookup list_lookup].
    fold name'.
    split; [|split].
    + intros Hlen. destruct parts as [|p0 [|p1 ps']]; cbn in Hlen; try lia;
        done.
    + intros Hlen Hint.
      destruct parts as [|p0 [|p1 ps']]; cbn in Hlen; try lia.
      cbn. by rewrite Hint.
    + intros v Hv. rewrite (set_unit_ids_ok _ _ v) by done.
      eexists. split; [reflexivity|]. intros p.
      apply for_each_assign. by intros [].
Qed.


(* ===================================================================== *)
(** * Round trip of an imgcut table                                       *)
(* ===================================================================== *)

Lemma TextureMetadata_copy md dst :
  copy_fields TextureMetadata.fields md dst = md.
Proof. by destruct md. Qed.

Lemma Rect_copy x dst : copy_fields Rect.fields x dst = x.
Proof. by destruct x. Qed.

Lemma Texture_apply_csv_eq csv t :
  Texture.apply_csv csv t =
  let md := TextureMetadata.set_total_rects (Some (len (Texture.rects t)))
              (Texture.metadata t) in
  (Texture.mk md (Texture.rects t) (Texture.imgcut_name t),
   apply_rows (row_apply_csv Rect.fields) 4 (Texture.rects t)
     (Modification.apply_csv_fields TextureMetadata.fields md csv)).
Proof. reflexivity. Qed.

(** Writing a complete [Texture] and reading the table back. *)
Lemma Texture_read_apply csv t imgcut_name r0 :
  texture_complete t = true ->
  exists csv',
    Texture.read_csv (snd (Texture.apply_csv csv t)) imgcut_name r0
    = Ok (Texture.set_imgcut_name
            (default (Texture.imgcut_name r0) imgcut_name)
            (fst (Texture.apply_csv csv t)), csv') /\
    TextureMetadata.total_rects (Texture.metadata (fst (Texture.apply_csv csv t)))
    = Some (len (Texture.rects t)).
Proof.
  intros Hc. apply andb_true_iff in Hc as [Hmd Hrects].
  rewrite Texture_apply_csv_eq. cbv zeta. cbn [fst snd].
  set (md := TextureMetadata.set_total_rects _ _) in *.
  set (csv1 := Modification.apply_csv_fields TextureMetadata.fields md csv).
  set (csv2 := apply_rows _ 4 _ csv1).
  assert (Hk : keeps 4 (CSV.lines csv1) (CSV.lines csv2))
    by exact (rows_apply_keeps Rect.fields eq_refl _ 4 csv1).
  assert (Hmd2 : holds (CSV.lines csv2) (CSV.index csv2)
                       TextureMetadata.fields md).
  { apply (holds_absolute_index 4 _ (CSV.index csv)); [done|].
    apply (holds_keeps_absolute 4) with (L := CSV.lines csv1); [done| |done].
    exact (apply_csv_fields_holds TextureMetadata.fields md csv eq_refl Hmd). }
  assert (Hrects2 : forall j x, Texture.rects t !! j = Some x ->
            holds (CSV.lines csv2) (4 + j) Rect.fields x).
  { exact (rows_apply_holds Rect.fields eq_refl eq_refl
             (Texture.rects t) 4 csv1 Hrects). }
  unfold Texture.read_csv, TextureMetadata.read_csv.
  set (r1 := Texture.set_rects [] _).
  rewrite (read_csv_fields_holds _ _ (Texture.metadata r1) _ Hmd2).
  cbn [mbind result_bind]. rewrite TextureMetadata_copy.
  replace (range_len (TextureMetadata.total_rects md))
    with (length (Texture.rects t)).
  2:{ subst md. destruct (Texture.metadata t). cbn. by rewrite range_len_len. }
  destruct (rows_read Rect.fields Rect.new (fun x => Rect_copy x _)
              (Texture.rects t) 4 csv2 []) as [csv3 [Hr3 _]]; [done|].
  change (fun index csv0 => Rect.read_csv index csv0 Rect.new)
    with (row_read_csv Rect.fields Rect.new).
  rewrite Hr3. cbn [mbind result_bind app]. exists csv3.
  split; [|by subst md; destruct (Texture.metadata t)].
  subst r1. destruct r0, imgcut_name; reflexivity.
Qed.

(** X22.  Writing a [Texture] whose table-bound attributes are all set
    with [apply_csv] into any table and reading that table back with
    [read_csv] gives the metadata and the rects as [apply_csv] left them,
    the count of rects being their number; the imgcut name is the one
    passed to [read_csv], or else the reader's. *)
Theorem Texture_round_trip csv t imgcut_name r0 :
  texture_complete t = true ->
  exists csv',
    Texture.read_csv (snd (Texture.apply_csv csv t)) imgcut_name r0
    = Ok (Texture.set_imgcut_name
            (default (Texture.imgcut_name r0) imgcut_name)
            (fst (Texture.apply_csv csv t)), csv') /\
    TextureMetadata.total_rects (Texture.metadata (fst (Texture.apply_csv csv t)))
    = Some (len (Texture.rects t)).
Proof. apply Texture_read_apply. Qed.

Lemma Texture_round_trip_witness :
  exists csv',
    Texture.read_csv (snd (Texture.apply_csv CSV.new sample_texture))
      (Some "000_f.imgcut"%string) Texture.new
    = Ok (Texture.mk
            (TextureMetadata.mk (Some "[imgcut]"%string) (Some "0"%string)
               (Some "000_f.png"%string) (Some 2%Z))
            (Texture.rects sample_texture) "000_f.imgcut", csv').
Proof.
  destruct (Texture_round_trip CSV.new sample_texture
              (Some "000_f.imgcut"%string) Texture.new eq_refl)
    as [csv' [H _]].
  exists csv'. exact H.
Defined.

(* ===================================================================== *)
(** * What a count read from a table does                                 *)
(* ===================================================================== *)

Lemma Texture_read_length csv name r0 t csv' :
  Texture.read_csv csv name r0 = Ok (t, csv') ->
  length (Texture.rects t)
  = range_len (TextureMetadata.total_rects (Texture.metadata t)).
Proof.
  unfold Texture.read_csv. intros H.
  destruct (TextureMetadata.read_csv _ _) as [md|e]; [|done].
  cbn [mbind result_bind] in H.
  match type of H with
  | context [read_rows ?rd ?n ?i ?c ?a] =>
      destruct (read_rows rd n i c a) as [[rs csv1]|e] eqn:E; [|done]
  end.
  cbn [mbind result_bind] in H. injection H as <- <-.
  apply read_rows_length in E. by destruct name, r0.
Qed.

Lemma MamodelIntsInts_read_length index csv r0 i csv' :
  MamodelIntsInts.read_csv index csv r0 = Ok (i, csv') ->
  length (MamodelIntsInts.ints i) = range_len (MamodelIntsInts.total_ints i).
Proof.
  unfold MamodelIntsInts.read_csv. intros H.
  destruct (Modification.read_csv_fields _ _ _) as [self1|e]; [|done].
  cbn [mbind result_bind] in H.
  match type of H with
  | context [read_rows ?rd ?n ?i ?c ?a] =>
      destruct (read_rows rd n i c a) as [[xs csv1]|e] eqn:E; [|done]
  end.
  cbn [mbind result_bind] in H. injection H as <- <-.
  apply read_rows_length in E. by destruct self1.
Qed.

Lemma Mamodel_read_length csv r0 m csv' :
  Mamodel.read_csv csv r0 = Ok (m, csv') ->
  length (Mamodel.parts m)
  = range_len (MamodelMetaData.total_parts (Mamodel.metadata m)) /\
  length (MamodelIntsInts.ints (Mamodel.ints m))
  = range_len (MamodelIntsInts.total_ints (Mamodel.ints m)).
Proof.
  unfold Mamodel.read_csv. intros H.
  destruct (MamodelMetaData.read_csv _ _) as [md|e]; [|done].
  cbn [mbind result_bind] in H.
  match type of H with
  | context [read_rows ?rd ?n ?i ?c ?a] =>
      destruct (read_rows rd n i c a) as [[ps csv1]|e] eqn:E; [|done]
  end.
  cbn [mbind result_bind] in H.
  destruct (MamodelUnits.read_csv _ _ _) as [[u csv2]|e]; [|done].
  cbn [mbind result_bind] in H.
  destruct (MamodelIntsInts.read_csv _ _ _) as [[i csv3]|e] eqn:Ei; [|done].
  cbn [mbind result_bind] in H. injection H as <- <-.
  apply read_rows_length in E. apply MamodelIntsInts_read_length in Ei.
  by destruct r0.
Qed.

Lemma read_parts_lengths n index csv acc ps csv' next :
  UnitAnim.read_parts n index csv acc = Ok (ps, csv', next) ->
  Forall (fun p => length (KeyFrames.keyframes p)
                   = range_len (KeyFrames.total_keyframes p)) acc ->
  Forall (fun p => length (KeyFrames.keyframes p)
                   = range_len (KeyFrames.total_keyframes p)) ps /\
  length ps = length acc + n.
Proof.
  revert index csv acc. induction n as [|n IH]; intros index csv acc H Hacc.
  - cbn in H. injection H as <- <- <-. split; [done | lia].
  - cbn [UnitAnim.read_parts] in H.
    destruct (KeyFrames.read_csv index csv KeyFrames.new)
      as [[[p csv1] next1]|e] eqn:E; [|done].
    cbn [mbind result_bind] in H.
    apply KeyFrames_read_cursor in E as [_ Hp].
    apply IH in H as [Hall Hlen].
    + split; [done|]. rewrite length_app in Hlen. simpl in Hlen. lia.
    + apply Forall_app. split; [done|]. by repeat constructor.
Qed.

Lemma UnitAnim_read_length csv r0 u csv' :
  UnitAnim.read_csv csv r0 = Ok (u, csv') ->
  length (UnitAnim.parts u)
  = range_len (MaanimMetadata.total_parts (UnitAnim.metadata u)) /\
  Forall (fun p => length (KeyFrames.keyframes p)
                   = range_len (KeyFrames.total_keyframes p))
         (UnitAnim.parts u).
Proof.
  unfold UnitAnim.read_csv. intros H.
  destruct (MaanimMetadata.read_csv _ _) as [md|e]; [|done].
  cbn [mbind result_bind] in H.
  destruct (UnitAnim.read_parts _ _ _ _) as [[[ps csv1] next]|e] eqn:E; [|done].
  cbn [mbind result_bind] in H. injection H as <- <-.
  apply read_parts_lengths in E as [Hall Hlen]; [|constructor].
  split; [|by destruct r0]. destruct r0. cbn in *. lia.
Qed.

(** X23.  A read that succeeds leaves as many entries in each list as
    the count read from the table says, a count that is unset, zero or
    negative giving none: the rects of a [Texture], the keyframes of a
    [KeyFrames] block, the parts of a [UnitAnim] and the keyframes of each
    of them, the parts and the "ints" of a [Mamodel]. *)
Theorem read_csv_count_decides_length :
  (forall csv name r0 t csv',
     Texture.read_csv csv name r0 = Ok (t, csv') ->
     length (Texture.rects t)
     = Z.to_nat (default 0%Z
                   (TextureMetadata.total_rects (Texture.metadata t)))) /\
  (forall index csv r0 p csv' next,
     KeyFrames.read_csv index csv r0 = Ok (p, csv', next) ->
     length (KeyFrames.keyframes p)
     = Z.to_nat (default 0%Z (KeyFrames.total_keyframes p))) /\
  (forall csv r0 u csv',
     UnitAnim.read_csv csv r0 = Ok (u, csv') ->
     length (UnitAnim.parts u)
     = Z.to_nat (default 0%Z
                   (MaanimMetadata.total_parts (UnitAnim.metadata u))) /\
     Forall (fun p => length (KeyFrames.keyframes p)
                      = Z.to_nat (default 0%Z (KeyFrames.total_keyframes p)))
            (UnitAnim.parts u)) /\
  (forall csv r0 m csv',
     Mamodel.read_csv csv r0 = Ok (m, csv') ->
     length (Mamodel.parts m)
     = Z.to_nat (default 0%Z
                   (MamodelMetaData.total_parts (Mamodel.metadata m))) /\
     length (MamodelIntsInts.ints (Mamodel.ints m))
     = Z.to_nat (default 0%Z (MamodelIntsInts.total_ints (Mamodel.ints m)))).
Proof.
  split; [exact Texture_read_length|].
  split.
  { intros index csv r0 p csv' next H.
    by apply KeyFrames_read_cursor in H as [_ H]. }
  split; [exact UnitAnim_read_length | exact Mamodel_read_length].
Qed.


(* ===================================================================== *)
(** * Replacing a cut of a texture                                        *)
(* ===================================================================== *)

Lemma py_set_index_length {A : Type} (xs : list A) i v :
  length (py_set_index xs i v) = length xs.
Proof.
  unfold py_set_index. destruct (0 <=? i)%Z; apply length_insert.
Qed.

Lemma layout_spec rs x y :
  length (fst (fst (Texture.layout rs x y))) = length rs /\
  forall k old, rs !! k = Some old ->
    fst (fst (Texture.layout rs x y)) !! k
    = Some (Rect.mk (Some (x + widths_before rs k)%Z) (Some 0%Z)
              (Rect.w old) (Rect.h old) None).
Proof.
  revert x y. induction rs as [|r rs IH]; intros x y; [done|].
  cbn [Texture.layout]. cbn [Rect.w Rect.h].
  specialize (IH (x + default 0 (Rect.w r))%Z
                 (Z.max (default 0%Z (Rect.h r)) y)).
  destruct (Texture.layout rs _ _) as [[new x'] y'].
  cbn [fst snd] in *. destruct IH as [Hlen Hk]. split; [simpl; lia|].
  intros [|k] old Hold; cbn in Hold.
  - injection Hold as <-. cbn. unfold widths_before. cbn.
    do 3 f_equal. lia.
  - cbn. etrans; [exact (Hk k old Hold)|]. unfold widths_before.
    do 3 f_equal. lia.
Qed.

(** X24.  [Texture.set_cut] keeps the number of rects.  When it returns
    [False] nothing has changed.  When it returns [True], the rect at
    [rect_id] has been replaced by the rect of the new image; if that
    rect is not larger than the original the other rects are as they
    were, and otherwise all rects are laid out anew side by side: each
    keeps its width and height, starts where the one before it ends, at
    height 0, and has no name. *)
Theorem Texture_set_cut_spec (Image : Type)
    (img_get_rect : Image -> Z -> Z -> Rect.t)
    (wipe_rect : Rect.t -> Image -> Image)
    (paste_rect : Image -> Rect.t -> Image -> Image)
    (from_size : Z -> Z -> Image)
    (get_subimage : Rect.t -> Image -> Image)
    (rect_id : Z) (img : Image) (t : Texture.t) (image : option Image) :
  let res := Texture.set_cut Image img_get_rect wipe_rect paste_rect from_size
               get_subimage rect_id img t image in
  length (Texture.rects (fst (fst res))) = length (Texture.rects t) /\
  (snd res = false -> fst (fst res) = t /\ snd (fst res) = image) /\
  (snd res = true ->
   exists orig ox oy ow oh nw nh,
     Texture.get_rect rect_id t = Some orig /\
     Rect.x orig = Some ox /\ Rect.y orig = Some oy /\
     Rect.w orig = Some ow /\ Rect.h orig = Some oh /\
     Rect.w (img_get_rect img ox oy) = Some nw /\
     Rect.h (img_get_rect img ox oy) = Some nh /\
     let rs := py_set_index (Texture.rects t) rect_id
                 (img_get_rect img ox oy) in
     if (nw <=? ow)%Z && (nh <=? oh)%Z
     then Texture.rects (fst (fst res)) = rs
     else forall k old, rs !! k = Some old ->
            Texture.rects (fst (fst res)) !! k
            = Some (Rect.mk (Some (widths_before rs k)) (Some 0%Z)
                      (Rect.w old) (Rect.h old) None)).
Proof.
  cbv zeta. unfold Texture.set_cut.
  destruct (Texture.get_rect rect_id t) as [orig|] eqn:Ho;
    [|by split; [|split]].
  destruct image as [im|]; [|by split; [|split]].
  destruct (Rect.x orig) as [ox|] eqn:Hox; [|by split; [|split]].
  destruct (Rect.y orig) as [oy|] eqn:Hoy; [|by split; [|split]].
  destruct (Rect.h orig) as [oh|] eqn:Hoh; [|by split; [|split]].
  destruct (Rect.w orig) as [ow|] eqn:How; [|by split; [|split]].
  destruct (Rect.w (img_get_rect img ox oy)) as [nw|] eqn:Hnw;
    [|by split; [|split]].
  destruct (Rect.h (img_get_rect img ox oy)) as [nh|] eqn:Hnh;
    [|by split; [|split]].
  set (rs := py_set_index (Texture.rects t) rect_id (img_get_rect img ox oy)).
  replace (Texture.rects (Texture.set_rects rs t)) with rs by (by destruct t).
  destruct ((nw <=? ow)%Z && (nh <=? oh)%Z) eqn:Hfit.
  - cbn [fst snd]. split; [|split; [done|]].
    + destruct t. cbn. apply py_set_index_length.
    + intros _. exists orig, ox, oy, ow, oh, nw, nh.
      repeat (split; [done|]). rewrite Hfit. by destruct t.
  - pose proof (layout_spec rs 0 0) as [Hlen Hk].
    destruct (Texture.layout rs 0 0) as [[new x'] y'].
    cbn [fst snd] in *. split; [|split; [done|]].
    + destruct t. cbn in *. rewrite Hlen. apply py_set_index_length.
    + intros _. exists orig, ox, oy, ow, oh, nw, nh.
      repeat (split; [done|]). rewrite Hfit.
      intros k old Hold. destruct t. cbn. rewrite (Hk k old Hold).
      by rewrite Z.add_0_l.
Qed.


(* ===================================================================== *)
(** * Round trip of a model                                               *)
(* ===================================================================== *)













Lemma Item_attrs_inj it it' : Item_attrs it = Item_attrs it' -> it = it'.
Proof. destruct it, it'. cbv. congruence. Qed.

(** X27.  [Item.deserialize] undoes [Item.serialize]: it gives an item
    with the seven attributes [serialize] was called on, and no other
    item does.  On any dictionary, [deserialize] returns exactly when the
    seven keys are there, raises [KeyError] otherwise, and reads no other
    key: two dictionaries that agree on the seven keys give the same
    result. *)
Theorem Item_serialize_round_trip :
  (forall it, Item_deserialize (Item_serialize it) = Ok (Item_attrs it)) /\
  (forall it it',
      Item_deserialize (Item_serialize it) = Ok (Item_attrs it') ->
      it = it') /\
  (forall (V : Type) (data : StrDict.dict V),
      (Forall (fun k => is_Some (StrDict.get data k)) item_keys /\
       exists a, Item_deserialize data = Ok a /\
                 StrDict.get data "shop_id" = Some (attr_shop_id a) /\
                 StrDict.get data "gatya_item_id"
                 = Some (attr_gatya_item_id a) /\
                 StrDict.get data "count" = Some (attr_count a) /\
                 StrDict.get data "price" = Some (attr_price a) /\
                 StrDict.get data "draw_item_value"
                 = Some (attr_draw_item_value a) /\
                 StrDict.get data "category_name"
                 = Some (attr_category_name a) /\
                 StrDict.get data "rect_id" = Some (attr_rect_id a)) \/
      (Exists (fun k => StrDict.get data k = None) item_keys /\
       Item_deserialize data = Err KeyError)) /\
  (forall (V : Type) (data data' : StrDict.dict V),
      Forall (fun k => StrDict.get data k = StrDict.get data' k) item_keys ->
      Item_deserialize data = Item_deserialize data').
Proof.
  split; [reflexivity|]. split.
  { intros it it' H. apply Item_attrs_inj.
    change (Item_deserialize (Item_serialize it)) with (Ok (Item_attrs it))
      in H.
    congruence. }
  split.
  - intros V data. unfold Item_deserialize, item_keys, subscript.
    destruct (StrDict.get data "shop_id") as [v0|] eqn:H0;
      [|right; split; [repeat first [by apply Exists_cons_hd
                                    | apply Exists_cons_tl]|done]].
    destruct (StrDict.get data "gatya_item_id") as [v1|] eqn:H1;
      [|right; split; [repeat first [by apply Exists_cons_hd
                                    | apply Exists_cons_tl]|done]].
    destruct (StrDict.get data "count") as [v2|] eqn:H2;
      [|right; split; [repeat first [by apply Exists_cons_hd
                                    | apply Exists_cons_tl]|done]].
    destruct (StrDict.get data "price") as [v3|] eqn:H3;
      [|right; split; [repeat first [by apply Exists_cons_hd
                                    | apply Exists_cons_tl]|done]].
    destruct (StrDict.get data "draw_item_value") as [v4|] eqn:H4;
      [|right; split; [repeat first [by apply Exists_cons_hd
                                    | apply Exists_cons_tl]|done]].
    destruct (StrDict.get data "category_name") as [v5|] eqn:H5;
      [|right; split; [repeat first [by apply Exists_cons_hd
                                    | apply Exists_cons_tl]|done]].
    destruct (StrDict.get data "rect_id") as [v6|] eqn:H6;
      [|right; split; [repeat first [by apply Exists_cons_hd
                                    | apply Exists_cons_tl]|done]].
    left. split.
    + repeat (apply Forall_cons; split; [by eauto|]). apply Forall_nil_2.
    + eexists. split; [reflexivity|]. cbn. done.
  - intros V data data' H. unfold item_keys in H.
    repeat (apply Forall_cons in H; destruct H as [?e H]).
    cbv beta in *. unfold Item_deserialize, subscript.
    repeat match goal with
           | E : StrDict.get data _ = _ |- _ => rewrite E; clear E
           end.
    reflexivity.
Qed.

Lemma StrDict_set_fresh {V : Type} (d : StrDict.dict V) k v :
  ~ In k (map fst d) -> StrDict.set d k v = d ++ [(k, v)].
Proof.
  induction d as [|[k0 v0] d IH]; intros Hk; cbn; [done|].
  destruct (String.eqb_spec k0 k) as [->|Hne].
  - exfalso. apply Hk. by left.
  - f_equal. apply IH. intros Hin. apply Hk. by right.
Qed.

Lemma PyDict_set_fresh {V : Type} (d : dict V) k v :
  ~ In k (keys d) -> set d k v = d ++ [(k, v)].
Proof.
  induction d as [|[k0 v0] d IH]; intros Hk; cbn; [done|].
  destruct (Z.eqb_spec k0 k) as [->|Hne].
  - exfalso. apply Hk. by left.
  - f_equal. apply IH. intros Hin. apply Hk. by right.
Qed.

Lemma serialize_items_spec (str_inj : forall k k',
                               py_str_of_int k = py_str_of_int k' -> k = k')
      (h : Heap) (items : dict ref) acc :
  NoDup (keys items) ->
  (forall k, In k (keys items) -> ~ In (py_str_of_int k) (map fst acc)) ->
  serialize_items h items acc
  = acc ++ map (fun kv => (py_str_of_int (fst kv), Item_serialize (h (snd kv))))
               items.
Proof.
  revert acc. induction items as [|[k r] items IH]; intros acc Hnd Hacc.
  - cbn. by rewrite app_nil_r.
  - cbn [serialize_items]. apply NoDup_cons in Hnd as [Hk Hnd].
    rewrite StrDict_set_fresh by (apply Hacc; by left).
    rewrite IH; [by rewrite <- app_assoc|done|].
    intros k' Hk'. rewrite map_app, in_app_iff. intros [Hin|Hin].
    + revert Hin. apply Hacc. by right.
    + cbn in Hin. destruct Hin as [Heq|[]]. apply str_inj in Heq. subst k'.
      apply Hk. by apply list_elem_of_In.
Qed.

Lemma deserialize_items_spec (int : string -> option Z)
      (int_str : forall k, int (py_str_of_int k) = Some k)
      (h : Heap) (items : dict ref) acc :
  NoDup (keys items) ->
  (forall k, In k (keys items) -> ~ In k (keys acc)) ->
  deserialize_items int
    (map (fun kv => (py_str_of_int (fst kv), Item_serialize (h (snd kv))))
         items) acc
  = Ok (acc ++ map (fun kv => (fst kv, Item_attrs (h (snd kv)))) items).
Proof.
  revert acc. induction items as [|[k r] items IH]; intros acc Hnd Hacc.
  - cbn. by rewrite app_nil_r.
  - cbn [map deserialize_items fst snd]. rewrite int_str.
    change (Item_deserialize (Item_serialize (h r)))
      with (Ok (Item_attrs (h r))).
    cbn [or_raise mbind result_bind].
    apply NoDup_cons in Hnd as [Hk Hnd].
    rewrite PyDict_set_fresh by (apply Hacc; by left).
    rewrite IH; [by rewrite <- app_assoc|done|].
    intros k' Hk'. unfold keys. rewrite map_app, in_app_iff.
    intros [Hin|Hin].
    + revert Hin. apply Hacc. by right.
    + cbn in Hin. destruct Hin as [Heq|[]]. subst k'.
      apply Hk. by apply list_elem_of_In.
Qed.

(** X28.  The items of a shop survive [ItemShop.serialize] followed by
    [ItemShop.deserialize]: for a conversion [int] that reads back what
    [str] writes, the dictionary built from the serialized items has the
    keys of the shop, in their order, and under each key an item with the
    attributes of the item the shop holds there.  The serialized
    dictionary has the numerals of the keys as its keys. *)
Theorem ItemShop_items_round_trip (int : string -> option Z) (h : Heap)
        (items : dict ref) :
  (forall k, int (py_str_of_int k) = Some k) ->
  wf items ->
  map fst (serialize_items h items []) = map py_str_of_int (keys items) /\
  deserialize_items int (serialize_items h items []) []
  = Ok (map (fun kv => (fst kv, Item_attrs (h (snd kv)))) items).
Proof.
  intros int_str Hwf.
  assert (str_inj : forall k k',
             py_str_of_int k = py_str_of_int k' -> k = k').
  { intros k k' H. apply (f_equal int) in H. rewrite !int_str in H.
    congruence. }
  rewrite (serialize_items_spec str_inj) by (done || (intros ? _ [])).
  cbn [app]. split.
  - unfold keys. rewrite !map_map. done.
  - by rewrite (deserialize_items_spec int int_str) by (done || (intros ? _ [])).
Qed.

Lemma to_int_str k : Cell.to_int (py_str_of_int k) = Some k.
Proof.
  exact (to_int_of_int k).
Qed.

Lemma ItemShop_items_round_trip_witness :
  let h : Heap := fun r => mkItem (Z.of_nat r) 1 2 3 true "XP" 0 in
  let items : dict ref := [(4%Z, 0); ((-1)%Z, 1)] in
  wf items /\
  deserialize_items Cell.to_int (serialize_items h items []) []
  = Ok [(4%Z, Item_attrs (h 0)); ((-1)%Z, Item_attrs (h 1))].
Proof.
  cbv zeta.
  assert (Hwf : wf [(4%Z, 0); ((-1)%Z, 1)]).
  { unfold wf. cbn. repeat constructor; rewrite list_elem_of_In; cbn;
      intuition congruence. }
  split; [exact Hwf|].
  exact (proj2 (ItemShop_items_round_trip Cell.to_int _ _ to_int_str Hwf)).
Defined.
